(** * aio-tools: the PDF target-size search and the JSON formatter

    A shallow embedding of [src/lib/tools/pdf-compressor.ts] and
    [src/lib/tools/json-formatter.ts], and the properties their
    specification states about them; then further properties of these
    two files and of the handlers of [src/app/tools/pdf-compressor/page.tsx]
    that call the compressor.

    Conventions of the embedding.

    - A JavaScript [number] that holds a quality, a size in megabytes or a
      time is an exact rational ([Q]).  The search only ever halves sums of
      its two bracket ends and compares against [0.005]; the values it
      meets are far from any tie, so the exact model takes the same
      branches as the IEEE-754 arithmetic of the engine.  The values
      themselves differ by the rounding of each midpoint: what is stated
      of them is stated as a bound, and the module [Binary64] replays the
      bisection in binary64.
    - Page counts, attempt numbers and loop counters are [nat], byte sizes
      are [N].
    - What the code calls but does not define (PDF.js, jsPDF, the canvas
      encoder, the clock, the text of a number) is a field of the class
      [Host]; every theorem holds for every host.
    - An [async] function is a computation in the monad [M]: it returns a
      value or throws, and it leaves a chronological list of the calls it
      made to its collaborators. *)

From Stdlib Require Import ZArith QArith Qround List String Ascii Bool Lia.
From Stdlib Require Import DecimalString.
Import ListNotations.

Set Implicit Arguments.

(* ================================================================== *)
(** * Part I.  Definitions: the PDF compressor                          *)
(* ================================================================== *)

Module Pdf.

Open Scope Q_scope.

(** ** Data model (lines 15-66 of pdf-compressor.ts) *)

Record CompressionSettings : Type := {
  quality : Q;                   (* 0.1 to 1.0 *)
  dpi : Q;
  targetSizeMB : option Q        (* [targetSizeMB?: number] *)
}.

Inductive Stage : Type :=
  | loading | rendering | compressing | generating | optimizing | complete.

(** The string a [stage] value is at run time. *)
Definition stage_name (s : Stage) : string :=
  match s with
  | loading => "loading"
  | rendering => "rendering"
  | compressing => "compressing"
  | generating => "generating"
  | optimizing => "optimizing"
  | complete => "complete"
  end.

Record CompressionProgress : Type := {
  stage : Stage;
  currentPage : nat;
  totalPages : nat;
  message : string;
  attempt : option nat           (* [attempt?: number] *)
}.

Definition DEFAULT_SETTINGS : CompressionSettings :=
  {| quality := 0.5; dpi := 144; targetSizeMB := None |}.

(** What a JavaScript call can throw here. *)
Inductive Error : Type :=
  | TypeError (msg : string)
  | HostError (msg : string).

(** How a computation of the model ends without a value: an exception, or
    a [while] loop of the model cut short.  The second is not JavaScript;
    [refine_loop_fuel] shows that the search never produces it. *)
Inductive Halt : Type :=
  | Thrown (e : Error)
  | OutOfFuel.

(** ** The collaborators *)

Class Host (File PdfPage Canvas Blob : Type) : Type := {
  file_size : File -> N;                         (* [file.size] *)
  size : Blob -> N;                              (* [blob.size] *)
  (** [await import(name)] *)
  import_module : string -> Error + unit;
  (** [file.arrayBuffer()] then [pdfjsLib.getDocument(..).promise]: the
      pages 1..numPages of the document. *)
  pdfjs_getDocument : File -> Error + list PdfPage;
  (** [pdf.getPage], [getViewport({scale})], a fresh white canvas and
      [page.render]: the canvas with the viewport's width and height. *)
  pdfjs_renderPage : PdfPage -> Q -> Error + (Canvas * Q * Q);
  (** jsPDF fed with the JPEG data URL of every canvas at the given
      quality, then [pdfDoc.output("blob")]. *)
  jsPDF_output : list (Canvas * Q * Q) -> Q -> Error + Blob;
  (** The text of a number inside a template literal. *)
  show_number : Q -> string;
  (** The n-th reading of [performance.now()]. *)
  performance_now : nat -> Q
}.

Section Engine.

Variables Canvas Blob : Type.

Record RenderedPage : Type := {
  canvas : Canvas;
  width : Q;
  height : Q
}.

Record CompressionResult : Type := {
  blob : Blob;
  originalSize : N;
  compressedSize : N;
  pageCount : nat;
  duration : Q;
  finalQuality : option Q        (* [finalQuality?: number] *)
}.

(** The local variables of the target-size branch of [compressPDF]
    (lines 198-201 and 263). *)
Record SearchState : Type := {
  minQuality : Q;
  maxQuality : Q;
  bestBlob : option Blob;        (* [Blob | null] *)
  bestQuality : Q;
  refinementPasses : nat
}.

(** ** Effects *)

Inductive Event : Type :=
  | EvProgress (p : CompressionProgress)   (* [onProgress?.(p)] *)
  | EvYield                                (* [await new Promise(r => setTimeout(r, 0))] *)
  | EvAssemble (q : Q)                     (* a call of [generatePDFFromCanvases(pages, q)] *)
  | EvState (s : SearchState).             (* ghost: the locals at the end of a loop body *)

Definition M (A : Type) : Type := ((Halt + A) * list Event)%type.

Definition ret {A} (a : A) : M A := (inr a, []).

Definition throw {A} (e : Error) : M A := (inl (Thrown e), []).

Definition bind {A B} (m : M A) (k : A -> M B) : M B :=
  match m with
  | (inl e, l) => (inl e, l)
  | (inr a, l) => let (r, l') := k a in (r, l ++ l')
  end.

Definition emit (e : Event) : M unit := (inr tt, [e]).

Definition lift {A} (r : Error + A) : M A :=
  match r with
  | inl e => throw e
  | inr a => ret a
  end.

Definition onProgress (p : CompressionProgress) : M unit := emit (EvProgress p).

Definition yield : M unit := emit EvYield.

Definition snapshot (s : SearchState) : M unit := emit (EvState s).

End Engine.

Arguments EvProgress {Blob} p.
Arguments EvYield {Blob}.
Arguments EvAssemble {Blob} q.
Arguments ret {Blob A} a.
Arguments throw {Blob A} e.
Arguments bind {Blob A B} m k.
Arguments emit {Blob} e.
Arguments lift {Blob A} r.
Arguments onProgress {Blob} p.
Arguments yield {Blob}.
Arguments snapshot {Blob} s.

Declare Scope pdf_scope.
Delimit Scope pdf_scope with pdf.
Notation "x <- m ;; k" := (bind m (fun x => k))
  (at level 61, m at next level, right associativity) : pdf_scope.
Notation "m ;; k" := (bind m (fun _ => k))
  (at level 61, right associativity) : pdf_scope.
Notation "' pat <- m ;; k" := (bind m (fun x => match x with pat => k end))
  (at level 61, pat pattern, m at next level, right associativity) : pdf_scope.

Section Code.

Context {File PdfPage Canvas Blob : Type} {H : Host File PdfPage Canvas Blob}.
Open Scope pdf_scope.
Open Scope string_scope.

Definition num (n : nat) : Q := inject_Z (Z.of_nat n).

(** [Math.round]: the nearest integer, halves upwards. *)
Definition Math_round (x : Q) : Q := inject_Z (Qfloor (x + (1 # 2))).

Definition Qlt_bool (x y : Q) : bool := negb (Qle_bool y x).

(** [blob.size <= targetBytes] *)
Definition fits (b : Blob) (targetBytes : Q) : bool :=
  Qle_bool (inject_Z (Z.of_N (size b))) targetBytes.

(** ** renderPagesToCanvases (lines 71-136) *)

Fixpoint render_loop (dpi : Q) (totalPages : nat) (todo : list PdfPage)
    (pageNum : nat) (pages : list (RenderedPage Canvas)) : M Blob (list (RenderedPage Canvas)) :=
  match todo with
  | [] => ret pages
  | page :: todo' =>
      onProgress {| stage := rendering; currentPage := pageNum;
                    totalPages := totalPages;
                    message := "Rendering page " ++ show_number (num pageNum)
                               ++ " of " ++ show_number (num totalPages) ++ "...";
                    attempt := None |} ;;
      let scale := dpi / 72 in
      '(c, w, h) <- lift (pdfjs_renderPage page scale) ;;
      render_loop dpi totalPages todo' (S pageNum)
        (pages ++ [{| canvas := c; width := w; height := h |}])%list
  end.

Definition renderPagesToCanvases (file : File) (dpi : Q)
    : M Blob (list (RenderedPage Canvas) * N) :=
  onProgress {| stage := loading; currentPage := 0; totalPages := 0;
                message := "Loading libraries..."; attempt := None |} ;;
  lift (import_module "pdfjs-dist") ;;
  onProgress {| stage := loading; currentPage := 0; totalPages := 0;
                message := "Loading PDF..."; attempt := None |} ;;
  pdf <- lift (pdfjs_getDocument file) ;;
  let totalPages := List.length pdf in
  pages <- render_loop dpi totalPages pdf 1 [] ;;
  ret (pages, file_size file).

(** ** generatePDFFromCanvases (lines 142-176)

    The page loop is jsPDF's; the model keeps what the search can see of
    it: the call itself, the import that can fail, the read of
    [pages[0].width] that throws on an empty list, and the blob. *)
Definition generatePDFFromCanvases (pages : list (RenderedPage Canvas)) (q : Q) : M Blob Blob :=
  emit (EvAssemble q) ;;
  lift (import_module "jspdf") ;;
  match pages with
  | [] => throw (TypeError "Cannot read properties of undefined (reading 'width')")
  | _ :: _ =>
      lift (jsPDF_output (map (fun p => (canvas p, width p, height p)) pages) q)
  end.

(** ** compressPDF, target-size branch (lines 195-305) *)

Definition maxAttempts : nat := 6.
Definition maxRefinementPasses : nat := 4.

Definition initial_state : SearchState Blob :=
  {| minQuality := 0.1; maxQuality := 1.0; bestBlob := None;
     bestQuality := 0.1; refinementPasses := 0 |}.

(** Lines 225-229: even the maximum quality fits. *)
Definition ceiling_state (s : SearchState Blob) (maxQualityBlob : Blob) : SearchState Blob :=
  {| minQuality := minQuality s; maxQuality := maxQuality s;
     bestBlob := Some maxQualityBlob; bestQuality := 1.0;
     refinementPasses := refinementPasses s |}.

(** The progress reports of the branch, one per call site. *)

(** Lines 203-209. *)
Definition intro_progress (total : nat) (sizeMB : Q) : CompressionProgress :=
  {| stage := optimizing; currentPage := total; totalPages := total;
     message := "Finding optimal quality for " ++ show_number sizeMB
                ++ " MB target...";
     attempt := Some 0%nat |}.

(** Lines 215-221. *)
Definition probe_progress (total : nat) : CompressionProgress :=
  {| stage := optimizing; currentPage := total; totalPages := total;
     message := "Testing maximum quality..."; attempt := Some 1%nat |}.

(** Lines 237-243. *)
Definition bisect_progress (total attempt_no : nat) (testQuality : Q)
    : CompressionProgress :=
  {| stage := optimizing; currentPage := total; totalPages := total;
     message := "Attempt " ++ show_number (num attempt_no) ++ "/"
                ++ show_number (num maxAttempts) ++ ": Testing "
                ++ show_number (Math_round (testQuality * 100))
                ++ "% quality...";
     attempt := Some attempt_no |}.

(** Lines 270-275: no [attempt] field. *)
Definition refine_progress (total : nat) (refinedQuality : Q)
    : CompressionProgress :=
  {| stage := optimizing; currentPage := total; totalPages := total;
     message := "Refining: Testing "
                ++ show_number (Math_round (refinedQuality * 100))
                ++ "% quality...";
     attempt := None |}.

(** Lines 295-300: no [attempt] field. *)
Definition fallback_progress (total : nat) : CompressionProgress :=
  {| stage := optimizing; currentPage := total; totalPages := total;
     message := "Target too small - using minimum quality...";
     attempt := None |}.

(** Lines 250-258: the assignments after a bisection trial. *)
Definition bisect_update (targetBytes : Q) (s : SearchState Blob)
    (testQuality : Q) (testBlob : Blob) : SearchState Blob :=
  if fits testBlob targetBytes then
    {| minQuality := testQuality; maxQuality := maxQuality s;
       bestBlob := Some testBlob; bestQuality := testQuality;
       refinementPasses := refinementPasses s |}
  else
    {| minQuality := minQuality s; maxQuality := testQuality;
       bestBlob := bestBlob s; bestQuality := bestQuality s;
       refinementPasses := refinementPasses s |}.

(** The body of the [for] loop (lines 235-258). *)
Definition bisect_attempt (pages : list (RenderedPage Canvas)) (total : nat)
    (targetBytes : Q) (attempt_no : nat) (s : SearchState Blob) : M Blob (SearchState Blob) :=
  let testQuality := (minQuality s + maxQuality s) / 2 in
  onProgress (bisect_progress total attempt_no testQuality) ;;
  yield ;;
  testBlob <- generatePDFFromCanvases pages testQuality ;;
  let s' := bisect_update targetBytes s testQuality testBlob in
  snapshot s' ;;
  ret s'.

(** [for (let attempt = 1; attempt <= maxAttempts; attempt++)]: [todo]
    iterations are left, the next one is numbered [attempt_no]. *)
Fixpoint bisect_loop (pages : list (RenderedPage Canvas)) (total : nat) (targetBytes : Q)
    (todo attempt_no : nat) (s : SearchState Blob) : M Blob (SearchState Blob) :=
  match todo with
  | O => ret s
  | S todo' =>
      s' <- bisect_attempt pages total targetBytes attempt_no s ;;
      bisect_loop pages total targetBytes todo' (S attempt_no) s'
  end.

(** The condition of the [while] loop (line 266). *)
Definition refine_continue (s : SearchState Blob) : bool :=
  match bestBlob s with
  | Some _ =>
      Qlt_bool (bestQuality s) (maxQuality s - 0.005)
      && (refinementPasses s <? maxRefinementPasses)%nat
  | None => false
  end.

(** Lines 267 and 280-287: the counter and the assignments after a
    refinement trial. *)
Definition refine_update (targetBytes : Q) (s : SearchState Blob)
    (refinedQuality : Q) (refinedBlob : Blob) : SearchState Blob :=
  if fits refinedBlob targetBytes then
    {| minQuality := minQuality s; maxQuality := maxQuality s;
       bestBlob := Some refinedBlob; bestQuality := refinedQuality;
       refinementPasses := S (refinementPasses s) |}
  else
    {| minQuality := minQuality s; maxQuality := refinedQuality;
       bestBlob := bestBlob s; bestQuality := bestQuality s;
       refinementPasses := S (refinementPasses s) |}.

(** The body of the [while] loop (lines 267-287). *)
Definition refine_pass (pages : list (RenderedPage Canvas)) (total : nat)
    (targetBytes : Q) (s : SearchState Blob) : M Blob (SearchState Blob) :=
  let refinedQuality := (bestQuality s + maxQuality s) / 2 in
  onProgress (refine_progress total refinedQuality) ;;
  yield ;;
  refinedBlob <- generatePDFFromCanvases pages refinedQuality ;;
  let s' := refine_update targetBytes s refinedQuality refinedBlob in
  snapshot s' ;;
  ret s'.

(** The [while] loop (line 266), cut after [fuel] passes. *)
Fixpoint refine_loop (pages : list (RenderedPage Canvas)) (total : nat) (targetBytes : Q)
    (fuel : nat) (s : SearchState Blob) : M Blob (SearchState Blob) :=
  if refine_continue s then
    match fuel with
    | O => (inl OutOfFuel, [])
    | S fuel' =>
        s' <- refine_pass pages total targetBytes s ;;
        refine_loop pages total targetBytes fuel' s'
    end
  else ret s.

(** Lines 293-303. *)
Definition fallback (pages : list (RenderedPage Canvas)) (total : nat)
    (s : SearchState Blob) (finalQ : Q) : M Blob (Blob * Q) :=
  match bestBlob s with
  | None =>
      onProgress (fallback_progress total) ;;
      b <- generatePDFFromCanvases pages 0.1 ;;
      ret (b, 0.1)
  | Some b => ret (b, finalQ)
  end.

(** The block of [if (settings.targetSizeMB)]: the blob and the quality
    it leaves in [finalBlob] and [finalQuality]. *)
Definition target_size_mode (pages : list (RenderedPage Canvas)) (total : nat)
    (sizeMB : Q) : M Blob (Blob * Q) :=
  let targetBytes := sizeMB * 1024 * 1024 in
  let s0 := initial_state in
  snapshot s0 ;;
  onProgress (intro_progress total sizeMB) ;;
  yield ;;
  onProgress (probe_progress total) ;;
  maxQualityBlob <- generatePDFFromCanvases pages 1.0 ;;
  '(s, finalQ) <-
    (if fits maxQualityBlob targetBytes then
       let s1 := ceiling_state s0 maxQualityBlob in
       snapshot s1 ;;
       ret (s1, 1.0)
     else
       s1 <- bisect_loop pages total targetBytes maxAttempts 1 s0 ;;
       s2 <- refine_loop pages total targetBytes maxRefinementPasses s1 ;;
       ret (s2, bestQuality s2)) ;;
  fallback pages total s finalQ.

(** Lines 307-315. *)
Definition standard_mode (pages : list (RenderedPage Canvas)) (total : nat)
    (q : Q) : M Blob (Blob * Q) :=
  onProgress {| stage := generating; currentPage := total; totalPages := total;
                message := "Generating compressed PDF..."; attempt := None |} ;;
  b <- generatePDFFromCanvases pages q ;;
  ret (b, q).

(** The truthiness of [settings.targetSizeMB]: present and not zero. *)
Definition target_mode (settings : CompressionSettings) : option Q :=
  match targetSizeMB settings with
  | Some t => if Qeq_bool t 0 then None else Some t
  | None => None
  end.

(** Lines 320-325. *)
Definition complete_progress (total : nat) : CompressionProgress :=
  {| stage := complete; currentPage := total; totalPages := total;
     message := "Compression complete!"; attempt := None |}.

(** ** compressPDF (lines 181-335) *)
Definition compressPDF (file : File) (settings : CompressionSettings)
    : M Blob (CompressionResult Blob) :=
  let startTime := performance_now 0 in
  '(pages, original) <- renderPagesToCanvases file (dpi settings) ;;
  let total := List.length pages in
  '(finalBlob, finalQ) <-
    match target_mode settings with
    | Some sizeMB => target_size_mode pages total sizeMB
    | None => standard_mode pages total (quality settings)
    end ;;
  let elapsed := performance_now 1 - startTime in
  onProgress (complete_progress total) ;;
  ret {| blob := finalBlob; originalSize := original;
         compressedSize := size finalBlob; pageCount := total;
         duration := elapsed;
         finalQuality := match target_mode settings with
                         | Some _ => Some finalQ
                         | None => None
                         end |}.

End Code.

(** ** Vocabulary of the specification

    The words the properties below are stated in.  Nothing here is used
    by the code above. *)

Section Vocabulary.

Context {File PdfPage Canvas Blob : Type} {H : Host File PdfPage Canvas Blob}.

(** The events of a run that are calls of the assembler. *)
Definition assembled (l : list (Event Blob)) : list Q :=
  flat_map (fun e => match e with EvAssemble q => [q] | _ => [] end) l.

(** The progress reports of a run, in order. *)
Definition progress_of (l : list (Event Blob)) : list CompressionProgress :=
  flat_map (fun e => match e with EvProgress p => [p] | _ => [] end) l.

(** The snapshots of the search's locals, in order. *)
Definition states_of (l : list (Event Blob)) : list (SearchState Blob) :=
  flat_map (fun e => match e with EvState s => [s] | _ => [] end) l.

(** A run without its ghost snapshots: what an observer of the
    collaborators sees. *)
Definition observable (l : list (Event Blob)) : list (Event Blob) :=
  filter (fun e => match e with EvState _ => false | _ => true end) l.

(** What the assembler answers at a quality. *)
Definition assemble_result (pages : list (RenderedPage Canvas)) (q : Q) : Halt + Blob :=
  fst (generatePDFFromCanvases pages q).

Definition byte_size (b : Blob) : Q := inject_Z (Z.of_N (size b)).

Definition target_bytes (sizeMB : Q) : Q := sizeMB * 1024 * 1024.

Definition bisect_mid (s : SearchState Blob) : Q := (minQuality s + maxQuality s) / 2.

Definition refine_mid (s : SearchState Blob) : Q := (bestQuality s + maxQuality s) / 2.

(** Consecutive elements of a list are related. *)
Fixpoint chain {A : Type} (R : A -> A -> Prop) (l : list A) : Prop :=
  match l with
  | a :: t => match t with
              | b :: _ => R a b /\ chain R t
              | [] => True
              end
  | [] => True
  end.

(** The pages a run hands to the search. *)
Definition rendered_pages (file : File) (settings : CompressionSettings)
    : list (RenderedPage Canvas) :=
  match fst (renderPagesToCanvases file (dpi settings)) with
  | inr (pages, _) => pages
  | inl _ => []
  end.

(** A quality known to produce more than the budget. *)
Definition too_big (pages : list (RenderedPage Canvas)) (targetBytes q : Q) : Prop :=
  exists b, assemble_result pages q = inr b /\ ~ byte_size b <= targetBytes.

(** One bisection iteration, in the words of the specification (4.3,
    step 2): test the midpoint of the bracket; a blob that fits becomes
    the best candidate and the midpoint the new lower end, a blob that
    does not makes the midpoint the new upper end. *)
Definition bisect_step (pages : list (RenderedPage Canvas)) (targetBytes : Q)
    (s s' : SearchState Blob) : Prop :=
  exists b,
    assemble_result pages (bisect_mid s) = inr b
    /\ ((byte_size b <= targetBytes
         /\ bestBlob s' = Some b /\ bestQuality s' = bisect_mid s
         /\ minQuality s' = bisect_mid s /\ maxQuality s' = maxQuality s)
        \/ (~ byte_size b <= targetBytes
            /\ maxQuality s' = bisect_mid s /\ minQuality s' = minQuality s
            /\ bestBlob s' = bestBlob s /\ bestQuality s' = bestQuality s)).

(** One refinement trial, in the words of the specification (4.3, step
    3): only with a candidate, a gap above 0.005 and fewer than four
    trials behind; test the midpoint between the best quality and the
    upper end; same accept/reject rule. *)
Definition refine_step (pages : list (RenderedPage Canvas)) (targetBytes : Q)
    (s s' : SearchState Blob) : Prop :=
  bestBlob s <> None
  /\ 0.005 < maxQuality s - bestQuality s
  /\ (refinementPasses s < 4)%nat
  /\ refinementPasses s' = S (refinementPasses s)
  /\ minQuality s' = minQuality s
  /\ exists b,
       assemble_result pages (refine_mid s) = inr b
       /\ ((byte_size b <= targetBytes
            /\ bestBlob s' = Some b /\ bestQuality s' = refine_mid s
            /\ maxQuality s' = maxQuality s)
           \/ (~ byte_size b <= targetBytes
               /\ maxQuality s' = refine_mid s
               /\ bestBlob s' = bestBlob s /\ bestQuality s' = bestQuality s)).

(** The invariant of [SearchState] as the specification states it
    (section 3). *)
Definition stated_invariant (pages : list (RenderedPage Canvas)) (targetBytes : Q)
    (s : SearchState Blob) : Prop :=
  minQuality s <= maxQuality s
  /\ (forall b, bestBlob s = Some b -> byte_size b <= targetBytes)
  /\ match bestBlob s with
     | Some _ => minQuality s == bestQuality s
     | None => minQuality s == 0.1
     end
  /\ (maxQuality s == 1.0 \/ too_big pages targetBytes (maxQuality s)).

(** The part of it that a snapshot can be tested for. *)
Definition min_is_best (s : SearchState Blob) : bool :=
  match bestBlob s with
  | Some _ => Qeq_bool (minQuality s) (bestQuality s)
  | None => Qeq_bool (minQuality s) 0.1
  end.

(** The invariant the code keeps: [bestQuality], not [minQuality], is the
    quality of the best candidate; the two agree until a refinement trial
    has run or the quality-1.0 probe was taken. *)
Definition search_invariant (pages : list (RenderedPage Canvas)) (targetBytes : Q)
    (s : SearchState Blob) : Prop :=
  minQuality s <= bestQuality s
  /\ bestQuality s <= maxQuality s
  /\ match bestBlob s with
     | Some b => assemble_result pages (bestQuality s) = inr b
                 /\ byte_size b <= targetBytes
     | None => minQuality s = 0.1 /\ bestQuality s = 0.1
     end
  /\ (maxQuality s = 1.0 \/ too_big pages targetBytes (maxQuality s))
  /\ (minQuality s = bestQuality s
      \/ (0 < refinementPasses s)%nat
      \/ bestQuality s = 1.0).

(** The three events around a bisection trial, around a refinement trial,
    in front of the search and at the fallback. *)
Definition bisect_block (total : nat) (aq : nat * Q) : list (Event Blob) :=
  [EvProgress (bisect_progress total (fst aq) (snd aq)); EvYield;
   EvAssemble (snd aq)].

Definition refine_block (total : nat) (q : Q) : list (Event Blob) :=
  [EvProgress (refine_progress total q); EvYield; EvAssemble q].

Definition probe_block (total : nat) (sizeMB : Q) : list (Event Blob) :=
  [EvProgress (intro_progress total sizeMB); EvYield;
   EvProgress (probe_progress total); EvAssemble 1.0].

Definition fallback_block (total : nat) : list (Event Blob) :=
  [EvProgress (fallback_progress total); EvAssemble 0.1].

(** The progress reports in front of the assembler calls of a run: for
    each call, the latest report before it. *)
Fixpoint reports_before_calls_from (last : option CompressionProgress)
    (l : list (Event Blob)) : list CompressionProgress :=
  match l with
  | [] => []
  | EvProgress p :: l' => reports_before_calls_from (Some p) l'
  | EvAssemble _ :: l' =>
      match last with
      | Some p => p :: reports_before_calls_from None l'
      | None => reports_before_calls_from None l'
      end
  | _ :: l' => reports_before_calls_from last l'
  end.

Definition reports_before_calls (l : list (Event Blob)) : list CompressionProgress :=
  reports_before_calls_from None l.

(** A progress report as the specification describes it (4.3, side
    effects): a phase among the four, an attempt index, a status string. *)
Definition stated_report (p : CompressionProgress) : Prop :=
  In (stage_name (stage p)) ["probing"; "bisecting"; "refining"; "fallback"]%string
  /\ attempt p <> None
  /\ message p <> ""%string.

(** The events in front of the first decision of the search. *)
Definition search_prefix (total : nat) (sizeMB : Q) : list (Event Blob) :=
  EvState initial_state :: probe_block total sizeMB.

(** The record [compressPDF] returns (lines 327-334). *)
Definition result_of (original : N) (total : nat) (b : Blob) (q : option Q)
    : CompressionResult Blob :=
  {| blob := b; originalSize := original; compressedSize := size b;
     pageCount := total; duration := performance_now 1 - performance_now 0;
     finalQuality := q |}.

(** The candidate a state holds, if any, fits. *)
Definition best_fits (targetBytes : Q) (s : SearchState Blob) : Prop :=
  match bestBlob s with
  | Some b => fits b targetBytes = true
  | None => True
  end.

(** The fallback as the specification states it (4.3, step 4 and 7,
    BudgetUnreachable): when no candidate ever fit, the result is the
    floor quality and its blob exceeds the budget. *)
Definition stated_fallback (file : File) (settings : CompressionSettings) : Prop :=
  forall sizeMB res l,
    target_mode settings = Some sizeMB ->
    compressPDF file settings = (inr res, l) ->
    Forall (fun s => bestBlob s = None) (states_of l) ->
    finalQuality res = Some 0.1
    /\ ~ byte_size (blob res) <= target_bytes sizeMB.

(** A report of the search as the code makes it. *)
Definition search_report (p : CompressionProgress) : Prop :=
  stage p = optimizing /\ message p <> ""%string.

End Vocabulary.

(** ** Hosts to run the model on

    A document of [n] pages is the file [n]; a blob is the quality it was
    encoded at and its byte size; the assembler's size is a function of
    the quality alone. *)

Definition show_integer (q : Q) : string :=
  NilZero.string_of_int (Z.to_int (Qfloor q)).

Definition sized_host (byteSize : Q -> N) : Host nat nat nat (Q * N) := {|
  file_size := fun n => (N.of_nat n * 100000)%N;
  size := snd;
  import_module := fun _ => inr tt;
  pdfjs_getDocument := fun n => inr (seq 1 n);
  pdfjs_renderPage := fun p scale => inr (p, 612 * scale, 792 * scale);
  jsPDF_output := fun _ q => inr (q, byteSize q);
  show_number := show_integer;
  performance_now := fun n => inject_Z (Z.of_nat n)
|}.

Definition target_settings (sizeMB : Q) : CompressionSettings :=
  {| quality := 0.5; dpi := 144; targetSizeMB := Some sizeMB |}.

(** Section 8 of the specification, scenario 9: the size is the quality
    times a million bytes, rounded; the budget is 500 000 bytes. *)
Definition linear_size (q : Q) : N := Z.to_N (Qfloor (q * 1000000 + (1 # 2))).

Definition linear_host : Host nat nat nat (Q * N) := sized_host linear_size.

(** Scenario 8: a hundred kilobytes whatever the quality, to fit ten
    megabytes. *)
Definition small_host : Host nat nat nat (Q * N) := sized_host (fun _ => 100000%N).

(** Scenario 10: two million bytes whatever the quality, to fit one
    million. *)
Definition large_host : Host nat nat nat (Q * N) := sized_host (fun _ => 2000000%N).

(** A strictly increasing assembler: 900 000 bytes plus a million times
    the quality. *)
Definition affine_size (q : Q) : N := Z.to_N (Qfloor (900000 + q * 1000000)).

Definition affine_host : Host nat nat nat (Q * N) := sized_host affine_size.

End Pdf.

(* ================================================================== *)
(** * Part II.  Definitions: the JSON formatter                         *)
(* ================================================================== *)

(** [json-formatter.ts] is a few lines around four built-ins:
    [String.prototype.trim], [String.prototype.repeat], [JSON.parse] and
    [JSON.stringify].  The built-ins are modelled from ECMA-262 (sections
    22.1.3 and 25.5) and ECMA-404:

    - a string is its list of UTF-16 code units;
    - a number is an IEEE-754 binary64 value ([spec_float] with precision
      53 and maximal exponent 1024): a literal is rounded to the nearest
      value, ties to even, and printed with the fewest digits that read
      back as the same value;
    - an object is its list of properties in enumeration order: array
      indices ascending, then the other keys in order of creation;
    - the message of a [SyntaxError] is implementation-defined; the model
      prints V8's classic texts, the ones the regular expression of
      [validateJSON] is written for;
    - where a call runs out of call stack or of string space is for the
      engine to decide: the class [Engine]. *)

From Stdlib Require Import SpecFloat.

Module Json.

Open Scope N_scope.

(** ** Strings *)

Definition JsString : Type := list N.

(** An ASCII literal as a JavaScript string. *)
Definition js (s : string) : JsString := map N_of_ascii (list_ascii_of_string s).

Fixpoint string_eqb (a b : JsString) : bool :=
  match a, b with
  | [], [] => true
  | x :: a', y :: b' => (x =? y) && string_eqb a' b'
  | _, _ => false
  end.

(** [WhiteSpace] and [LineTerminator] of ECMA-262: what [trim] strips. *)
Definition is_js_space (c : N) : bool :=
  (c =? 9) || (c =? 10) || (c =? 11) || (c =? 12) || (c =? 13) || (c =? 32)
  || (c =? 160) || (c =? 5760) || ((8192 <=? c) && (c <=? 8202))
  || (c =? 8232) || (c =? 8233) || (c =? 8239) || (c =? 8287)
  || (c =? 12288) || (c =? 65279).

Fixpoint trimStart (s : JsString) : JsString :=
  match s with
  | c :: t => if is_js_space c then trimStart t else s
  | [] => []
  end.

Definition trimEnd (s : JsString) : JsString := rev (trimStart (rev s)).

(** [String.prototype.trim] *)
Definition trim (s : JsString) : JsString := trimEnd (trimStart s).

Definition is_digit (c : N) : bool := (48 <=? c) && (c <=? 57).

Fixpoint span_digits (s : JsString) : JsString * JsString :=
  match s with
  | c :: t => if is_digit c
              then let (ds, r) := span_digits t in (c :: ds, r)
              else ([], s)
  | [] => ([], [])
  end.

(** The value of a run of decimal digits. *)
Definition digits_value (ds : JsString) : Z :=
  fold_left (fun acc c => (acc * 10 + (Z.of_N c - 48))%Z) ds 0%Z.

(** The decimal digits of a natural number, most significant first. *)
Fixpoint decimal_digits_from (fuel : nat) (n : Z) (acc : JsString) : JsString :=
  match fuel with
  | O => acc
  | S fuel' =>
      let acc' := Z.to_N (48 + n mod 10) :: acc in
      if (n / 10 =? 0)%Z then acc' else decimal_digits_from fuel' (n / 10) acc'
  end.

Definition decimal_digits (n : Z) : JsString :=
  decimal_digits_from (S (Z.to_nat (Z.log2 n))) n [].

Fixpoint strip_prefix (p s : JsString) : option JsString :=
  match p, s with
  | [], _ => Some s
  | x :: p', y :: s' => if x =? y then strip_prefix p' s' else None
  | _ :: _, [] => None
  end.

(** ** Numbers (ECMA-262 6.1.6.1) *)

Definition Number : Type := spec_float.

Definition prec : Z := 53.
Definition emax : Z := 1024.

(** The Number value for the decimal [m * 10^e], [m >= 0]: the nearest
    binary64 value, ties to even, an overflow to an infinity. *)
Definition number_of_decimal (neg : bool) (m e : Z) : Number :=
  match m with
  | Z0 => S754_zero neg
  | Zpos p =>
      if (0 <=? e)%Z
      then binary_round prec emax neg (Z.to_pos (Zpos p * 10 ^ e)) 0
      else let '(q, e', l) := SFdiv_core_binary prec emax (Zpos p) 0 (10 ^ (- e)) 0 in
           binary_round_aux prec emax neg q e' l
  | Zneg _ => S754_nan
  end.

Definition is_finite (x : Number) : bool :=
  match x with
  | S754_zero _ | S754_finite _ _ _ => true
  | S754_infinity _ | S754_nan => false
  end.

(** The same Number value, [+0] and [-0] told apart. *)
Definition number_eqb (x y : Number) : bool :=
  match x, y with
  | S754_zero a, S754_zero b => Bool.eqb a b
  | S754_infinity a, S754_infinity b => Bool.eqb a b
  | S754_nan, S754_nan => true
  | S754_finite a m e, S754_finite b m' e' =>
      Bool.eqb a b && (m =? m')%positive && (e =? e')%Z
  | _, _ => false
  end.

(** [n] with [10^(n-1) <= num/den < 10^n], for a positive [num/den]. *)
Fixpoint below_one_exponent (fuel : nat) (num den : Z) (j : Z) : Z :=
  match fuel with
  | O => 1 - j
  | S fuel' => if (den <=? num * 10 ^ j)%Z then 1 - j
               else below_one_exponent fuel' num den (j + 1)
  end.

Definition decimal_exponent (num den : Z) : Z :=
  if (den <=? num)%Z
  then Z.of_nat (List.length (decimal_digits (num / den)))
  else below_one_exponent 400 num den 1.

(** The shortest digits (Number::toString, step 5): the least [k] for
    which a [k]-digit decimal [s * 10^(n-k)] reads back as [x]; of two
    such decimals the nearer to [x], the even one at a tie. *)
Fixpoint shortest_digits (fuel : nat) (k : Z) (x : Number) (num den n : Z)
    : Z * Z :=
  let p := (n - k)%Z in
  let snum := if (0 <=? p)%Z then num else (num * 10 ^ (- p))%Z in
  let sden := if (0 <=? p)%Z then (den * 10 ^ p)%Z else den in
  let lo := (snum / sden)%Z in
  let hi := (lo + 1)%Z in
  let lo_ok := number_eqb (number_of_decimal false lo p) x in
  let hi_ok := number_eqb (number_of_decimal false hi p) x in
  let twice := (2 * (snum mod sden))%Z in
  let pick_hi :=
    hi_ok && (negb lo_ok || (sden <? twice)%Z || ((sden =? twice)%Z && Z.odd lo)) in
  let s := if pick_hi then hi else lo in
  match fuel with
  | S fuel' =>
      if lo_ok || hi_ok
      then if (s =? 10 ^ k)%Z then (10 ^ (k - 1), n + 1)%Z else (s, n)
      else shortest_digits fuel' (k + 1) x num den n
  | O => (s, n)
  end.

(** Number::toString, steps 6-10: the digits [s] laid out around the
    decimal point, or with an exponent. *)
Definition layout_number (digits : JsString) (n : Z) : JsString :=
  let k := Z.of_nat (List.length digits) in
  if ((k <=? n) && (n <=? 21))%Z then
    digits ++ repeat 48 (Z.to_nat (n - k))
  else if ((0 <? n) && (n <=? 21))%Z then
    firstn (Z.to_nat n) digits ++ js "." ++ skipn (Z.to_nat n) digits
  else if ((-6 <? n) && (n <=? 0))%Z then
    js "0." ++ repeat 48 (Z.to_nat (- n)) ++ digits
  else
    let e := (n - 1)%Z in
    let sign := if (0 <=? e)%Z then js "+" else js "-" in
    match digits with
    | [] => []
    | [d] => d :: js "e" ++ sign ++ decimal_digits (Z.abs e)
    | d :: ds => d :: js "." ++ ds ++ js "e" ++ sign ++ decimal_digits (Z.abs e)
    end.

(** Number::toString, radix 10. *)
Definition Number_toString (x : Number) : JsString :=
  match x with
  | S754_nan => js "NaN"
  | S754_zero _ => js "0"
  | S754_infinity false => js "Infinity"
  | S754_infinity true => js "-Infinity"
  | S754_finite neg m e =>
      let num := if (0 <=? e)%Z then (Zpos m * 2 ^ e)%Z else Zpos m in
      let den := if (0 <=? e)%Z then 1%Z else (2 ^ (- e))%Z in
      let n := decimal_exponent num den in
      let '(s, n') := shortest_digits 17 1 (S754_finite false m e) num den n in
      (if neg then js "-" else []) ++ layout_number (decimal_digits s) n'
  end.

(** ** Values *)

#[local] Set Warnings "-register-all".

Inductive Value : Type :=
  | JNull
  | JBool (b : bool)
  | JNumber (x : Number)
  | JString (s : JsString)
  | JArray (items : list Value)
  | JObject (props : list (JsString * Value)).

(** An array index (ECMA-262 6.1.7): the canonical decimal text of an
    integer below 2^32 - 1. *)
Definition array_index (k : JsString) : option Z :=
  match k with
  | [] => None
  | c :: t =>
      if forallb is_digit k && (negb (c =? 48) || match t with [] => true | _ => false end)
         && (digits_value k <? 4294967295)%Z
      then Some (digits_value k)
      else None
  end.

Fixpoint has_key (k : JsString) (props : list (JsString * Value)) : bool :=
  match props with
  | [] => false
  | (k', _) :: rest => string_eqb k k' || has_key k rest
  end.

Fixpoint replace_value (k : JsString) (v : Value) (props : list (JsString * Value))
    : list (JsString * Value) :=
  match props with
  | [] => []
  | (k', v') :: rest =>
      if string_eqb k k' then (k', v) :: rest else (k', v') :: replace_value k v rest
  end.

(** A new index goes in front of the first key that is no index or a
    larger one. *)
Fixpoint insert_index (i : Z) (k : JsString) (v : Value) (props : list (JsString * Value))
    : list (JsString * Value) :=
  match props with
  | [] => [(k, v)]
  | (k', v') :: rest =>
      match array_index k' with
      | Some j => if (j <=? i)%Z then (k', v') :: insert_index i k v rest
                  else (k, v) :: props
      | None => (k, v) :: props
      end
  end.

(** [CreateDataProperty] on an ordinary object: an existing key keeps its
    place, a new index is put among the indices, another new key last. *)
Definition obj_set (k : JsString) (v : Value) (props : list (JsString * Value))
    : list (JsString * Value) :=
  if has_key k props then replace_value k v props
  else match array_index k with
       | Some i => insert_index i k v props
       | None => props ++ [(k, v)]
       end.

(** ** JSON.parse (ECMA-262 25.5.1, ECMA-404) *)

(** Why a text is no JSON: it ends too early, or the text from [rest] on
    cannot follow what was read.  [FuelExhausted] is the model's own:
    [JSON_parse_fuel] shows that [JSON_parse] never returns it. *)
Inductive ParseError : Type :=
  | UnexpectedEnd
  | UnexpectedToken (rest : JsString)
  | FuelExhausted.

Definition is_ws (c : N) : bool :=
  (c =? 32) || (c =? 9) || (c =? 10) || (c =? 13).

Fixpoint skip_ws (s : JsString) : JsString :=
  match s with
  | c :: t => if is_ws c then skip_ws t else s
  | [] => []
  end.

Definition hex_value (c : N) : option N :=
  if is_digit c then Some (c - 48)
  else if (97 <=? c) && (c <=? 102) then Some (c - 87)
  else if (65 <=? c) && (c <=? 70) then Some (c - 55)
  else None.

Definition hex4 (a b c d : N) : option N :=
  match hex_value a, hex_value b, hex_value c, hex_value d with
  | Some x, Some y, Some z, Some w => Some (((x * 16 + y) * 16 + z) * 16 + w)
  | _, _, _, _ => None
  end.

(** The character an escape letter stands for. *)
Definition unescape (c : N) : option N :=
  if c =? 34 then Some 34              (* quote *)
  else if c =? 92 then Some 92         (* backslash *)
  else if c =? 47 then Some 47         (* slash *)
  else if c =? 98 then Some 8          (* backspace *)
  else if c =? 102 then Some 12        (* form feed *)
  else if c =? 110 then Some 10        (* line feed *)
  else if c =? 114 then Some 13        (* carriage return *)
  else if c =? 116 then Some 9         (* tab *)
  else None.

Definition unexpected (s : JsString) : ParseError :=
  match s with
  | [] => UnexpectedEnd
  | _ :: _ => UnexpectedToken s
  end.

(** The text from the first character that is no hexadecimal digit. *)
Fixpoint skip_hex (s : JsString) : JsString :=
  match s with
  | c :: t => match hex_value c with
              | Some _ => skip_hex t
              | None => s
              end
  | [] => []
  end.

(** The characters of a string literal after its opening quote.  A
    [\u] that is not followed by four hexadecimal digits is refused at
    the first character that is none. *)
Fixpoint parse_string_chars (s : JsString) : ParseError + (JsString * JsString) :=
  match s with
  | [] => inl UnexpectedEnd
  | c :: t =>
      if c =? 34 then inr ([], t)
      else if c =? 92 then
        match t with
        | [] => inl UnexpectedEnd
        | e :: t' =>
            if e =? 117 then
              match t' with
              | h1 :: h2 :: h3 :: h4 :: t'' =>
                  match hex4 h1 h2 h3 h4 with
                  | Some u =>
                      match parse_string_chars t'' with
                      | inr (cs, r) => inr (u :: cs, r)
                      | inl err => inl err
                      end
                  | None => inl (unexpected (skip_hex t'))
                  end
              | _ => inl (unexpected (skip_hex t'))
              end
            else
              match unescape e with
              | Some u =>
                  match parse_string_chars t' with
                  | inr (cs, r) => inr (u :: cs, r)
                  | inl err => inl err
                  end
              | None => inl (UnexpectedToken t)
              end
        end
      else if c <? 32 then inl (UnexpectedToken s)
      else
        match parse_string_chars t with
        | inr (cs, r) => inr (c :: cs, r)
        | inl err => inl err
        end
  end.

(** The rest of [s] after the character [c] it starts with. *)
Definition starts_with (c : N) (s : JsString) : option JsString :=
  match s with
  | x :: t => if x =? c then Some t else None
  | [] => None
  end.

(** One or more digits. *)
Definition parse_digits (s : JsString) : ParseError + (JsString * JsString) :=
  match span_digits s with
  | ([], r) => inl (unexpected r)
  | (ds, r) => inr (ds, r)
  end.

(** The parts of a number literal: [-? int frac? exp?]. *)
Definition parse_sign (s : JsString) : bool * JsString :=
  match starts_with 45 s with                               (* - *)
  | Some t => (true, t)
  | None => (false, s)
  end.

Definition parse_int (s : JsString) : ParseError + (JsString * JsString) :=
  match starts_with 48 s with                               (* 0 *)
  | Some t => inr ([48], t)
  | None => parse_digits s
  end.

Definition parse_frac (s : JsString) : ParseError + (JsString * JsString) :=
  match starts_with 46 s with                               (* . *)
  | Some t => parse_digits t
  | None => inr ([], s)
  end.

Definition parse_exp (s : JsString) : ParseError + (Z * JsString) :=
  match s with
  | e :: t =>
      if (e =? 101) || (e =? 69) then                       (* e E *)
        let (eneg, t') :=
          match starts_with 45 t with
          | Some t' => (true, t')
          | None =>
              match starts_with 43 t with                   (* + *)
              | Some t' => (false, t')
              | None => (false, t)
              end
          end in
        match parse_digits t' with
        | inl err => inl err
        | inr (ex, r) => inr (if eneg then (- digits_value ex)%Z else digits_value ex, r)
        end
      else inr (0%Z, s)
  | [] => inr (0%Z, s)
  end.

Definition parse_number (s : JsString) : ParseError + (Number * JsString) :=
  let (neg, s1) := parse_sign s in
  match parse_int s1 with
  | inl err => inl err
  | inr (int, s2) =>
      match parse_frac s2 with
      | inl err => inl err
      | inr (fr, s3) =>
          match parse_exp s3 with
          | inl err => inl err
          | inr (ex, s4) =>
              inr (number_of_decimal neg (digits_value (int ++ fr))
                     (ex - Z.of_nat (List.length fr))%Z,
                   s4)
          end
      end
  end.

(** The text from the first character that differs from [lit]. *)
Fixpoint mismatch (lit s : JsString) : JsString :=
  match lit, s with
  | x :: lit', y :: s' => if x =? y then mismatch lit' s' else s
  | _, _ => s
  end.

(** A literal name; a misspelt one is refused at the first character
    that differs. *)
Definition expect_literal (lit : JsString) (v : Value) (s : JsString)
    : ParseError + (Value * JsString) :=
  match strip_prefix lit s with
  | Some r => inr (v, r)
  | None => inl (unexpected (mismatch lit s))
  end.

(** A value, the elements of an array, the members of an object: each
    call spends one unit of [fuel]. *)
Fixpoint parse_value (fuel : nat) (s : JsString) : ParseError + (Value * JsString) :=
  match fuel with
  | O => inl FuelExhausted
  | S fuel' =>
      match skip_ws s with
      | [] => inl UnexpectedEnd
      | c :: t =>
          if c =? 123 then                                  (* left brace *)
            match starts_with 125 (skip_ws t) with          (* right brace *)
            | Some r => inr (JObject [], r)
            | None => parse_members fuel' [] (skip_ws t)
            end
          else if c =? 91 then                              (* left bracket *)
            match starts_with 93 (skip_ws t) with           (* right bracket *)
            | Some r => inr (JArray [], r)
            | None => parse_elements fuel' [] (skip_ws t)
            end
          else if c =? 34 then                              (* quote *)
            match parse_string_chars t with
            | inr (cs, r) => inr (JString cs, r)
            | inl err => inl err
            end
          else if is_digit c || (c =? 45) then
            match parse_number (c :: t) with
            | inr (x, r) => inr (JNumber x, r)
            | inl err => inl err
            end
          else if c =? 116 then expect_literal (js "true") (JBool true) (c :: t)
          else if c =? 102 then expect_literal (js "false") (JBool false) (c :: t)
          else if c =? 110 then expect_literal (js "null") JNull (c :: t)
          else inl (UnexpectedToken (c :: t))
      end
  end

with parse_elements (fuel : nat) (acc : list Value) (s : JsString)
    : ParseError + (Value * JsString) :=
  match fuel with
  | O => inl FuelExhausted
  | S fuel' =>
      match parse_value fuel' s with
      | inl err => inl err
      | inr (v, r) =>
          match starts_with 44 (skip_ws r) with             (* comma *)
          | Some r' => parse_elements fuel' (acc ++ [v]) r'
          | None =>
              match starts_with 93 (skip_ws r) with
              | Some r' => inr (JArray (acc ++ [v]), r')
              | None => inl (unexpected (skip_ws r))
              end
          end
      end
  end

with parse_members (fuel : nat) (acc : list (JsString * Value)) (s : JsString)
    : ParseError + (Value * JsString) :=
  match fuel with
  | O => inl FuelExhausted
  | S fuel' =>
      match starts_with 34 (skip_ws s) with
      | None => inl (unexpected (skip_ws s))
      | Some t =>
          match parse_string_chars t with
          | inl err => inl err
          | inr (k, r) =>
              match starts_with 58 (skip_ws r) with         (* colon *)
              | None => inl (unexpected (skip_ws r))
              | Some r1 =>
                  match parse_value fuel' r1 with
                  | inl err => inl err
                  | inr (v, r2) =>
                      match starts_with 44 (skip_ws r2) with
                      | Some r3 => parse_members fuel' (obj_set k v acc) (skip_ws r3)
                      | None =>
                          match starts_with 125 (skip_ws r2) with
                          | Some r3 => inr (JObject (obj_set k v acc), r3)
                          | None => inl (unexpected (skip_ws r2))
                          end
                      end
                  end
              end
          end
      end
  end.

(** [JSON.parse(text)], without a reviver. *)
Definition JSON_parse (text : JsString) : ParseError + Value :=
  match parse_value (2 * List.length text + 2) text with
  | inl err => inl err
  | inr (v, r) =>
      match skip_ws r with
      | [] => inr v
      | r' => inl (UnexpectedToken r')
      end
  end.

(** The message of the [SyntaxError], as V8 words it. *)
Definition error_message (text : JsString) (err : ParseError) : JsString :=
  match err with
  | UnexpectedEnd | UnexpectedToken [] => js "Unexpected end of JSON input"
  | UnexpectedToken (c :: rest) =>
      let position :=
        decimal_digits (Z.of_nat (List.length text - List.length (c :: rest))) in
      if is_digit c || (c =? 45) then
        js "Unexpected number in JSON at position " ++ position
      else if c =? 34 then
        js "Unexpected string in JSON at position " ++ position
      else
        js "Unexpected token " ++ [c] ++ js " in JSON at position " ++ position
  | FuelExhausted => []
  end.

(** ** JSON.stringify (ECMA-262 25.5.2) *)

Definition hex_digit (d : N) : N := if d <? 10 then 48 + d else 87 + d.

Definition unicode_escape (c : N) : JsString :=
  js "\u" ++ [hex_digit (c / 4096 mod 16); hex_digit (c / 256 mod 16);
              hex_digit (c / 16 mod 16); hex_digit (c mod 16)].

Definition is_high_surrogate (c : N) : bool := (55296 <=? c) && (c <=? 56319).
Definition is_low_surrogate (c : N) : bool := (56320 <=? c) && (c <=? 57343).

(** QuoteJSONString, between the quotes. *)
Fixpoint quote_chars (s : JsString) : JsString :=
  match s with
  | [] => []
  | c :: t =>
      if c =? 8 then js "\b" ++ quote_chars t
      else if c =? 9 then js "\t" ++ quote_chars t
      else if c =? 10 then js "\n" ++ quote_chars t
      else if c =? 12 then js "\f" ++ quote_chars t
      else if c =? 13 then js "\r" ++ quote_chars t
      else if c =? 34 then 92 :: 34 :: quote_chars t
      else if c =? 92 then 92 :: 92 :: quote_chars t
      else if c <? 32 then unicode_escape c ++ quote_chars t
      else if is_high_surrogate c then
        match t with
        | d :: t' => if is_low_surrogate d then c :: d :: quote_chars t'
                     else unicode_escape c ++ quote_chars t
        | [] => unicode_escape c
        end
      else if is_low_surrogate c then unicode_escape c ++ quote_chars t
      else c :: quote_chars t
  end.

Definition QuoteJSONString (s : JsString) : JsString :=
  34 :: quote_chars s ++ [34].

Fixpoint join (sep : JsString) (parts : list JsString) : JsString :=
  match parts with
  | [] => []
  | [p] => p
  | p :: rest => p ++ sep ++ join sep rest
  end.

(** SerializeJSONProperty for a value [JSON.parse] can return. *)
Fixpoint serialize (gap indent : JsString) (v : Value) : JsString :=
  match v with
  | JNull => js "null"
  | JBool true => js "true"
  | JBool false => js "false"
  | JNumber x => if is_finite x then Number_toString x else js "null"
  | JString s => QuoteJSONString s
  | JArray items =>
      match items with
      | [] => js "[]"
      | _ :: _ =>
          let inner := indent ++ gap in
          let parts := map (serialize gap inner) items in
          match gap with
          | [] => js "[" ++ join (js ",") parts ++ js "]"
          | _ :: _ =>
              js "[" ++ [10] ++ inner ++ join (js "," ++ [10] ++ inner) parts
              ++ [10] ++ indent ++ js "]"
          end
      end
  | JObject props =>
      match props with
      | [] => js "{}"
      | _ :: _ =>
          let inner := indent ++ gap in
          let parts :=
            map (fun kv : JsString * Value =>
                   let (k, x) := kv in
                   QuoteJSONString k ++ js ":"
                   ++ match gap with [] => [] | _ :: _ => js " " end
                   ++ serialize gap inner x)
                props in
          match gap with
          | [] => js "{" ++ join (js ",") parts ++ js "}"
          | _ :: _ =>
              js "{" ++ [10] ++ inner ++ join (js "," ++ [10] ++ inner) parts
              ++ [10] ++ indent ++ js "}"
          end
      end
  end.

(** [JSON.stringify(value, null, space)] for a string [space]: the gap is
    its first ten code units. *)
Definition JSON_stringify (v : Value) (space : JsString) : JsString :=
  serialize (firstn 10 space) [] v.

(** ** The limits of the engine *)

(** The calls of [json-formatter.ts] that an engine can cut short by
    throwing a [RangeError]: a recursion too deep for the call stack, or
    a string longer than the engine allows. *)
Inductive Call : Type :=
  | call_repeat (s : JsString) (count : Z)             (* [s.repeat(count)] *)
  | call_stringify (value : Value) (space : JsString)  (* [JSON.stringify(value, null, space)] *)
  | call_sortObjectKeys (obj : Value)                  (* [sortObjectKeys(obj)] *)
  | call_traverse (obj : Value)                        (* [traverse(obj, 0)] *)
  | call_toYamlLike (obj : Value)                      (* [toYamlLike(obj, 0)] *)
  | call_template (text : JsString).                   (* a template literal around [text] *)

(** What the engine decides: [exhausted c = Some msg] where the call [c]
    throws a [RangeError] with the message [msg].  The answer depends on
    the call only.  Every theorem holds for every engine. *)
Class Engine : Type := {
  exhausted : Call -> option JsString
}.

(** [String.prototype.repeat]: a [RangeError] for a negative count, and
    where the engine refuses the length of the result. *)
Definition String_repeat `{Engine} (s : JsString) (count : Z) : JsString + JsString :=
  if (count <? 0)%Z
  then inl (js "Invalid count value: " ++ js (NilZero.string_of_int (Z.to_int count)))
  else match exhausted (call_repeat s count) with
       | Some range_error => inl range_error
       | None => inr (List.concat (repeat s (Z.to_nat count)))
       end.

(** ** json-formatter.ts *)

Inductive IndentChar : Type := space | tab.

Record FormatOptions : Type := {
  indentSize : Z;                (* 2, 4, or tab *)
  indentChar : IndentChar;
  sortKeys : bool
}.

Record ValidationError : Type := {
  message : JsString;
  line : option nat;
  column : option nat;
  position : option Z
}.

Record ValidationResult : Type := {
  isValid : bool;
  verror : option ValidationError          (* [error?: {...}] *)
}.

Record FormatResult : Type := {
  success : bool;
  output : JsString;
  error : option JsString                  (* [error?: string] *)
}.

Definition DEFAULT_FORMAT_OPTIONS : FormatOptions :=
  {| indentSize := 2; indentChar := space; sortKeys := false |}.

(** [message.match(/at position (\d+)/)] and [parseInt(match[1], 10)]. *)
Fixpoint match_position (msg : JsString) : option Z :=
  match msg with
  | [] => None
  | _ :: t =>
      match strip_prefix (js "at position ") msg with
      | Some r =>
          match fst (span_digits r) with
          | [] => match_position t
          | ds => Some (digits_value ds)
          end
      | None => match_position t
      end
  end.

(** [s.split("\n")] *)
Fixpoint split_lines (s : JsString) : list JsString :=
  match s with
  | [] => [[]]
  | c :: t =>
      if c =? 10 then [] :: split_lines t
      else match split_lines t with
           | l :: ls => (c :: l) :: ls
           | [] => [[c]]
           end
  end.

(** validateJSON (lines 38-71) *)
Definition validateJSON (input : JsString) : ValidationResult :=
  match trim input with
  | [] =>
      {| isValid := false;
         verror := Some {| message := js "Input is empty"; line := None;
                           column := None; position := None |} |}
  | _ :: _ =>
      match JSON_parse input with
      | inr _ => {| isValid := true; verror := None |}
      | inl e =>
          let msg := error_message input e in
          let pos := match_position msg in
          let lines := option_map (fun p => split_lines (firstn (Z.to_nat p) input)) pos in
          {| isValid := false;
             verror := Some {| message := msg;
                               line := option_map (@List.length JsString) lines;
                               column := option_map
                                           (fun ls => S (List.length (last ls [])))
                                           lines;
                               position := pos |} |}
      end
  end.

Fixpoint string_ltb (a b : JsString) : bool :=
  match a, b with
  | _, [] => false
  | [], _ :: _ => true
  | x :: a', y :: b' => (x <? y) || ((x =? y) && string_ltb a' b')
  end.

Fixpoint insert_sorted (k : JsString) (ks : list JsString) : list JsString :=
  match ks with
  | [] => [k]
  | k' :: rest => if string_ltb k k' then k :: ks else k' :: insert_sorted k rest
  end.

(** [Array.prototype.sort()] on strings: by code units. *)
Definition sort_strings (ks : list JsString) : list JsString :=
  fold_right insert_sorted [] ks.

Fixpoint lookup (k : JsString) (props : list (JsString * Value)) : Value :=
  match props with
  | [] => JNull
  | (k', v) :: rest => if string_eqb k k' then v else lookup k rest
  end.

(** sortObjectKeys (lines 177-194) *)
Fixpoint sortObjectKeys (obj : Value) : Value :=
  match obj with
  | JArray items => JArray (map sortObjectKeys items)
  | JObject props =>
      let sorted_values :=
        map (fun kv : JsString * Value => let (k, x) := kv in (k, sortObjectKeys x))
            props in
      let keys := sort_strings (map fst props) in
      JObject (fold_left (fun sorted k => obj_set k (lookup k sorted_values) sorted)
                 keys [])
  | _ => obj
  end.

Definition failure (input : JsString) (msg : option JsString) : FormatResult :=
  {| success := false; output := input; error := msg |}.

(** Lines 90-93 of formatJSON: the value to print, and the indentation. *)
Definition sorted_value `{Engine} (options : FormatOptions) (parsed : Value)
    : JsString + Value :=
  if sortKeys options then
    match exhausted (call_sortObjectKeys parsed) with
    | Some range_error => inl range_error
    | None => inr (sortObjectKeys parsed)
    end
  else inr parsed.

Definition indentation `{Engine} (options : FormatOptions) : JsString + JsString :=
  match indentChar options with
  | tab => inr [9]
  | space => String_repeat (js " ") (indentSize options)
  end.

(** formatJSON (lines 76-109): what the [try] block throws, the
    [SyntaxError] of [JSON.parse] or a [RangeError], is caught and its
    message returned. *)
Definition formatJSON `{Engine} (input : JsString) (options : FormatOptions)
    : FormatResult :=
  let validation := validateJSON input in
  if negb (isValid validation) then
    failure input (option_map message (verror validation))
  else
    match JSON_parse input with
    | inl e => failure input (Some (error_message input e))
    | inr parsed =>
        match sorted_value options parsed with
        | inl range_error => failure input (Some range_error)
        | inr parsed =>
            match indentation options with
            | inl range_error => failure input (Some range_error)
            | inr indent =>
                match exhausted (call_stringify parsed indent) with
                | Some range_error => failure input (Some range_error)
                | None =>
                    {| success := true;
                       output := JSON_stringify parsed indent;
                       error := None |}
                end
            end
        end
    end.

(** minifyJSON (lines 114-140) *)
Definition minifyJSON `{Engine} (input : JsString) : FormatResult :=
  let validation := validateJSON input in
  if negb (isValid validation) then
    failure input (option_map message (verror validation))
  else
    match JSON_parse input with
    | inl e => failure input (Some (error_message input e))
    | inr parsed =>
        match exhausted (call_stringify parsed []) with
        | Some range_error => failure input (Some range_error)
        | None =>
            {| success := true; output := JSON_stringify parsed []; error := None |}
        end
    end.

(** ** Vocabulary of the specification *)

(** An ASCII literal with ['] standing for the double quote. *)
Definition json_text (s : string) : JsString :=
  map (fun c => if c =? 39 then 34 else c) (js s).

(** An engine that refuses a [repeat] beyond the longest string of V8 on
    a 64-bit platform, 2^29 - 24 code units, and nothing else. *)
Definition kMaxLength : Z := 536870888.

Definition v8_strings : Engine :=
  {| exhausted c :=
       match c with
       | call_repeat s count =>
           if (kMaxLength <? Z.of_nat (List.length s) * count)%Z
           then Some (js "Invalid string length")
           else None
       | _ => None
       end |}.

(** A number that prints as a JSON number literal reading back as
    itself.  [Infinity] does not (it is printed as [null]), nor does
    [-0] (printed as [0]); ECMA-262 (6.1.6.1.20, note 1) has every other
    Number read back, which is not proved here: the condition is
    evaluated number by number. *)
Definition number_reads_back (x : Number) : bool :=
  is_finite x
  && match parse_number (Number_toString x) with
     | inr (y, []) => number_eqb y x
     | _ => false
     end.

(** The text is JSON: [JSON.parse] returns a value. *)
Definition valid_json (input : JsString) : Prop :=
  exists v, JSON_parse input = inr v.



Fixpoint numbers_read_back (v : Value) : bool :=
  match v with
  | JNumber x => number_reads_back x
  | JArray items => forallb numbers_read_back items
  | JObject props =>
      forallb (fun kv : JsString * Value => numbers_read_back (snd kv)) props
  | _ => true
  end.

(** What cannot continue a number literal: the end of the text, or a
    character that is no digit, point or exponent mark. *)
Definition number_stop (rest : JsString) : bool :=
  match rest with
  | [] => true
  | c :: _ => negb (is_digit c || (c =? 46) || (c =? 101) || (c =? 69))
  end.

(** The result of a string literal with the character [c] put in front. *)
Definition continue_string (c : N) (res : ParseError + (JsString * JsString))
    : ParseError + (JsString * JsString) :=
  match res with
  | inr (cs, r) => inr (c :: cs, r)
  | inl err => inl err
  end.

(** The enumeration order of an object: [k] may stand before another
    key [k']. *)
Definition key_before (k k' : JsString) : bool :=
  negb (string_eqb k k')
  && match array_index k, array_index k' with
     | Some i, Some j => (i <=? j)%Z
     | Some _, None => true
     | None, Some _ => false
     | None, None => true
     end.

Fixpoint ordered_keys (ks : list JsString) : bool :=
  match ks with
  | [] => true
  | k :: rest => forallb (key_before k) rest && ordered_keys rest
  end.

(** A value whose objects list their properties in enumeration order,
    each key once. *)
Fixpoint canonical (v : Value) : bool :=
  match v with
  | JArray items => forallb canonical items
  | JObject props =>
      ordered_keys (map fst props)
      && forallb (fun kv : JsString * Value => canonical (snd kv)) props
  | _ => true
  end.

(** The object built by setting the properties one after the other. *)
Definition object_of (props acc : list (JsString * Value)) : list (JsString * Value) :=
  fold_left (fun o (kv : JsString * Value) => obj_set (fst kv) (snd kv) o) props acc.

(** Fuel enough to read the text of a value. *)
Fixpoint fuel_of (v : Value) : nat :=
  match v with
  | JArray items => S (fold_right (fun x n => S (Nat.max (fuel_of x) n)) O items)
  | JObject props =>
      S (fold_right (fun (kv : JsString * Value) n => S (Nat.max (fuel_of (snd kv)) n))
           O props)
  | _ => 1%nat
  end.

(** The line break of a pretty-printed array or object: nothing without
    a gap. *)
Definition line_break (gap indent : JsString) : JsString :=
  match gap with
  | [] => []
  | _ :: _ => 10 :: indent
  end.

(** The text of a property. *)
Definition serialize_member (gap inner : JsString) (kv : JsString * Value) : JsString :=
  QuoteJSONString (fst kv) ++ js ":"
  ++ match gap with [] => [] | _ :: _ => js " " end
  ++ serialize gap inner (snd kv).

(** The text of [v] reads back as [v], whatever the gap, the indentation
    and the text behind it. *)
Definition reads_back (v : Value) : Prop :=
  forall (gap indent rest : JsString) (fuel : nat),
    forallb is_ws gap = true -> forallb is_ws indent = true ->
    number_stop rest = true -> (fuel_of v <= fuel)%nat ->
    parse_value fuel (serialize gap indent v ++ rest) = inr (v, rest).

End Json.

(* ================================================================== *)
(** * Part II, continued.  Definitions: the bracket of the search in
      binary64                                                          *)
(* ================================================================== *)

(** The search of [compressPDF] computes its qualities in binary64, where
    Part I computes in exact rationals.  The two take the same branches;
    the values differ by the rounding of each midpoint.  This module
    replays the arithmetic of the bisection in binary64, for whatever
    outcomes the size tests have. *)
Module Binary64.

Import Json.
Open Scope Q_scope.

(** The Number of a decimal literal [m * 10^e] of the source. *)
Definition literal (m e : Z) : Number := number_of_decimal false m e.

Definition add : Number -> Number -> Number := SFadd prec emax.
Definition sub : Number -> Number -> Number := SFsub prec emax.
Definition div : Number -> Number -> Number := SFdiv prec emax.

(** The rational a finite Number stands for. *)
Definition value (x : Number) : Q :=
  match x with
  | S754_finite s m e =>
      let magnitude :=
        if (0 <=? e)%Z then inject_Z (Zpos m * 2 ^ e) else Zpos m # Z.to_pos (2 ^ (- e)) in
      if s then - magnitude else magnitude
  | _ => 0
  end.

(** One iteration of the bisection (lines 234-258) on the bracket
    [(minQuality, maxQuality)]: [fits] is the outcome of the test
    [testBlob.size <= targetBytes]. *)
Definition bisect_attempt (fits : bool) (bracket : Number * Number) : Number * Number :=
  let (minQuality, maxQuality) := bracket in
  let testQuality := div (add minQuality maxQuality) (literal 2 0) in
  if fits then (testQuality, maxQuality) else (minQuality, testQuality).

(** The bracket after the iterations with the given outcomes, from
    [minQuality = 0.1] and [maxQuality = 1.0] (lines 198-199). *)
Definition bisect_loop (outcomes : list bool) : Number * Number :=
  fold_left (fun bracket fits => bisect_attempt fits bracket) outcomes
    (literal 1 (-1), literal 1 0).

(** The width of a bracket, as a rational. *)
Definition width (bracket : Number * Number) : Q :=
  value (snd bracket) - value (fst bracket).

(** 2^-52, the distance from 1.0 to the next Number; [x] is [y] up to
    that distance. *)
Definition epsilon : Q := 1 # 4503599627370496.

Definition near (x y : Q) : Prop := y - epsilon <= x /\ x <= y + epsilon.

(** The width as the specification states it: the span 0.9 divided by
    2^6, be it as a real number or as the engine computes
    [(1.0 - 0.1) / 64]. *)
Definition stated_width (outcomes : list bool) : Prop :=
  width (bisect_loop outcomes) == (1.0 - 0.1) / 2 ^ 6
  \/ sub (snd (bisect_loop outcomes)) (fst (bisect_loop outcomes))
     = div (sub (literal 1 0) (literal 1 (-1))) (literal 64 0).

End Binary64.


(* ================================================================== *)
(** * Part II, continued.  Definitions: the callers and the words of
      the further properties                                            *)
(* ================================================================== *)

Module PdfMore.

Import Pdf.
Open Scope Q_scope.
Open Scope string_scope.

Section Words.

Context {File PdfPage Canvas Blob : Type} {H : Host File PdfPage Canvas Blob}.

(** The reports of [renderPagesToCanvases] (lines 77-82, 88-93 and
    101-106) and of the standard mode (lines 308-313). *)
Definition loading_libraries : CompressionProgress :=
  {| stage := loading; currentPage := 0; totalPages := 0;
     message := "Loading libraries..."; attempt := None |}.

Definition loading_pdf : CompressionProgress :=
  {| stage := loading; currentPage := 0; totalPages := 0;
     message := "Loading PDF..."; attempt := None |}.

Definition rendering_progress (totalPages pageNum : nat) : CompressionProgress :=
  {| stage := rendering; currentPage := pageNum; totalPages := totalPages;
     message := "Rendering page " ++ show_number (num pageNum)
                ++ " of " ++ show_number (num totalPages) ++ "...";
     attempt := None |}.

Definition generating_progress (total : nat) : CompressionProgress :=
  {| stage := generating; currentPage := total; totalPages := total;
     message := "Generating compressed PDF..."; attempt := None |}.

(** The canvas PDF.js renders a page to at [dpi]. *)
Definition renders_to (dpi : Q) (page : PdfPage) (rp : RenderedPage Canvas) : Prop :=
  pdfjs_renderPage page (dpi / 72) = inr (canvas rp, width rp, height rp).

(** The assembler's blobs do not shrink when the quality grows. *)
Definition monotone_sizes (pages : list (RenderedPage Canvas)) : Prop :=
  forall (q q' : Q) (b b' : Blob),
    q <= q' ->
    assemble_result pages q = inr b -> assemble_result pages q' = inr b' ->
    byte_size b <= byte_size b'.

(** [settings.targetSizeMB] is falsy: absent, or zero. *)
Definition no_target (settings : CompressionSettings) : Prop :=
  targetSizeMB settings = None
  \/ exists t, targetSizeMB settings = Some t /\ t == 0.

End Words.

End PdfMore.


Module JsonMore.

Import Json.
Open Scope N_scope.

(** ** Words of the further properties *)

(** The [catch] branch of validateJSON (lines 46-69), for a
    [SyntaxError] with the message [msg]. *)
Definition syntax_error_report (input msg : JsString) : ValidationResult :=
  let position := match_position msg in
  let lines :=
    option_map (fun p => split_lines (firstn (Z.to_nat p) input)) position in
  {| isValid := false;
     verror := Some {| message := msg;
                       line := option_map (@List.length JsString) lines;
                       column := option_map
                                   (fun ls => S (List.length (last ls [])))
                                   lines;
                       position := position |} |}.

(** A character [JSON.stringify] may write with the gap [gap] at the
    indentation [indent]: no control character but the line feed and the
    indentation of a pretty-printed text. *)
Definition output_char (gap indent : JsString) (c : N) : Prop :=
  32 <= c \/ (gap <> [] /\ (c = 10 \/ In c indent \/ In c gap)).

(** No object of the value has the key [__proto__]: an assignment
    [sorted[key] = ...] with that key would reach the setter of
    [Object.prototype] and create no property. *)
Fixpoint no_proto (v : Value) : bool :=
  match v with
  | JArray items => forallb no_proto items
  | JObject props =>
      forallb (fun kv : JsString * Value =>
                 negb (string_eqb (fst kv) (js "__proto__")) && no_proto (snd kv))
        props
  | _ => true
  end.

(** Where [sortKeys] is on, the text has no key [__proto__]. *)
Definition proto_free (options : FormatOptions) (input : JsString) : Prop :=
  sortKeys options = true ->
  forall v, JSON_parse input = inr v -> no_proto v = true.

(** Two values with the same content, whatever the order of the
    properties of their objects. *)
Inductive same_content : Value -> Value -> Prop :=
  | same_value (v : Value) : same_content v v
  | same_array (xs ys : list Value) :
      List.length xs = List.length ys ->
      (forall i, (i < List.length xs)%nat ->
                 same_content (nth i xs JNull) (nth i ys JNull)) ->
      same_content (JArray xs) (JArray ys)
  | same_object (ps qs : list (JsString * Value)) :
      (forall k, has_key k ps = has_key k qs) ->
      (forall k, has_key k ps = true -> same_content (lookup k ps) (lookup k qs)) ->
      same_content (JObject ps) (JObject qs).

(** A key that is no array index: an object lists such keys behind the
    indices, in the order of their creation. *)
Definition plain_key (k : JsString) : bool :=
  match array_index k with
  | Some _ => false
  | None => true
  end.


(** ** getJSONStats (lines 199-245) *)

Record Sizes : Type := {
  original : N;
  minified : N
}.

Record JSONStats : Type := {
  keys : nat;
  values : nat;
  depth : nat;
  size : Sizes
}.

(** [new Blob([s]).size]: the number of bytes of the UTF-8 encoding of
    [s], a surrogate that stands alone being encoded as U+FFFD. *)
Fixpoint Blob_size (s : JsString) : N :=
  match s with
  | [] => 0
  | c :: t =>
      if c <? 128 then 1 + Blob_size t
      else if c <? 2048 then 2 + Blob_size t
      else if is_high_surrogate c then
        match t with
        | d :: t' => if is_low_surrogate d then 4 + Blob_size t' else 3 + Blob_size t
        | [] => 3
        end
      else 3 + Blob_size t
  end.

(** [traverse] (lines 215-228) on the locals [keys], [values] and
    [maxDepth] of [getJSONStats].  The properties of an object are
    visited in the order of its keys. *)
Fixpoint traverse (obj : Value) (depth : nat) (locals : nat * nat * nat)
    : nat * nat * nat :=
  let '(keys, values, maxDepth) := locals in
  let maxDepth := Nat.max maxDepth depth in
  match obj with
  | JArray items =>
      fold_left (fun locals item => traverse item (S depth) locals) items
        (keys, (values + List.length items)%nat, maxDepth)
  | JObject props =>
      fold_left (fun locals (kv : JsString * Value) => traverse (snd kv) (S depth) locals)
        props ((keys + List.length props)%nat, values, maxDepth)
  | _ => (keys, S values, maxDepth)
  end.

(** What [JSON.stringify] or [traverse] throws is caught (line 242). *)
Definition getJSONStats `{Engine} (input : JsString) : option JSONStats :=
  let validation := validateJSON input in
  if negb (isValid validation) then None
  else
    match JSON_parse input with
    | inl _ => None
    | inr parsed =>
        match exhausted (call_stringify parsed []) with
        | Some _ => None
        | None =>
            let minified := JSON_stringify parsed [] in
            match exhausted (call_traverse parsed) with
            | Some _ => None
            | None =>
                let '(keys, values, maxDepth) := traverse parsed 0%nat (0, 0, 0)%nat in
                Some {| keys := keys; values := values; depth := maxDepth;
                        size := {| original := Blob_size input;
                                   minified := Blob_size minified |} |}
            end
        end
    end.

(** What the counters count: the properties of all objects; the elements
    of all arrays; the values that are no array and no object; the
    number of arrays and objects around the innermost value. *)
Fixpoint properties (v : Value) : nat :=
  match v with
  | JArray items => list_sum (map properties items)
  | JObject props =>
      List.length props
      + list_sum (map (fun kv : JsString * Value => properties (snd kv)) props)
  | _ => 0
  end.

Fixpoint elements (v : Value) : nat :=
  match v with
  | JArray items => List.length items + list_sum (map elements items)
  | JObject props =>
      list_sum (map (fun kv : JsString * Value => elements (snd kv)) props)
  | _ => 0
  end.

Fixpoint scalars (v : Value) : nat :=
  match v with
  | JArray items => list_sum (map scalars items)
  | JObject props =>
      list_sum (map (fun kv : JsString * Value => scalars (snd kv)) props)
  | _ => 1
  end.

Fixpoint nesting (v : Value) : nat :=
  match v with
  | JArray items => list_max (map (fun x => S (nesting x)) items)
  | JObject props =>
      list_max (map (fun kv : JsString * Value => S (nesting (snd kv))) props)
  | _ => 0
  end.

(** ** convertToFormat (lines 250-278) and toYamlLike (lines 280-308) *)

Inductive Format : Type := typescript | yaml_like.

Fixpoint toYamlLike (obj : Value) (indent : nat) : JsString :=
  let spaces := List.concat (repeat (js "  ") indent) in
  match obj with
  | JNull => js "null"
  | JBool true => js "true"
  | JBool false => js "false"
  | JNumber x => Number_toString x
  | JString s => [34] ++ s ++ [34]
  | JArray [] => js "[]"
  | JArray items =>
      join [10]
        (map (fun item => spaces ++ js "- " ++ trimStart (toYamlLike item (S indent)))
             items)
  | JObject [] => js "{}"
  | JObject entries =>
      join [10]
        (map (fun kv : JsString * Value =>
                let valueStr := toYamlLike (snd kv) (S indent) in
                match snd kv with
                | JArray _ | JObject _ => spaces ++ fst kv ++ js ":" ++ [10] ++ valueStr
                | _ => spaces ++ fst kv ++ js ": " ++ valueStr
                end)
             entries)
  end.

(** [format] has one of its two values, so that line 274 is not reached;
    what the [try] block throws is caught (lines 275-277). *)
Definition convertToFormat `{Engine} (input : JsString) (format : Format)
    : FormatResult :=
  let validation := validateJSON input in
  if negb (isValid validation) then
    failure input (option_map message (verror validation))
  else
    match JSON_parse input with
    | inl e => failure input (Some (error_message input e))
    | inr parsed =>
        match format with
        | typescript =>
            match exhausted (call_stringify parsed (js "  ")) with
            | Some range_error => failure input (Some range_error)
            | None =>
                let text := JSON_stringify parsed (js "  ") in
                match exhausted (call_template text) with
                | Some range_error => failure input (Some range_error)
                | None =>
                    {| success := true;
                       output := js "const data = " ++ text ++ js " as const;";
                       error := None |}
                end
            end
        | yaml_like =>
            match exhausted (call_toYamlLike parsed) with
            | Some range_error => failure input (Some range_error)
            | None =>
                {| success := true; output := toYamlLike parsed 0; error := None |}
            end
        end
    end.

End JsonMore.

(* ================================================================== *)
(** * Part II, continued.  Definitions: the page of the PDF compressor
      (src/app/tools/pdf-compressor/page.tsx)                           *)
(* ================================================================== *)

Module Page.

Import Pdf.

(** ** parseInt (ECMA-262 19.2.5), with no radix *)

(** The digits of [s] in the radix [R], up to the first character that
    is none. *)
Fixpoint radix_digits (R : N) (s : Json.JsString) : list N :=
  match s with
  | c :: t =>
      match Json.hex_value c with
      | Some d => if (d <? R)%N then d :: radix_digits R t else []
      | None => []
      end
  | [] => []
  end.

Definition radix_value (R : N) (digits : list N) : Z :=
  fold_left (fun n d => n * Z.of_N R + Z.of_N d)%Z digits 0%Z.

(** The integer [parseInt] reads, [None] where it answers [NaN].  Its
    result is the Number for that integer: the integer itself up to
    2^53 in absolute value, and beyond that a Number of the same sign
    and of absolute value 2^53 at least. *)
Definition parseInt (string : Json.JsString) : option Z :=
  let s := Json.trimStart string in
  let '(sign, s) := match s with
                    | 45%N :: t => ((-1)%Z, t)
                    | 43%N :: t => (1%Z, t)
                    | _ => (1%Z, s)
                    end in
  let '(R, s) := match s with
                 | 48%N :: x :: t =>
                     if (x =? 120)%N || (x =? 88)%N then (16%N, t) else (10%N, s)
                 | _ => (10%N, s)
                 end in
  match radix_digits R s with
  | [] => None
  | digits => Some (sign * radix_value R digits)%Z
  end.

(** ** The state of the page (lines 39-47) *)

Inductive ProcessingState : Type :=
  | idle | processing | completed | failed.

(** The string a [state] value is at run time. *)
Definition state_name (s : ProcessingState) : string :=
  match s with
  | idle => "idle"
  | processing => "processing"
  | completed => "complete"
  | failed => "error"
  end.

Inductive CompressionMode : Type := by_quality | by_target.

Definition mode_name (m : CompressionMode) : string :=
  match m with
  | by_quality => "quality"
  | by_target => "target"
  end.

Definition DPI_VALUES : list Q := [72; 96; 144; 150; 200; 300]%Q.

Section State.

Variables File Blob : Type.

Record PageState : Type := {
  file : option File;
  mode : CompressionMode;
  settings : CompressionSettings;
  targetSize : Z;
  dpiIndex : nat;
  state : ProcessingState;
  progress : option CompressionProgress;
  result : option (CompressionResult Blob);
  error : option string
}.

(** The state of the page when it is first shown. *)
Definition initial_page : PageState :=
  {| file := None; mode := by_quality; settings := DEFAULT_SETTINGS;
     targetSize := 50; dpiIndex := 2; state := idle;
     progress := None; result := None; error := None |}.

End State.

Section Handlers.

Context {File PdfPage Canvas Blob : Type} {H : Host File PdfPage Canvas Blob}.

(** [DPI_VALUES[dpiIndex]] *)
Definition currentDpi (st : PageState File Blob) : option Q :=
  nth_error DPI_VALUES (dpiIndex st).

(** handleTargetSizeInput (lines 73-76) with the text of the input field:
    [parseInt(..) || 1] is 1 for [NaN] and for zero, and
    [Math.max(1, Math.min(500, value))] is the same for the Number as for
    the integer it stands for. *)
Definition handleTargetSizeInput (text : Json.JsString) (st : PageState File Blob)
    : PageState File Blob :=
  let value := match parseInt text with
               | None | Some 0%Z => 1%Z
               | Some n => n
               end in
  {| file := file st; mode := mode st; settings := settings st;
     targetSize := Z.max 1 (Z.min 500 value);
     dpiIndex := dpiIndex st; state := state st; progress := progress st;
     result := result st; error := error st |}.

(** The settings [handleCompress] hands to [compressPDF] (lines 86-90);
    none where [DPI_VALUES[dpiIndex]] is [undefined], which the slider of
    the page (from 0 to 5) does not produce. *)
Definition compressionSettings (st : PageState File Blob)
    : option CompressionSettings :=
  match currentDpi st with
  | Some d =>
      Some {| quality := quality (settings st);
              dpi := d;
              targetSizeMB := match mode st with
                              | by_target => Some (inject_Z (targetSize st))
                              | by_quality => None
                              end |}
  | None => None
  end.

(** [setProgress] as [onProgress]: the page shows the last report. *)
Definition shown_progress (before : option CompressionProgress) (l : list (Event Blob))
    : option CompressionProgress :=
  fold_left (fun shown e => match e with
                            | EvProgress p => Some p
                            | _ => shown
                            end) l before.

(** [err.message] of what [compressPDF] throws, an [Error] in each case. *)
Definition error_message (e : Error) : string :=
  match e with
  | TypeError msg => msg
  | HostError msg => msg
  end.

(** handleCompress (lines 78-99): the state of the page when the handler
    has run to its end.  No state where the settings are none, or where
    the model of [compressPDF] is cut short. *)
Definition handleCompress (st : PageState File Blob) : option (PageState File Blob) :=
  match file st with
  | None => Some st
  | Some f =>
      match compressionSettings st with
      | None => None
      | Some compressionSettings =>
          match compressPDF f compressionSettings with
          | (inr compressionResult, l) =>
              Some {| file := file st; mode := mode st; settings := settings st;
                      targetSize := targetSize st; dpiIndex := dpiIndex st;
                      state := completed;
                      progress := shown_progress (progress st) l;
                      result := Some compressionResult;
                      error := None |}
          | (inl (Thrown err), l) =>
              Some {| file := file st; mode := mode st; settings := settings st;
                      targetSize := targetSize st; dpiIndex := dpiIndex st;
                      state := failed;
                      progress := shown_progress (progress st) l;
                      result := None;
                      error := Some (error_message err) |}
          | (inl OutOfFuel, _) => None
          end
      end
  end.

End Handlers.

End Page.

(* ================================================================== *)
(** * Part III.  Properties of the PDF target-size search               *)
(* ================================================================== *)

From Stdlib Require Import Lqa.

Module PdfTheory.

Import Pdf.
Open Scope Q_scope.
Open Scope pdf_scope.

Section Loops.

Context {File PdfPage Canvas Blob : Type} {H : Host File PdfPage Canvas Blob}.

(** ** The monad *)

Lemma bind_inr {A B} (m : M Blob A) (k : A -> M Blob B) (b : B) (l : list (Event Blob)) :
  bind m k = (inr b, l) ->
  exists a l1 l2, m = (inr a, l1) /\ k a = (inr b, l2) /\ l = (l1 ++ l2)%list.
Proof.
  unfold bind. destruct m as [[e | a] l1]; [discriminate |].
  destruct (k a) as [r l2] eqn:Hk. intros Heq. inversion Heq; subst.
  exists a, l1, l2. auto.
Qed.

Lemma bind_emit {B} (e : Event Blob) (k : unit -> M Blob B) :
  bind (emit e) k = (fst (k tt), e :: snd (k tt)).
Proof. unfold bind, emit. destruct (k tt); reflexivity. Qed.

Lemma assembled_app (l1 l2 : list (Event Blob)) :
  assembled (l1 ++ l2) = (assembled l1 ++ assembled l2)%list.
Proof. apply flat_map_app. Qed.

Lemma states_of_app (l1 l2 : list (Event Blob)) :
  states_of (l1 ++ l2) = (states_of l1 ++ states_of l2)%list.
Proof. apply flat_map_app. Qed.

Lemma progress_of_app (l1 l2 : list (Event Blob)) :
  progress_of (l1 ++ l2) = (progress_of l1 ++ progress_of l2)%list.
Proof. apply flat_map_app. Qed.

Lemma observable_app (l1 l2 : list (Event Blob)) :
  observable (l1 ++ l2) = (observable l1 ++ observable l2)%list.
Proof. apply filter_app. Qed.

(** ** One call of the assembler *)

Lemma generate_eq (pages : list (RenderedPage Canvas)) (q : Q) :
  generatePDFFromCanvases pages q = (assemble_result pages q, [EvAssemble q]).
Proof.
  unfold assemble_result, generatePDFFromCanvases.
  rewrite bind_emit. cbn [fst snd].
  unfold bind, lift, throw, ret.
  destruct (import_module "jspdf") as [e | []]; [reflexivity |].
  destruct pages as [| p ps]; [reflexivity |].
  destruct (jsPDF_output _ q); reflexivity.
Qed.

Lemma assemble_not_cut (pages : list (RenderedPage Canvas)) (q : Q) :
  assemble_result pages q <> inl OutOfFuel.
Proof.
  unfold assemble_result, generatePDFFromCanvases. rewrite bind_emit. cbn [fst].
  unfold bind, lift, throw, ret.
  destruct (import_module "jspdf") as [e | []]; [discriminate |].
  destruct pages as [| p ps]; [discriminate |].
  destruct (jsPDF_output _ q); discriminate.
Qed.

Lemma assemble_nonempty (pages : list (RenderedPage Canvas)) (q : Q) (b : Blob) :
  assemble_result pages q = inr b -> pages <> [].
Proof.
  unfold assemble_result, generatePDFFromCanvases. rewrite bind_emit. cbn [fst].
  unfold bind, lift, throw, ret.
  destruct (import_module "jspdf") as [e | []]; [discriminate |].
  destruct pages; [discriminate | intros _; discriminate].
Qed.

Variable pages : list (RenderedPage Canvas).
Variable total : nat.
Variable targetBytes : Q.

(** ** The two loop bodies *)

Lemma bisect_attempt_eq (a : nat) (s : SearchState Blob) :
  bisect_attempt pages total targetBytes a s =
  match assemble_result pages (bisect_mid s) with
  | inl e => (inl e, [EvProgress (bisect_progress total a (bisect_mid s));
                      EvYield; EvAssemble (bisect_mid s)])
  | inr b => let s' := bisect_update targetBytes s (bisect_mid s) b in
             (inr s', [EvProgress (bisect_progress total a (bisect_mid s));
                       EvYield; EvAssemble (bisect_mid s); EvState s'])
  end.
Proof.
  unfold bisect_attempt, onProgress, yield, snapshot. fold (bisect_mid s).
  rewrite !bind_emit. rewrite generate_eq. cbn.
  destruct (assemble_result pages (bisect_mid s)); reflexivity.
Qed.

Lemma refine_pass_eq (s : SearchState Blob) :
  refine_pass pages total targetBytes s =
  match assemble_result pages (refine_mid s) with
  | inl e => (inl e, [EvProgress (refine_progress total (refine_mid s));
                      EvYield; EvAssemble (refine_mid s)])
  | inr b => let s' := refine_update targetBytes s (refine_mid s) b in
             (inr s', [EvProgress (refine_progress total (refine_mid s));
                       EvYield; EvAssemble (refine_mid s); EvState s'])
  end.
Proof.
  unfold refine_pass, onProgress, yield, snapshot. fold (refine_mid s).
  rewrite !bind_emit. rewrite generate_eq. cbn.
  destruct (assemble_result pages (refine_mid s)); reflexivity.
Qed.

Lemma bisect_loop_S (n a : nat) (s : SearchState Blob) :
  bisect_loop pages total targetBytes (S n) a s =
  match assemble_result pages (bisect_mid s) with
  | inl e => (inl e, [EvProgress (bisect_progress total a (bisect_mid s));
                      EvYield; EvAssemble (bisect_mid s)])
  | inr b =>
      let s' := bisect_update targetBytes s (bisect_mid s) b in
      let (r, l) := bisect_loop pages total targetBytes n (S a) s' in
      (r, EvProgress (bisect_progress total a (bisect_mid s))
            :: EvYield :: EvAssemble (bisect_mid s) :: EvState s' :: l)
  end.
Proof.
  cbn [bisect_loop]. rewrite bisect_attempt_eq.
  destruct (assemble_result pages (bisect_mid s)); [reflexivity |].
  cbn. destruct (bisect_loop _ _ _ _ _ _); reflexivity.
Qed.

Lemma refine_loop_S (fuel : nat) (s : SearchState Blob) :
  refine_continue s = true ->
  refine_loop pages total targetBytes (S fuel) s =
  match assemble_result pages (refine_mid s) with
  | inl e => (inl e, [EvProgress (refine_progress total (refine_mid s));
                      EvYield; EvAssemble (refine_mid s)])
  | inr b =>
      let s' := refine_update targetBytes s (refine_mid s) b in
      let (r, l) := refine_loop pages total targetBytes fuel s' in
      (r, EvProgress (refine_progress total (refine_mid s))
            :: EvYield :: EvAssemble (refine_mid s) :: EvState s' :: l)
  end.
Proof.
  intros Hc. cbn [refine_loop]. rewrite Hc, refine_pass_eq.
  destruct (assemble_result pages (refine_mid s)); [reflexivity |].
  cbn. destruct (refine_loop _ _ _ _ _); reflexivity.
Qed.

Lemma refine_loop_stop (fuel : nat) (s : SearchState Blob) :
  refine_continue s = false ->
  refine_loop pages total targetBytes fuel s = (inr s, []).
Proof. intros Hc. destruct fuel; cbn [refine_loop]; rewrite Hc; reflexivity. Qed.

(** ** Candidates that fit *)

Lemma bisect_update_fits (s : SearchState Blob) (q : Q) (b : Blob) :
  best_fits targetBytes s -> best_fits targetBytes (bisect_update targetBytes s q b).
Proof.
  unfold best_fits, bisect_update. intros Hs.
  destruct (fits b targetBytes) eqn:Hb; cbn; assumption.
Qed.

Lemma refine_update_fits (s : SearchState Blob) (q : Q) (b : Blob) :
  best_fits targetBytes s -> best_fits targetBytes (refine_update targetBytes s q b).
Proof.
  unfold best_fits, refine_update. intros Hs.
  destruct (fits b targetBytes) eqn:Hb; cbn; assumption.
Qed.

Lemma bisect_loop_fits (n a : nat) (s s' : SearchState Blob) (l : list (Event Blob)) :
  bisect_loop pages total targetBytes n a s = (inr s', l) ->
  best_fits targetBytes s -> best_fits targetBytes s'.
Proof.
  revert a s l. induction n as [| n IH]; intros a s l Hrun Hs.
  - cbn in Hrun. inversion Hrun; subst. assumption.
  - rewrite bisect_loop_S in Hrun.
    destruct (assemble_result pages (bisect_mid s)) as [e | b]; [discriminate |].
    cbn zeta in Hrun.
    destruct (bisect_loop pages total targetBytes n (S a) _) as [r l'] eqn:Hrec.
    inversion Hrun; subst.
    eapply IH; [exact Hrec |]. apply bisect_update_fits, Hs.
Qed.

Lemma refine_loop_fits (fuel : nat) (s s' : SearchState Blob) (l : list (Event Blob)) :
  refine_loop pages total targetBytes fuel s = (inr s', l) ->
  best_fits targetBytes s -> best_fits targetBytes s'.
Proof.
  revert s l. induction fuel as [| fuel IH]; intros s l Hrun Hs.
  - cbn in Hrun. destruct (refine_continue s); [discriminate |].
    inversion Hrun; subst. assumption.
  - destruct (refine_continue s) eqn:Hc.
    + rewrite (refine_loop_S _ _ Hc) in Hrun.
      destruct (assemble_result pages (refine_mid s)) as [e | b]; [discriminate |].
      cbn zeta in Hrun.
      destruct (refine_loop pages total targetBytes fuel _) as [r l'] eqn:Hrec.
      inversion Hrun; subst.
      eapply IH; [exact Hrec |]. apply refine_update_fits, Hs.
    + rewrite (refine_loop_stop _ _ Hc) in Hrun. inversion Hrun; subst. assumption.
Qed.

(** ** The number of assembler calls of each loop *)

Lemma bisect_loop_calls (n a : nat) (s : SearchState Blob) :
  (List.length (assembled (snd (bisect_loop pages total targetBytes n a s))) <= n)%nat.
Proof.
  revert a s. induction n as [| n IH]; intros a s.
  - cbn. lia.
  - rewrite bisect_loop_S.
    destruct (assemble_result pages (bisect_mid s)) as [e | b]; [cbn; lia |].
    cbn zeta. specialize (IH (S a) (bisect_update targetBytes s (bisect_mid s) b)).
    destruct (bisect_loop pages total targetBytes n (S a) _) as [r l'].
    cbn in *. lia.
Qed.

Lemma refine_update_passes (s : SearchState Blob) (q : Q) (b : Blob) :
  refinementPasses (refine_update targetBytes s q b) = S (refinementPasses s).
Proof. unfold refine_update. destruct (fits b targetBytes); reflexivity. Qed.

Lemma refine_continue_passes (s : SearchState Blob) :
  refine_continue s = true -> (refinementPasses s < maxRefinementPasses)%nat.
Proof.
  unfold refine_continue. destruct (bestBlob s); [| discriminate].
  intros Hc. apply andb_prop in Hc. apply Nat.ltb_lt. tauto.
Qed.

Lemma refine_loop_calls (fuel : nat) (s : SearchState Blob) :
  (refinementPasses s <= maxRefinementPasses)%nat ->
  (List.length (assembled (snd (refine_loop pages total targetBytes fuel s)))
   + refinementPasses s <= maxRefinementPasses)%nat.
Proof.
  revert s. induction fuel as [| fuel IH]; intros s Hle.
  - cbn [refine_loop]. destruct (refine_continue s); cbn; lia.
  - destruct (refine_continue s) eqn:Hc.
    + rewrite (refine_loop_S _ _ Hc).
      pose proof (refine_continue_passes _ Hc) as Hlt.
      destruct (assemble_result pages (refine_mid s)) as [e | b];
        [cbn; lia |].
      cbn zeta.
      specialize (IH (refine_update targetBytes s (refine_mid s) b)).
      rewrite refine_update_passes in IH.
      destruct (refine_loop pages total targetBytes fuel _) as [r l'].
      cbn in *. lia.
    + rewrite (refine_loop_stop _ _ Hc). cbn. lia.
Qed.

(** The fuel the search gives its [while] loop is enough. *)
Lemma refine_loop_fuel (fuel : nat) (s : SearchState Blob) (l : list (Event Blob)) :
  (maxRefinementPasses <= fuel + refinementPasses s)%nat ->
  refine_loop pages total targetBytes fuel s <> (inl OutOfFuel, l).
Proof.
  revert s l. induction fuel as [| fuel IH]; intros s l Hfuel.
  - cbn. destruct (refine_continue s) eqn:Hc; [| discriminate].
    apply refine_continue_passes in Hc. lia.
  - destruct (refine_continue s) eqn:Hc.
    + rewrite (refine_loop_S _ _ Hc).
      destruct (assemble_result pages (refine_mid s)) as [e | b] eqn:Ha.
      * intros Heq. inversion Heq; subst. eapply assemble_not_cut; eassumption.
      * cbn zeta.
        specialize (IH (refine_update targetBytes s (refine_mid s) b)).
        rewrite refine_update_passes in IH.
        destruct (refine_loop pages total targetBytes fuel _) as [r l'] eqn:Hrec.
        intros Heq. inversion Heq; subst. eapply IH; [lia | reflexivity].
    + rewrite (refine_loop_stop _ _ Hc). discriminate.
Qed.

(** ** Arithmetic of the bracket *)

Lemma fits_iff (b : Blob) (tb : Q) : fits b tb = true <-> byte_size b <= tb.
Proof. unfold fits, byte_size. apply Qle_bool_iff. Qed.

Lemma fits_false_iff (b : Blob) (tb : Q) : fits b tb = false <-> ~ byte_size b <= tb.
Proof.
  rewrite <- fits_iff. destruct (fits b tb); split; intros Hf.
  - discriminate.
  - exfalso. apply Hf. reflexivity.
  - discriminate.
  - reflexivity.
Qed.

Lemma Qlt_bool_iff (x y : Q) : Qlt_bool x y = true <-> x < y.
Proof.
  unfold Qlt_bool. rewrite negb_true_iff. split.
  - intros Hle. apply Qnot_le_lt. intros Hyx.
    apply Qle_bool_iff in Hyx. congruence.
  - intros Hlt. destruct (Qle_bool y x) eqn:Hyx; [| reflexivity].
    apply Qle_bool_iff in Hyx. exfalso. exact (Qlt_not_le _ _ Hlt Hyx).
Qed.

Ltac qarith :=
  unfold bisect_mid, refine_mid, Qdiv in *; change (/ 2) with (1 # 2) in *; lra.

Lemma bisect_step_width (s s' : SearchState Blob) :
  bisect_step pages targetBytes s s' ->
  maxQuality s' - minQuality s' == (maxQuality s - minQuality s) / 2.
Proof.
  intros (b & _ & [(_ & _ & _ & Hmin & Hmax) | (_ & Hmax & Hmin & _ & _)]);
    rewrite Hmin, Hmax; qarith.
Qed.

Lemma refine_step_gap (s s' : SearchState Blob) :
  refine_step pages targetBytes s s' ->
  maxQuality s' - bestQuality s' == (maxQuality s - bestQuality s) / 2.
Proof.
  intros (_ & _ & _ & _ & _ & b & _ & [(_ & _ & Hbest & Hmax) | (_ & Hmax & _ & Hbest)]);
    rewrite Hbest, Hmax; qarith.
Qed.

(** ** Every iteration is a step of the specification *)

Lemma bisect_update_step (s : SearchState Blob) (b : Blob) :
  assemble_result pages (bisect_mid s) = inr b ->
  bisect_step pages targetBytes s (bisect_update targetBytes s (bisect_mid s) b).
Proof.
  intros Hb. exists b. split; [exact Hb |]. unfold bisect_update.
  destruct (fits b targetBytes) eqn:Hf; cbn.
  - left. apply fits_iff in Hf. auto.
  - right. apply fits_false_iff in Hf. auto.
Qed.

Lemma refine_continue_true (s : SearchState Blob) :
  refine_continue s = true ->
  bestBlob s <> None /\ 0.005 < maxQuality s - bestQuality s
  /\ (refinementPasses s < 4)%nat.
Proof.
  unfold refine_continue. destruct (bestBlob s); [| discriminate].
  intros Hc. apply andb_prop in Hc. destruct Hc as [Hgap Hn].
  apply Qlt_bool_iff in Hgap. apply Nat.ltb_lt in Hn.
  repeat split; [discriminate | lra | exact Hn].
Qed.

Lemma refine_continue_false (s : SearchState Blob) :
  refine_continue s = false ->
  bestBlob s = None \/ maxQuality s - bestQuality s <= 0.005
  \/ (4 <= refinementPasses s)%nat.
Proof.
  unfold refine_continue. destruct (bestBlob s); [| auto].
  intros Hc. apply andb_false_iff in Hc. destruct Hc as [Hgap | Hn].
  - right; left. destruct (Qlt_le_dec 0.005 (maxQuality s - bestQuality s)) as [Hlt | Hle];
      [| exact Hle].
    assert (Hb : Qlt_bool (bestQuality s) (maxQuality s - 0.005) = true)
      by (apply Qlt_bool_iff; lra).
    congruence.
  - right; right. apply Nat.ltb_ge in Hn. exact Hn.
Qed.

Lemma refine_update_step (s : SearchState Blob) (b : Blob) :
  refine_continue s = true ->
  assemble_result pages (refine_mid s) = inr b ->
  refine_step pages targetBytes s (refine_update targetBytes s (refine_mid s) b).
Proof.
  intros Hc Hb. destruct (refine_continue_true _ Hc) as (Hbest & Hgap & Hn).
  unfold refine_step. rewrite refine_update_passes.
  repeat (split; [first [assumption | reflexivity
                        | unfold refine_update; destruct (fits b targetBytes); reflexivity] |]).
  exists b. split; [exact Hb |]. unfold refine_update.
  destruct (fits b targetBytes) eqn:Hf; cbn.
  - left. apply fits_iff in Hf. auto.
  - right. apply fits_false_iff in Hf. auto.
Qed.

Lemma last_cons {A} (x d : A) (l : list A) : last (x :: l) d = last l x.
Proof.
  revert x d. induction l as [| y l IH]; intros x d; [reflexivity |].
  change (last (x :: y :: l) d) with (last (y :: l) d).
  rewrite (IH y d). symmetry. apply IH.
Qed.

Lemma chain_cons {A} (R : A -> A -> Prop) (a b : A) (l : list A) :
  R a b -> chain R (b :: l) -> chain R (a :: b :: l).
Proof. intros Hab Hl. split; assumption. Qed.

Lemma bisect_loop_chain (n a : nat) (s s' : SearchState Blob) (l : list (Event Blob)) :
  bisect_loop pages total targetBytes n a s = (inr s', l) ->
  List.length (states_of l) = n
  /\ chain (bisect_step pages targetBytes) (s :: states_of l)
  /\ last (states_of l) s = s'
  /\ assembled l = map bisect_mid (removelast (s :: states_of l)).
Proof.
  revert a s l. induction n as [| n IH]; intros a s l Hrun.
  - cbn in Hrun. inversion Hrun; subst. cbn. auto.
  - rewrite bisect_loop_S in Hrun.
    destruct (assemble_result pages (bisect_mid s)) as [e | b] eqn:Hb; [discriminate |].
    cbn zeta in Hrun.
    destruct (bisect_loop pages total targetBytes n (S a) _) as [r l'] eqn:Hrec.
    inversion Hrun; subst.
    destruct (IH _ _ _ Hrec) as (Hlen & Hchain & Hlast & Hcalls).
    cbn [states_of assembled flat_map app List.length].
    fold (states_of l'). fold (assembled l').
    refine (conj _ (conj _ (conj _ _))).
    + rewrite Hlen. reflexivity.
    + apply chain_cons; [apply bisect_update_step, Hb | exact Hchain].
    + rewrite <- Hlast. apply last_cons.
    + rewrite Hcalls. reflexivity.
Qed.

Lemma refine_loop_chain (fuel : nat) (s s' : SearchState Blob) (l : list (Event Blob)) :
  refine_loop pages total targetBytes fuel s = (inr s', l) ->
  chain (refine_step pages targetBytes) (s :: states_of l)
  /\ last (states_of l) s = s'
  /\ assembled l = map refine_mid (removelast (s :: states_of l))
  /\ refine_continue s' = false.
Proof.
  revert s l. induction fuel as [| fuel IH]; intros s l Hrun.
  - cbn in Hrun. destruct (refine_continue s) eqn:Hc; [discriminate |].
    inversion Hrun; subst. cbn. auto.
  - destruct (refine_continue s) eqn:Hc.
    + rewrite (refine_loop_S _ _ Hc) in Hrun.
      destruct (assemble_result pages (refine_mid s)) as [e | b] eqn:Hb; [discriminate |].
      cbn zeta in Hrun.
      destruct (refine_loop pages total targetBytes fuel _) as [r l'] eqn:Hrec.
      inversion Hrun; subst.
      destruct (IH _ _ Hrec) as (Hchain & Hlast & Hcalls & Hstop).
      cbn [states_of assembled flat_map app].
      fold (states_of l'). fold (assembled l').
      refine (conj _ (conj _ (conj _ _))).
      * apply chain_cons; [apply refine_update_step; assumption | exact Hchain].
      * rewrite <- Hlast. apply last_cons.
      * rewrite Hcalls. reflexivity.
      * exact Hstop.
    + rewrite (refine_loop_stop _ _ Hc) in Hrun. inversion Hrun; subst. cbn. auto.
Qed.

Lemma refine_loop_states (fuel : nat) (s : SearchState Blob) :
  (refinementPasses s <= maxRefinementPasses)%nat ->
  (List.length (states_of (snd (refine_loop pages total targetBytes fuel s)))
   + refinementPasses s <= maxRefinementPasses)%nat.
Proof.
  revert s. induction fuel as [| fuel IH]; intros s Hle.
  - cbn [refine_loop]. destruct (refine_continue s); cbn; lia.
  - destruct (refine_continue s) eqn:Hc.
    + rewrite (refine_loop_S _ _ Hc).
      pose proof (refine_continue_passes _ Hc) as Hlt.
      destruct (assemble_result pages (refine_mid s)) as [e | b]; [cbn; lia |].
      cbn zeta.
      specialize (IH (refine_update targetBytes s (refine_mid s) b)).
      rewrite refine_update_passes in IH.
      destruct (refine_loop pages total targetBytes fuel _) as [r l'].
      cbn in *. lia.
    + rewrite (refine_loop_stop _ _ Hc). cbn. lia.
Qed.

(** ** The invariant of the search *)

Lemma initial_invariant :
  search_invariant pages targetBytes initial_state.
Proof.
  unfold search_invariant, initial_state; cbn.
  repeat split; try lra; auto.
Qed.

Lemma bisect_update_invariant (s : SearchState Blob) (b : Blob) :
  search_invariant pages targetBytes s ->
  minQuality s = bestQuality s ->
  assemble_result pages (bisect_mid s) = inr b ->
  search_invariant pages targetBytes (bisect_update targetBytes s (bisect_mid s) b)
  /\ minQuality (bisect_update targetBytes s (bisect_mid s) b)
     = bestQuality (bisect_update targetBytes s (bisect_mid s) b).
Proof.
  intros (Hmb & Hbm & Hbest & Hmax & _) Heq Hb.
  unfold bisect_update, search_invariant.
  destruct (fits b targetBytes) eqn:Hf; cbn [minQuality maxQuality bestBlob bestQuality
                                             refinementPasses].
  - apply fits_iff in Hf. repeat split; auto; qarith.
  - apply fits_false_iff in Hf. rewrite <- Heq in *.
    split; [| reflexivity].
    refine (conj _ (conj _ (conj _ (conj _ _)))); auto.
    + qarith.
    + right. exists b. split; assumption.
Qed.

Lemma refine_update_invariant (s : SearchState Blob) (b : Blob) :
  search_invariant pages targetBytes s ->
  assemble_result pages (refine_mid s) = inr b ->
  search_invariant pages targetBytes (refine_update targetBytes s (refine_mid s) b).
Proof.
  intros (Hmb & Hbm & Hbest & Hmax & _) Hb.
  unfold refine_update, search_invariant.
  destruct (fits b targetBytes) eqn:Hf; cbn [minQuality maxQuality bestBlob bestQuality
                                             refinementPasses].
  - apply fits_iff in Hf.
    refine (conj _ (conj _ (conj _ (conj _ _)))); auto.
    + qarith.
    + qarith.
    + right; left. apply Nat.lt_0_succ.
  - apply fits_false_iff in Hf.
    refine (conj _ (conj _ (conj _ (conj _ _)))); auto.
    + qarith.
    + right. exists b. split; assumption.
    + right; left. apply Nat.lt_0_succ.
Qed.

Lemma bisect_loop_invariant (n a : nat) (s : SearchState Blob)
    (r : Halt + SearchState Blob) (l : list (Event Blob)) :
  bisect_loop pages total targetBytes n a s = (r, l) ->
  search_invariant pages targetBytes s ->
  minQuality s = bestQuality s ->
  Forall (search_invariant pages targetBytes) (states_of l)
  /\ forall s', r = inr s' ->
       search_invariant pages targetBytes s' /\ minQuality s' = bestQuality s'.
Proof.
  revert a s r l. induction n as [| n IH]; intros a s r l Hrun Hinv Heq.
  - cbn in Hrun. inversion Hrun; subst. split; [constructor |].
    intros s' Hs'. inversion Hs'; subst. auto.
  - rewrite bisect_loop_S in Hrun.
    destruct (assemble_result pages (bisect_mid s)) as [e | b] eqn:Hb.
    { inversion Hrun; subst. split; [constructor | discriminate]. }
    cbn zeta in Hrun.
    destruct (bisect_update_invariant Hinv Heq Hb) as [Hinv' Heq'].
    destruct (bisect_loop pages total targetBytes n (S a) _) as [r' l'] eqn:Hrec.
    inversion Hrun; subst.
    destruct (IH _ _ _ _ Hrec Hinv' Heq') as [Hall Hend].
    split; [| exact Hend].
    cbn [states_of flat_map app]. constructor; assumption.
Qed.

Lemma refine_loop_invariant (fuel : nat) (s : SearchState Blob)
    (r : Halt + SearchState Blob) (l : list (Event Blob)) :
  refine_loop pages total targetBytes fuel s = (r, l) ->
  search_invariant pages targetBytes s ->
  Forall (search_invariant pages targetBytes) (states_of l).
Proof.
  revert s r l. induction fuel as [| fuel IH]; intros s r l Hrun Hinv.
  - cbn in Hrun. destruct (refine_continue s); inversion Hrun; subst; constructor.
  - destruct (refine_continue s) eqn:Hc.
    + rewrite (refine_loop_S _ _ Hc) in Hrun.
      destruct (assemble_result pages (refine_mid s)) as [e | b] eqn:Hb.
      { inversion Hrun; subst. constructor. }
      cbn zeta in Hrun.
      pose proof (refine_update_invariant Hinv Hb) as Hinv'.
      destruct (refine_loop pages total targetBytes fuel _) as [r' l'] eqn:Hrec.
      inversion Hrun; subst.
      cbn [states_of flat_map app]. constructor; [assumption |].
      eapply IH; eassumption.
    + rewrite (refine_loop_stop _ _ Hc) in Hrun. inversion Hrun; subst. constructor.
Qed.

(** ** What an observer sees of each loop *)

Lemma bisect_loop_observable (n a : nat) (s : SearchState Blob) :
  let l := snd (bisect_loop pages total targetBytes n a s) in
  observable l
  = flat_map (bisect_block total)
      (combine (seq a (List.length (assembled l))) (assembled l)).
Proof.
  revert a s. induction n as [| n IH]; intros a s.
  - reflexivity.
  - cbn zeta. rewrite bisect_loop_S.
    destruct (assemble_result pages (bisect_mid s)) as [e | b]; [reflexivity |].
    cbn zeta. specialize (IH (S a) (bisect_update targetBytes s (bisect_mid s) b)).
    destruct (bisect_loop pages total targetBytes n (S a) _) as [r l'].
    cbn [snd] in *. unfold observable, assembled in *. cbn. rewrite IH. reflexivity.
Qed.

Lemma refine_loop_observable (fuel : nat) (s : SearchState Blob) :
  let l := snd (refine_loop pages total targetBytes fuel s) in
  observable l = flat_map (refine_block total) (assembled l).
Proof.
  revert s. induction fuel as [| fuel IH]; intros s.
  - cbn. destruct (refine_continue s); reflexivity.
  - cbn zeta. destruct (refine_continue s) eqn:Hc.
    + rewrite (refine_loop_S _ _ Hc).
      destruct (assemble_result pages (refine_mid s)) as [e | b]; [reflexivity |].
      cbn zeta. specialize (IH (refine_update targetBytes s (refine_mid s) b)).
      destruct (refine_loop pages total targetBytes fuel _) as [r l'].
      cbn [snd] in *. unfold observable, assembled in *. cbn. rewrite IH. reflexivity.
    + rewrite (refine_loop_stop _ _ Hc). reflexivity.
Qed.

(** ** The loops return when the assembler does *)

Lemma bisect_loop_returns (n a : nat) (s : SearchState Blob) :
  (forall q, exists b, assemble_result pages q = inr b) ->
  exists s' l, bisect_loop pages total targetBytes n a s = (inr s', l).
Proof.
  intros Hok. revert a s. induction n as [| n IH]; intros a s.
  - eexists _, _. reflexivity.
  - rewrite bisect_loop_S. destruct (Hok (bisect_mid s)) as [b ->]. cbn zeta.
    destruct (IH (S a) (bisect_update targetBytes s (bisect_mid s) b)) as (s' & l & ->).
    eexists _, _. reflexivity.
Qed.

Lemma refine_loop_returns (fuel : nat) (s : SearchState Blob) :
  (forall q, exists b, assemble_result pages q = inr b) ->
  (maxRefinementPasses <= fuel + refinementPasses s)%nat ->
  exists s' l, refine_loop pages total targetBytes fuel s = (inr s', l).
Proof.
  intros Hok. revert s. induction fuel as [| fuel IH]; intros s Hfuel.
  - cbn. destruct (refine_continue s) eqn:Hc.
    + apply refine_continue_passes in Hc. lia.
    + eexists _, _. reflexivity.
  - destruct (refine_continue s) eqn:Hc.
    + rewrite (refine_loop_S _ _ Hc). destruct (Hok (refine_mid s)) as [b ->]. cbn zeta.
      destruct (IH (refine_update targetBytes s (refine_mid s) b)) as (s' & l & ->).
      { rewrite refine_update_passes. lia. }
      eexists _, _. reflexivity.
    + rewrite (refine_loop_stop _ _ Hc). eexists _, _. reflexivity.
Qed.

(** ** What the refinement keeps *)

Lemma bisect_update_passes (s : SearchState Blob) (q : Q) (b : Blob) :
  refinementPasses (bisect_update targetBytes s q b) = refinementPasses s.
Proof. unfold bisect_update. destruct (fits b targetBytes); reflexivity. Qed.

Lemma bisect_loop_passes (n a : nat) (s s' : SearchState Blob) (l : list (Event Blob)) :
  bisect_loop pages total targetBytes n a s = (inr s', l) ->
  refinementPasses s' = refinementPasses s.
Proof.
  revert a s l. induction n as [| n IH]; intros a s l Hrun.
  - cbn in Hrun. inversion Hrun; subst. reflexivity.
  - rewrite bisect_loop_S in Hrun.
    destruct (assemble_result pages (bisect_mid s)) as [e | b]; [discriminate |].
    cbn zeta in Hrun.
    destruct (bisect_loop pages total targetBytes n (S a) _) as [r l'] eqn:Hrec.
    inversion Hrun; subst.
    rewrite (IH _ _ _ Hrec). apply bisect_update_passes.
Qed.

Lemma bisect_loop_states_passes (n a : nat) (s : SearchState Blob) :
  Forall (fun x => refinementPasses x = refinementPasses s)
    (states_of (snd (bisect_loop pages total targetBytes n a s))).
Proof.
  revert a s. induction n as [| n IH]; intros a s.
  - constructor.
  - rewrite bisect_loop_S.
    destruct (assemble_result pages (bisect_mid s)) as [e | b]; [constructor |].
    cbn zeta. specialize (IH (S a) (bisect_update targetBytes s (bisect_mid s) b)).
    destruct (bisect_loop pages total targetBytes n (S a) _) as [r l'].
    cbn [snd] in *. cbn [states_of flat_map app]. fold (states_of l').
    rewrite bisect_update_passes in IH.
    constructor; [apply bisect_update_passes | exact IH].
Qed.

Lemma refine_update_some (s : SearchState Blob) (q : Q) (b : Blob) :
  bestBlob s <> None -> bestBlob (refine_update targetBytes s q b) <> None.
Proof.
  unfold refine_update. destruct (fits b targetBytes); cbn; [discriminate | auto].
Qed.

Lemma refine_loop_some (fuel : nat) (s s' : SearchState Blob) (l : list (Event Blob)) :
  refine_loop pages total targetBytes fuel s = (inr s', l) ->
  bestBlob s <> None -> bestBlob s' <> None.
Proof.
  revert s l. induction fuel as [| fuel IH]; intros s l Hrun Hs.
  - cbn in Hrun. destruct (refine_continue s); [discriminate |].
    inversion Hrun; subst. assumption.
  - destruct (refine_continue s) eqn:Hc.
    + rewrite (refine_loop_S _ _ Hc) in Hrun.
      destruct (assemble_result pages (refine_mid s)) as [e | b]; [discriminate |].
      cbn zeta in Hrun.
      destruct (refine_loop pages total targetBytes fuel _) as [r l'] eqn:Hrec.
      inversion Hrun; subst.
      eapply IH; [exact Hrec |]. apply refine_update_some, Hs.
    + rewrite (refine_loop_stop _ _ Hc) in Hrun. inversion Hrun; subst. assumption.
Qed.

(** Without a candidate the refinement does nothing. *)
Lemma refine_loop_none (fuel : nat) (s s' : SearchState Blob) (l : list (Event Blob)) :
  refine_loop pages total targetBytes fuel s = (inr s', l) ->
  bestBlob s' = None -> s' = s /\ l = [].
Proof.
  intros Hrun Hnone.
  destruct (bestBlob s) as [b |] eqn:Hb.
  - exfalso. eapply refine_loop_some; [exact Hrun | | exact Hnone].
    rewrite Hb. discriminate.
  - assert (Hc : refine_continue s = false) by (unfold refine_continue; rewrite Hb; reflexivity).
    rewrite (refine_loop_stop _ _ Hc) in Hrun. inversion Hrun; auto.
Qed.

End Loops.


(** ** The whole search, and [compressPDF] around it *)

Section Runs.

Context {File PdfPage Canvas Blob : Type} {H : Host File PdfPage Canvas Blob}.

Lemma fallback_eq (pages : list (RenderedPage Canvas)) (total : nat) (s : SearchState Blob) (q : Q) :
  fallback pages total s q =
  match bestBlob s with
  | Some b => (inr (b, q), [])
  | None =>
      match assemble_result pages 0.1 with
      | inl e => (inl e, fallback_block total)
      | inr b => (inr (b, 0.1), fallback_block total)
      end
  end.
Proof.
  unfold fallback, onProgress. destruct (bestBlob s); [reflexivity |].
  rewrite bind_emit, generate_eq. cbn.
  destruct (assemble_result pages 0.1); reflexivity.
Qed.

Lemma target_size_mode_eq (pages : list (RenderedPage Canvas)) (total : nat) (sizeMB : Q) :
  target_size_mode pages total sizeMB =
  let tb := target_bytes sizeMB in
  let pre := search_prefix total sizeMB in
  match assemble_result pages 1.0 with
  | inl e => (inl e, pre)
  | inr b1 =>
      if fits b1 tb then
        (inr (b1, 1.0), pre ++ [EvState (ceiling_state initial_state b1)])%list
      else
        match bisect_loop pages total tb maxAttempts 1 initial_state with
        | (inl e, l1) => (inl e, pre ++ l1)%list
        | (inr s1, l1) =>
            match refine_loop pages total tb maxRefinementPasses s1 with
            | (inl e, l2) => (inl e, pre ++ l1 ++ l2)%list
            | (inr s2, l2) =>
                match bestBlob s2 with
                | Some b => (inr (b, bestQuality s2), pre ++ l1 ++ l2)%list
                | None =>
                    match assemble_result pages 0.1 with
                    | inl e => (inl e, pre ++ l1 ++ l2 ++ fallback_block total)%list
                    | inr b => (inr (b, 0.1), pre ++ l1 ++ l2 ++ fallback_block total)%list
                    end
                end
            end
        end
  end.
Proof.
  unfold target_size_mode, onProgress, yield, snapshot.
  rewrite !bind_emit, generate_eq. fold (target_bytes sizeMB).
  unfold search_prefix. cbn zeta.
  destruct (assemble_result pages 1.0) as [e | b1]; [reflexivity |].
  cbn [bind fst snd].
  destruct (fits b1 (target_bytes sizeMB)).
  - rewrite bind_emit. cbn. reflexivity.
  - destruct (bisect_loop pages total (target_bytes sizeMB) maxAttempts 1 initial_state)
      as [[e | s1] l1]; [reflexivity |].
    cbn [bind].
    destruct (refine_loop pages total (target_bytes sizeMB) maxRefinementPasses s1)
      as [[e | s2] l2]; [reflexivity |].
    cbn [bind ret]. rewrite fallback_eq.
    destruct (bestBlob s2).
    + cbn. rewrite !app_nil_r. reflexivity.
    + destruct (assemble_result pages 0.1); cbn; rewrite !app_nil_r, <- !app_assoc; reflexivity.
Qed.

Lemma render_loop_progress (dpi : Q) (n : nat) (todo : list PdfPage) (i : nat)
    (acc : list (RenderedPage Canvas)) :
  let l := snd (render_loop dpi n todo i acc) in
  assembled l = [] /\ states_of l = [] /\ observable l = l
  /\ Forall (fun p => stage p = rendering) (progress_of l).
Proof.
  revert i acc. induction todo as [| page todo IH]; intros i acc.
  - cbn. auto.
  - cbn [render_loop]. unfold onProgress. rewrite bind_emit. cbn [snd].
    unfold bind, lift, throw, ret.
    destruct (pdfjs_renderPage page (dpi / 72)) as [e | [[c w] h]].
    + cbn. repeat split; auto.
    + specialize (IH (S i) (acc ++ [{| canvas := c; width := w; height := h |}])%list).
      destruct (render_loop dpi n todo (S i) _) as [r l']. cbn in *.
      destruct IH as (Ha & Hs & Ho & Hp). repeat split; auto.
      rewrite Ho. reflexivity.
Qed.

Lemma render_progress (file : File) (d : Q) :
  let l := snd (renderPagesToCanvases file d) in
  assembled l = [] /\ states_of l = [] /\ observable l = l
  /\ Forall (fun p => stage p = loading \/ stage p = rendering) (progress_of l).
Proof.
  unfold renderPagesToCanvases, onProgress. rewrite bind_emit. cbn [snd fst].
  unfold bind at 1. unfold lift, throw, ret.
  destruct (import_module "pdfjs-dist") as [e | []].
  - cbn. repeat split; auto.
  - rewrite bind_emit. cbn [snd fst]. unfold bind at 1.
    destruct (pdfjs_getDocument file) as [e | pdf].
    + cbn. repeat split; auto.
    + pose proof (render_loop_progress d (List.length pdf) pdf 1 []) as Hl.
      unfold bind. destruct (render_loop d (List.length pdf) pdf 1 []) as [[e | ps] l'];
        cbn in *; destruct Hl as (Ha & Hs & Ho & Hp).
      * repeat split; auto. rewrite Ho; reflexivity.
        repeat constructor; auto. eapply Forall_impl; [| exact Hp]. cbn; auto.
      * rewrite !app_nil_r. repeat split; auto. rewrite Ho; reflexivity.
        repeat constructor; auto. eapply Forall_impl; [| exact Hp]. cbn; auto.
Qed.

Lemma compressPDF_target_eq (file : File) (settings : CompressionSettings) (sizeMB : Q) :
  target_mode settings = Some sizeMB ->
  compressPDF file settings =
  match renderPagesToCanvases file (dpi settings) with
  | (inl e, lr) => (inl e, lr)
  | (inr (pages, original), lr) =>
      match target_size_mode pages (List.length pages) sizeMB with
      | (inl e, ls) => (inl e, lr ++ ls)%list
      | (inr (b, q), ls) =>
          (inr (result_of original (List.length pages) b (Some q)),
           lr ++ ls ++ [EvProgress (complete_progress (List.length pages))])%list
      end
  end.
Proof.
  intros Hmode. unfold compressPDF, onProgress. rewrite Hmode.
  destruct (renderPagesToCanvases file (dpi settings)) as [[e | [pages original]] lr];
    [reflexivity |].
  cbn [bind].
  destruct (target_size_mode pages (List.length pages) sizeMB) as [[e | [b q]] ls];
    [reflexivity |].
  cbn. reflexivity.
Qed.

Lemma target_size_mode_fit (pages : list (RenderedPage Canvas)) (total : nat) (sizeMB : Q)
    (b : Blob) (q : Q) (l : list (Event Blob)) :
  target_size_mode pages total sizeMB = (inr (b, q), l) ->
  0.1 < q -> fits b (target_bytes sizeMB) = true.
Proof.
  rewrite target_size_mode_eq. cbn zeta. intros Hrun Hq.
  destruct (assemble_result pages 1.0) as [e | b1]; [discriminate |].
  destruct (fits b1 (target_bytes sizeMB)) eqn:Hb1.
  { inversion Hrun; subst. exact Hb1. }
  destruct (bisect_loop pages total (target_bytes sizeMB) maxAttempts 1 initial_state)
    as [[e | s1] l1] eqn:Hbis; [discriminate |].
  destruct (refine_loop pages total (target_bytes sizeMB) maxRefinementPasses s1)
    as [[e | s2] l2] eqn:Href; [discriminate |].
  assert (Hfit : best_fits (target_bytes sizeMB) s2).
  { eapply refine_loop_fits; [exact Href |].
    eapply bisect_loop_fits; [exact Hbis |]. exact I. }
  unfold best_fits in Hfit.
  destruct (bestBlob s2) as [b2 |].
  - inversion Hrun; subst. exact Hfit.
  - destruct (assemble_result pages 0.1); inversion Hrun; subst.
    exfalso. exact (Qlt_irrefl _ Hq).
Qed.

Lemma target_size_mode_calls (pages : list (RenderedPage Canvas)) (total : nat) (sizeMB : Q) :
  (List.length (assembled (snd (target_size_mode pages total sizeMB))) <= 11)%nat.
Proof.
  rewrite target_size_mode_eq. cbn zeta.
  destruct (assemble_result pages 1.0) as [e | b1]; [cbn; lia |].
  destruct (fits b1 (target_bytes sizeMB)); [cbn; lia |].
  pose proof (bisect_loop_calls pages total (target_bytes sizeMB) maxAttempts 1 initial_state)
    as Hb.
  destruct (bisect_loop pages total (target_bytes sizeMB) maxAttempts 1 initial_state)
    as [[e | s1] l1] eqn:Hbis; cbn [snd] in *.
  { rewrite assembled_app, length_app. unfold maxAttempts in Hb. cbn. lia. }
  pose proof (refine_loop_calls pages total (target_bytes sizeMB) maxRefinementPasses s1)
    as Hr.
  rewrite (bisect_loop_passes _ _ _ _ _ _ Hbis) in Hr. cbn [initial_state refinementPasses] in Hr.
  specialize (Hr (Nat.le_0_l _)).
  destruct (refine_loop pages total (target_bytes sizeMB) maxRefinementPasses s1)
    as [[e | s2] l2] eqn:Href; cbn [snd] in *.
  { rewrite !assembled_app, !length_app.
    unfold maxAttempts in Hb. unfold maxRefinementPasses in Hr. cbn. lia. }
  destruct (bestBlob s2) as [b2 |] eqn:Hb2.
  { cbn [snd]. rewrite !assembled_app, !length_app.
    unfold maxAttempts in Hb. unfold maxRefinementPasses in Hr. cbn. lia. }
  destruct (refine_loop_none _ _ _ _ _ Href Hb2) as [_ ->].
  unfold maxAttempts in Hb.
  destruct (assemble_result pages 0.1); cbn [snd];
    rewrite !assembled_app, !length_app; cbn; lia.
Qed.

(** C1.  Fit invariant: whenever a target-size run of [compressPDF]
    returns a [finalQuality] strictly above 0.1, the blob it returns is at
    most [targetBytes] long -- whatever the pages, the budget and the
    assembler. *)
Theorem fit_invariant (file : File) (settings : CompressionSettings) (sizeMB : Q)
    (res : CompressionResult Blob) (l : list (Event Blob)) (q : Q) :
  target_mode settings = Some sizeMB ->
  compressPDF file settings = (inr res, l) ->
  finalQuality res = Some q ->
  0.1 < q ->
  byte_size (blob res) <= target_bytes sizeMB
  /\ compressedSize res = size (blob res).
Proof.
  intros Hmode Hrun Hfq Hq.
  rewrite (compressPDF_target_eq _ _ Hmode) in Hrun.
  destruct (renderPagesToCanvases file (dpi settings)) as [[e | [pages original]] lr];
    [discriminate |].
  destruct (target_size_mode pages (List.length pages) sizeMB) as [[e | [b q']] ls] eqn:Hs;
    [discriminate |].
  inversion Hrun; subst. cbn [finalQuality result_of blob compressedSize] in *.
  inversion Hfq; subst. split; [| reflexivity].
  apply fits_iff. eapply target_size_mode_fit; eassumption.
Qed.

Lemma ceiling_run (file : File) (settings : CompressionSettings)
    (sizeMB : Q) (pages : list (RenderedPage Canvas)) (original : N) (lr : list (Event Blob))
    (b : Blob) :
  target_mode settings = Some sizeMB ->
  renderPagesToCanvases file (dpi settings) = (inr (pages, original), lr) ->
  assemble_result pages 1.0 = inr b ->
  byte_size b <= target_bytes sizeMB ->
  exists l,
    compressPDF file settings
    = (inr (result_of original (List.length pages) b (Some 1.0)), l)
    /\ assembled l = [1.0]
    /\ states_of l = [initial_state; ceiling_state initial_state b].
Proof.
  intros Hmode Hrender Hprobe Hfit. apply fits_iff in Hfit.
  pose proof (render_progress file (dpi settings)) as Hlr.
  rewrite (compressPDF_target_eq _ _ Hmode), Hrender in *. cbn [snd] in Hlr.
  rewrite target_size_mode_eq. cbn zeta. rewrite Hprobe, Hfit.
  eexists. split; [reflexivity |].
  rewrite !assembled_app, !states_of_app.
  destruct Hlr as (-> & -> & _). split; reflexivity.
Qed.

(** C4.  Ceiling short-circuit: when the blob assembled at quality 1.0 is
    at most [targetBytes] long, the run calls the assembler exactly once
    and returns that blob with [finalQuality = 1.0]. *)
Theorem ceiling_short_circuit (file : File) (settings : CompressionSettings)
    (sizeMB : Q) (pages : list (RenderedPage Canvas)) (original : N) (lr : list (Event Blob))
    (b : Blob) :
  target_mode settings = Some sizeMB ->
  renderPagesToCanvases file (dpi settings) = (inr (pages, original), lr) ->
  assemble_result pages 1.0 = inr b ->
  byte_size b <= target_bytes sizeMB ->
  exists res l,
    compressPDF file settings = (inr res, l)
    /\ blob res = b
    /\ finalQuality res = Some 1.0
    /\ assembled l = [1.0].
Proof.
  intros Hmode Hrender Hprobe Hfit.
  destruct (ceiling_run _ _ Hmode Hrender Hprobe Hfit) as (l & Hrun & Hcalls & _).
  eexists _, l. split; [exact Hrun |]. cbn [blob result_of finalQuality]. auto.
Qed.

(** C6.  Bounded call count: a target-size run calls the assembler at most
    11 times, the fallback's call included, and exactly once when the
    blob assembled at quality 1.0 fits. *)
Theorem bounded_call_count (file : File) (settings : CompressionSettings)
    (sizeMB : Q) (r : Halt + CompressionResult Blob) (l : list (Event Blob)) :
  target_mode settings = Some sizeMB ->
  compressPDF file settings = (r, l) ->
  (List.length (assembled l) <= 11)%nat
  /\ (forall pages original lr b,
        renderPagesToCanvases file (dpi settings) = (inr (pages, original), lr) ->
        assemble_result pages 1.0 = inr b ->
        byte_size b <= target_bytes sizeMB ->
        List.length (assembled l) = 1%nat).
Proof.
  intros Hmode Hrun. split.
  - pose proof (render_progress file (dpi settings)) as Hlr.
    rewrite (compressPDF_target_eq _ _ Hmode) in Hrun.
    destruct (renderPagesToCanvases file (dpi settings)) as [[e | [pages original]] lr];
      cbn [snd] in Hlr; destruct Hlr as (Hlr & _).
    { inversion Hrun; subst. rewrite Hlr. cbn. lia. }
    pose proof (target_size_mode_calls pages (List.length pages) sizeMB) as Hs.
    destruct (target_size_mode pages (List.length pages) sizeMB) as [[e | [b q]] ls];
      cbn [snd] in Hs; inversion Hrun; subst;
      rewrite !assembled_app, Hlr, ?length_app; cbn; lia.
  - intros pages original lr b Hrender Hprobe Hfit.
    destruct (ceiling_run _ _ Hmode Hrender Hprobe Hfit) as (l' & Hrun' & Hcalls & _).
    rewrite Hrun in Hrun'. inversion Hrun'; subst. rewrite Hcalls. reflexivity.
Qed.

(** ** The shape of a run that does not stop at the probe *)

Lemma search_run (pages : list (RenderedPage Canvas)) (total : nat) (sizeMB : Q)
    (b1 b : Blob) (q : Q) (l : list (Event Blob)) :
  assemble_result pages 1.0 = inr b1 ->
  ~ byte_size b1 <= target_bytes sizeMB ->
  target_size_mode pages total sizeMB = (inr (b, q), l) ->
  exists s1 l1 s2 l2 lf,
    bisect_loop pages total (target_bytes sizeMB) maxAttempts 1 initial_state = (inr s1, l1)
    /\ refine_loop pages total (target_bytes sizeMB) maxRefinementPasses s1 = (inr s2, l2)
    /\ l = (search_prefix total sizeMB ++ l1 ++ l2 ++ lf)%list
    /\ ((bestBlob s2 = Some b /\ q = bestQuality s2 /\ lf = [])
        \/ (bestBlob s2 = None /\ assemble_result pages 0.1 = inr b /\ q = 0.1
            /\ lf = fallback_block total)).
Proof.
  intros Hprobe Hbig. apply fits_false_iff in Hbig.
  rewrite target_size_mode_eq. cbn zeta. rewrite Hprobe, Hbig.
  destruct (bisect_loop pages total (target_bytes sizeMB) maxAttempts 1 initial_state)
    as [[e | s1] l1] eqn:Hbis; [discriminate |].
  destruct (refine_loop pages total (target_bytes sizeMB) maxRefinementPasses s1)
    as [[e | s2] l2] eqn:Href; [discriminate |].
  destruct (bestBlob s2) as [b2 |] eqn:Hb2.
  - intros Hrun. inversion Hrun; subst.
    exists s1, l1, s2, l2, []. rewrite app_nil_r.
    repeat split; try reflexivity; try assumption. left. repeat split; auto.
  - destruct (assemble_result pages 0.1) as [e | b0] eqn:Hb0; [discriminate |].
    intros Hrun. inversion Hrun; subst.
    exists s1, l1, s2, l2, (fallback_block total).
    repeat split; try reflexivity; try assumption. right. repeat split; auto.
Qed.

Lemma compressPDF_run (file : File) (settings : CompressionSettings) (sizeMB : Q)
    (pages : list (RenderedPage Canvas)) (original : N) (lr : list (Event Blob))
    (res : CompressionResult Blob) (l : list (Event Blob)) :
  target_mode settings = Some sizeMB ->
  renderPagesToCanvases file (dpi settings) = (inr (pages, original), lr) ->
  compressPDF file settings = (inr res, l) ->
  exists b q ls,
    target_size_mode pages (List.length pages) sizeMB = (inr (b, q), ls)
    /\ res = result_of original (List.length pages) b (Some q)
    /\ l = (lr ++ ls ++ [EvProgress (complete_progress (List.length pages))])%list
    /\ assembled l = assembled ls
    /\ states_of l = states_of ls.
Proof.
  intros Hmode Hrender Hrun.
  pose proof (render_progress file (dpi settings)) as Hlr.
  rewrite (compressPDF_target_eq _ _ Hmode), Hrender in *. cbn [snd] in Hlr.
  destruct Hlr as (Ha & Hs & _).
  destruct (target_size_mode pages (List.length pages) sizeMB) as [[e | [b q]] ls];
    [discriminate |].
  inversion Hrun; subst. exists b, q, ls.
  rewrite !assembled_app, !states_of_app, Ha, Hs. cbn. rewrite !app_nil_r. auto.
Qed.

Lemma refine_chain_passes (pages : list (RenderedPage Canvas)) (tb : Q)
    (rs : list (SearchState Blob)) (s : SearchState Blob) :
  chain (refine_step pages tb) (s :: rs) ->
  refinementPasses (last rs s) = (refinementPasses s + List.length rs)%nat
  /\ Forall (fun x => (0 < refinementPasses x)%nat) rs.
Proof.
  revert s. induction rs as [| r rs IH]; intros s Hchain.
  - cbn. split; [lia | constructor].
  - destruct Hchain as [Hstep Hchain].
    destruct (IH _ Hchain) as [Hlast Hall].
    destruct Hstep as (_ & _ & _ & Hp & _).
    rewrite last_cons, Hlast, Hp. cbn [List.length]. split; [lia |].
    constructor; [lia | exact Hall].
Qed.

Lemma six_steps_width (pages : list (RenderedPage Canvas)) (tb : Q)
    (s : SearchState Blob) (bis : list (SearchState Blob)) :
  List.length bis = 6%nat ->
  chain (bisect_step pages tb) (s :: bis) ->
  maxQuality (last bis s) - minQuality (last bis s)
  == (maxQuality s - minQuality s) / 2 ^ 6.
Proof.
  intros Hlen Hchain.
  destruct bis as [| s1 [| s2 [| s3 [| s4 [| s5 [| s6 [| ? ?]]]]]]]; try discriminate.
  cbn [chain] in Hchain.
  destruct Hchain as (H1 & H2 & H3 & H4 & H5 & H6 & _).
  apply bisect_step_width in H1, H2, H3, H4, H5, H6.
  cbn [last].
  assert (Hpow : / 2 ^ 6 == 1 # 64) by reflexivity.
  unfold Qdiv in *. rewrite Hpow. change (/ 2) with (1 # 2) in *. lra.
Qed.

(** The bracket in binary64: whatever the outcomes of six size tests,
    its width is (1.0 - 0.1) / 2^6 up to 2^-52, and not that number. *)
Lemma binary64_bracket_width (outcomes : list bool) :
  List.length outcomes = 6%nat ->
  Binary64.near (Binary64.width (Binary64.bisect_loop outcomes)) ((1.0 - 0.1) / 2 ^ 6)
  /\ ~ Binary64.stated_width outcomes.
Proof.
  intros Hlen.
  destruct outcomes as [|o1 [|o2 [|o3 [|o4 [|o5 [|o6 [|o7 rest]]]]]]];
    try discriminate Hlen.
  destruct o1, o2, o3, o4, o5, o6;
    (split; [split; vm_compute; discriminate
            | intros [Hw | Hw]; vm_compute in Hw; discriminate]).
Qed.

(** C2, amended.  Bisection phase: when the blob assembled at quality
    1.0 exceeds [targetBytes], the search starts from the bracket
    [0.1, 1.0] and runs exactly six iterations; each one tests the
    midpoint of the bracket, and either records the blob as the new best
    and raises [minQuality] to the midpoint (the blob fits) or lowers
    [maxQuality] to it.  After the six iterations the bracket is
    (1.0 - 0.1) / 2^6 wide only up to the rounding of the six midpoints:
    in binary64 the width differs from that number, by 2^-52 at most,
    whatever the outcomes of the six tests. *)
Theorem bisection_phase (file : File) (settings : CompressionSettings)
    (sizeMB : Q) (pages : list (RenderedPage Canvas)) (original : N) (lr : list (Event Blob))
    (b1 : Blob) (res : CompressionResult Blob) (l : list (Event Blob)) :
  target_mode settings = Some sizeMB ->
  renderPagesToCanvases file (dpi settings) = (inr (pages, original), lr) ->
  assemble_result pages 1.0 = inr b1 ->
  ~ byte_size b1 <= target_bytes sizeMB ->
  compressPDF file settings = (inr res, l) ->
  exists bis later calls,
    states_of l = (initial_state :: bis ++ later)%list
    /\ minQuality (@initial_state Blob) = 0.1
    /\ maxQuality (@initial_state Blob) = 1.0
    /\ List.length bis = 6%nat
    /\ chain (bisect_step pages (target_bytes sizeMB)) (initial_state :: bis)
    /\ assembled l
       = (1.0 :: map bisect_mid (removelast (initial_state :: bis)) ++ calls)%list
    /\ Forall (fun s => refinementPasses s = 0%nat) bis
    /\ Forall (fun s => (0 < refinementPasses s)%nat) later
    /\ (forall outcomes : list bool,
           List.length outcomes = 6%nat ->
           Binary64.near (Binary64.width (Binary64.bisect_loop outcomes))
             ((1.0 - 0.1) / 2 ^ 6)
           /\ ~ Binary64.stated_width outcomes).
Proof.
  intros Hmode Hrender Hprobe Hbig Hrun.
  destruct (compressPDF_run _ _ Hmode Hrender Hrun)
    as (b & q & ls & Hsearch & _ & _ & Hcalls & Hstates).
  destruct (search_run _ _ Hprobe Hbig Hsearch)
    as (s1 & l1 & s2 & l2 & lf & Hbis & Href & -> & Hend).
  destruct (bisect_loop_chain _ _ _ _ _ _ Hbis) as (Hlen & Hchain & Hlast & Hmids).
  destruct (refine_loop_chain _ _ _ _ _ Href) as (Hrchain & _ & _ & _).
  exists (states_of l1), (states_of l2), (assembled l2 ++ assembled lf)%list.
  assert (Hlf : states_of lf = []).
  { destruct Hend as [(_ & _ & ->) | (_ & _ & _ & ->)]; reflexivity. }
  rewrite Hstates, Hcalls, !states_of_app, !assembled_app, Hlf, app_nil_r, Hmids.
  refine (conj eq_refl (conj eq_refl (conj eq_refl (conj Hlen (conj Hchain
            (conj eq_refl (conj _ (conj _ _)))))))).
  - pose proof (bisect_loop_states_passes pages (List.length pages) (target_bytes sizeMB)
                  maxAttempts 1 initial_state) as Hp.
    rewrite Hbis in Hp. exact Hp.
  - apply (refine_chain_passes _ _ _ _ Hrchain).
  - exact binary64_bracket_width.
Qed.

Lemma Forall_last {A} (P : A -> Prop) (l : list A) (a : A) :
  Forall P (a :: l) -> P (last l a).
Proof.
  revert a. induction l as [| x l IH]; intros a Hall.
  - inversion Hall; assumption.
  - rewrite last_cons. apply IH. inversion Hall; assumption.
Qed.

Lemma refine_gap_strict (pages : list (RenderedPage Canvas)) (tb : Q)
    (s : SearchState Blob) (rs : list (SearchState Blob)) :
  (List.length rs <= 4)%nat ->
  chain (refine_step pages tb) (s :: rs) ->
  maxQuality s - bestQuality s == (1.0 - 0.1) / 2 ^ 6 ->
  maxQuality (last rs s) - bestQuality (last rs s) <= 0.005 ->
  maxQuality (last rs s) - bestQuality (last rs s) < 0.005.
Proof.
  intros Hlen Hchain Hgap.
  assert (Hpow : / 2 ^ 6 == 1 # 64) by reflexivity.
  unfold Qdiv in Hgap. rewrite Hpow in Hgap.
  destruct rs as [| r1 [| r2 [| r3 [| r4 [| ? ?]]]]]; cbn [chain last] in *.
  - intros Hle. lra.
  - destruct Hchain as (H1 & _). apply refine_step_gap in H1.
    unfold Qdiv in *. change (/ 2) with (1 # 2) in *. intros Hle. lra.
  - destruct Hchain as (H1 & H2 & _). apply refine_step_gap in H1, H2.
    unfold Qdiv in *. change (/ 2) with (1 # 2) in *. intros Hle. lra.
  - destruct Hchain as (H1 & H2 & H3 & _). apply refine_step_gap in H1, H2, H3.
    unfold Qdiv in *. change (/ 2) with (1 # 2) in *. intros Hle. lra.
  - destruct Hchain as (H1 & H2 & H3 & H4 & _).
    apply refine_step_gap in H1, H2, H3, H4.
    unfold Qdiv in *. change (/ 2) with (1 # 2) in *. intros Hle. lra.
  - cbn in Hlen. lia.
Qed.

(** C3.  Refinement phase: it is entered only when the bisection left a
    candidate; it makes at most four more trials, each at the midpoint of
    [bestQuality] and [maxQuality], accepting a blob that fits as the new
    best and otherwise lowering [maxQuality] to the tried quality; every
    trial starts from a gap above 0.005, and when the phase ends with a
    candidate and fewer than four trials the gap is below 0.005. *)
Theorem refinement_phase (file : File) (settings : CompressionSettings)
    (sizeMB : Q) (pages : list (RenderedPage Canvas)) (original : N) (lr : list (Event Blob))
    (b1 : Blob) (res : CompressionResult Blob) (l : list (Event Blob)) :
  target_mode settings = Some sizeMB ->
  renderPagesToCanvases file (dpi settings) = (inr (pages, original), lr) ->
  assemble_result pages 1.0 = inr b1 ->
  ~ byte_size b1 <= target_bytes sizeMB ->
  compressPDF file settings = (inr res, l) ->
  exists bis refined before after,
    states_of l = (initial_state :: bis ++ refined)%list
    /\ List.length bis = 6%nat
    /\ (bestBlob (last bis initial_state) = None -> refined = [])
    /\ (List.length refined <= 4)%nat
    /\ chain (refine_step pages (target_bytes sizeMB))
         (last bis initial_state :: refined)
    /\ assembled l
       = (before
          ++ map refine_mid (removelast (last bis initial_state :: refined))
          ++ after)%list
    /\ List.length before = 7%nat
    /\ (after = [] \/ after = [0.1])
    /\ (bestBlob (last refined (last bis initial_state)) = None
        \/ refinementPasses (last refined (last bis initial_state)) = 4%nat
        \/ maxQuality (last refined (last bis initial_state))
           - bestQuality (last refined (last bis initial_state)) < 0.005).
Proof.
  intros Hmode Hrender Hprobe Hbig Hrun.
  destruct (compressPDF_run _ _ Hmode Hrender Hrun)
    as (b & q & ls & Hsearch & _ & _ & Hcalls & Hstates).
  destruct (search_run _ _ Hprobe Hbig Hsearch)
    as (s1 & l1 & s2 & l2 & lf & Hbis & Href & -> & Hend).
  destruct (bisect_loop_chain _ _ _ _ _ _ Hbis) as (Hlen & Hchain & Hlast & Hmids).
  destruct (refine_loop_chain _ _ _ _ _ Href) as (Hrchain & Hrlast & Hrmids & Hstop).
  pose proof (bisect_loop_passes _ _ _ _ _ _ Hbis) as Hp1.
  cbn [initial_state refinementPasses] in Hp1.
  pose proof (refine_loop_states pages (List.length pages) (target_bytes sizeMB)
                maxRefinementPasses s1) as Hcount.
  rewrite Href, Hp1 in Hcount. cbn [snd] in Hcount.
  specialize (Hcount (Nat.le_0_l _)). unfold maxRefinementPasses in Hcount.
  edestruct bisect_loop_invariant as [_ Hinv1];
    [exact Hbis | apply initial_invariant | reflexivity |].
  destruct (Hinv1 s1 eq_refl) as [_ Heq1].
  pose proof (six_steps_width _ _ _ _ Hlen Hchain) as Hwidth.
  rewrite Hlast, Heq1 in Hwidth. cbn [initial_state maxQuality minQuality] in Hwidth.
  destruct (refine_chain_passes _ _ _ _ Hrchain) as [Hpasses _].
  rewrite Hrlast, Hp1 in Hpasses. cbn [Nat.add] in Hpasses.
  exists (states_of l1), (states_of l2), (1.0 :: assembled l1)%list, (assembled lf).
  assert (Hlf : states_of lf = []).
  { destruct Hend as [(_ & _ & ->) | (_ & _ & _ & ->)]; reflexivity. }
  rewrite Hstates, Hcalls, !states_of_app, !assembled_app, Hlf, app_nil_r.
  rewrite Hlast, Hrlast, <- Hrmids.
  refine (conj eq_refl (conj Hlen (conj _ (conj _ (conj Hrchain
            (conj eq_refl (conj _ (conj _ _)))))))).
  - intros Hnone.
    assert (Hc : refine_continue s1 = false)
      by (unfold refine_continue; rewrite Hnone; reflexivity).
    rewrite (refine_loop_stop _ _ _ _ _ Hc) in Href. inversion Href; reflexivity.
  - lia.
  - cbn [List.length]. rewrite Hmids, length_map.
    destruct (states_of l1) as [| x xs] eqn:Hss; [discriminate |].
    cbn [List.length] in Hlen.
    change (removelast (initial_state :: x :: xs))
      with (initial_state :: removelast (x :: xs)).
    cbn [List.length].
    assert (Hrl : forall (y : SearchState Blob) ys,
              List.length (removelast (y :: ys)) = List.length ys).
    { intros y ys. revert y. induction ys as [| z ys IH]; intros y; [reflexivity |].
      change (removelast (y :: z :: ys)) with (y :: removelast (z :: ys)).
      cbn [List.length]. rewrite IH. reflexivity. }
    rewrite Hrl. unfold maxAttempts in Hlen. cbn [List.length] in Hlen. lia.
  - destruct Hend as [(_ & _ & ->) | (_ & _ & _ & ->)]; [left | right]; reflexivity.
  - destruct (refine_continue_false _ Hstop) as [Hnone | [Hgap | Hfour]].
    + left. exact Hnone.
    + right; right. rewrite <- Hrlast.
      apply (refine_gap_strict pages (target_bytes sizeMB) s1 (states_of l2)).
      * lia.
      * exact Hrchain.
      * exact Hwidth.
      * rewrite Hrlast. exact Hgap.
    + right; left. lia.
Qed.

(** The refinement, once entered, makes exactly two trials: the gap it
    starts from is 0.9 / 64, above 0.005 until halved twice. *)
Remark refinement_two_trials (pages : list (RenderedPage Canvas)) (total : nat) (tb : Q)
    (s1 s2 : SearchState Blob) (l1 l2 : list (Event Blob)) :
  bisect_loop pages total tb maxAttempts 1 initial_state = (inr s1, l1) ->
  refine_loop pages total tb maxRefinementPasses s1 = (inr s2, l2) ->
  bestBlob s1 <> None ->
  List.length (assembled l2) = 2%nat.
Proof.
  intros Hbis Href Hsome.
  destruct (bisect_loop_chain _ _ _ _ _ _ Hbis) as (Hlen & Hchain & Hlast & _).
  destruct (refine_loop_chain _ _ _ _ _ Href) as (Hrchain & Hrlast & Hrmids & Hstop).
  pose proof (bisect_loop_passes _ _ _ _ _ _ Hbis) as Hp1.
  cbn [initial_state refinementPasses] in Hp1.
  edestruct bisect_loop_invariant as [_ Hinv1];
    [exact Hbis | apply initial_invariant | reflexivity |].
  destruct (Hinv1 s1 eq_refl) as [_ Heq1].
  pose proof (six_steps_width _ _ _ _ Hlen Hchain) as Hwidth.
  rewrite Hlast, Heq1 in Hwidth. cbn [initial_state maxQuality minQuality] in Hwidth.
  assert (Hpow : / 2 ^ 6 == 1 # 64) by reflexivity.
  unfold Qdiv in Hwidth. rewrite Hpow in Hwidth.
  destruct (refine_chain_passes _ _ _ _ Hrchain) as [Hpasses _].
  rewrite Hrlast, Hp1 in Hpasses. cbn [Nat.add] in Hpasses.
  assert (Hsome2 : bestBlob s2 <> None) by (eapply refine_loop_some; eassumption).
  rewrite Hrmids, length_map.
  destruct (refine_continue_false _ Hstop) as [Hnone | [Hgap | Hfour]];
    [contradiction | |].
  - rewrite <- Hrlast in Hgap.
    destruct (states_of l2) as [| r1 [| r2 [| r3 rest]]]; cbn [chain last] in *.
    + exfalso. lra.
    + exfalso. destruct Hrchain as (H1 & _). apply refine_step_gap in H1.
      unfold Qdiv in *. change (/ 2) with (1 # 2) in *. lra.
    + reflexivity.
    + exfalso. destruct Hrchain as (H1 & H2 & H3 & _).
      destruct H3 as (_ & Hguard & _).
      apply refine_step_gap in H1, H2.
      unfold Qdiv in *. change (/ 2) with (1 # 2) in *. lra.
  - destruct (states_of l2) as [| r1 [| r2 [| r3 rest]]]; cbn [List.length] in *;
      try lia.
    exfalso. cbn [chain] in Hrchain. destruct Hrchain as (H1 & H2 & H3 & _).
    destruct H3 as (_ & Hguard & _).
    apply refine_step_gap in H1, H2.
    unfold Qdiv in *. change (/ 2) with (1 # 2) in *. lra.
Qed.

Lemma ceiling_invariant (pages : list (RenderedPage Canvas)) (tb : Q) (b1 : Blob) :
  assemble_result pages 1.0 = inr b1 ->
  byte_size b1 <= tb ->
  search_invariant pages tb (ceiling_state initial_state b1).
Proof.
  intros Hprobe Hfit. unfold search_invariant, ceiling_state, initial_state; cbn.
  repeat split; try lra; auto.
Qed.

Lemma target_size_mode_invariant (pages : list (RenderedPage Canvas)) (total : nat) (sizeMB : Q) :
  Forall (search_invariant pages (target_bytes sizeMB))
    (states_of (snd (target_size_mode pages total sizeMB))).
Proof.
  rewrite target_size_mode_eq. cbn zeta.
  pose proof (initial_invariant pages (target_bytes sizeMB)) as Hinit.
  destruct (assemble_result pages 1.0) as [e | b1] eqn:Hprobe.
  { cbn. constructor; [exact Hinit | constructor]. }
  destruct (fits b1 (target_bytes sizeMB)) eqn:Hfit.
  { apply fits_iff in Hfit. cbn. constructor; [exact Hinit |].
    constructor; [| constructor]. apply ceiling_invariant; assumption. }
  destruct (bisect_loop pages total (target_bytes sizeMB) maxAttempts 1 initial_state)
    as [r1 l1] eqn:Hbis.
  edestruct bisect_loop_invariant as [Hall1 Hend1];
    [exact Hbis | exact Hinit | reflexivity |].
  destruct r1 as [e | s1].
  { cbn [snd]. rewrite states_of_app. cbn. constructor; assumption. }
  destruct (Hend1 s1 eq_refl) as [Hinv1 _].
  destruct (refine_loop pages total (target_bytes sizeMB) maxRefinementPasses s1)
    as [r2 l2] eqn:Href.
  assert (Hall2 : Forall (search_invariant pages (target_bytes sizeMB)) (states_of l2))
    by (eapply refine_loop_invariant; eassumption).
  assert (Hboth : Forall (search_invariant pages (target_bytes sizeMB))
                    (states_of (search_prefix total sizeMB ++ l1 ++ l2))).
  { rewrite !states_of_app. cbn. constructor; [exact Hinit |].
    apply Forall_app. split; assumption. }
  destruct r2 as [e | s2]; [exact Hboth |].
  destruct (bestBlob s2).
  { exact Hboth. }
  destruct (assemble_result pages 0.1); cbn [snd];
    rewrite !app_assoc, states_of_app, <- !app_assoc; cbn;
    rewrite app_nil_r; exact Hboth.
Qed.

(** C7, as the code has it.  At every snapshot of a target-size run:
    [minQuality <= bestQuality <= maxQuality]; the best candidate, when
    there is one, is the blob assembled at [bestQuality] and fits;
    without one, [minQuality = bestQuality = 0.1]; [maxQuality] is 1.0 or
    a quality whose blob exceeded the budget; and [minQuality] is the
    best candidate's quality until a refinement trial has run or the
    quality-1.0 probe was taken. *)
Theorem search_state_invariant (file : File) (settings : CompressionSettings)
    (sizeMB : Q) (pages : list (RenderedPage Canvas)) (original : N) (lr : list (Event Blob))
    (r : Halt + CompressionResult Blob) (l : list (Event Blob)) :
  target_mode settings = Some sizeMB ->
  renderPagesToCanvases file (dpi settings) = (inr (pages, original), lr) ->
  compressPDF file settings = (r, l) ->
  states_of l <> []
  /\ Forall (fun s =>
       search_invariant pages (target_bytes sizeMB) s
       /\ minQuality s <= maxQuality s
       /\ (forall b, bestBlob s = Some b -> byte_size b <= target_bytes sizeMB))
     (states_of l).
Proof.
  intros Hmode Hrender Hrun.
  pose proof (render_progress file (dpi settings)) as Hlr.
  pose proof (target_size_mode_invariant pages (List.length pages) sizeMB) as Hinv.
  assert (Hne : states_of (snd (target_size_mode pages (List.length pages) sizeMB)) <> []).
  { rewrite target_size_mode_eq. cbn zeta.
    destruct (assemble_result pages 1.0); [discriminate |].
    destruct (fits _ _); [discriminate |].
    destruct (bisect_loop _ _ _ _ _ _) as [[? | ?] ?]; [discriminate |].
    destruct (refine_loop _ _ _ _ _) as [[? | ?] ?]; [discriminate |].
    destruct (bestBlob _); [discriminate |].
    destruct (assemble_result pages 0.1); discriminate. }
  rewrite (compressPDF_target_eq _ _ Hmode), Hrender in *. cbn [snd] in Hlr.
  destruct Hlr as (_ & Hs & _).
  assert (Hl : states_of l
               = states_of (snd (target_size_mode pages (List.length pages) sizeMB))).
  { destruct (target_size_mode pages (List.length pages) sizeMB) as [[e | [b q]] ls];
      inversion Hrun; subst; rewrite !states_of_app, Hs; cbn;
      rewrite ?app_nil_r; reflexivity. }
  rewrite Hl. split; [exact Hne |].
  eapply Forall_impl; [| exact Hinv].
  intros s (Hmb & Hbm & Hbest & Hmax & Hmin).
  split; [repeat split; assumption |].
  split; [lra |].
  intros b Hb. rewrite Hb in Hbest. tauto.
Qed.

(** C5, as the code has it.  With pages rendered and an assembler that
    does not throw, a target-size run returns a result whatever the
    budget; and when no snapshot ever holds a candidate, the run makes one
    more call at quality 0.1 after the probe and the six bisection trials
    and returns that blob with [finalQuality = 0.1], its size unchecked. *)
Theorem best_effort_fallback (file : File) (settings : CompressionSettings)
    (sizeMB : Q) (pages : list (RenderedPage Canvas)) (original : N) (lr : list (Event Blob)) :
  target_mode settings = Some sizeMB ->
  renderPagesToCanvases file (dpi settings) = (inr (pages, original), lr) ->
  (forall q, exists b, assemble_result pages q = inr b) ->
  exists res l,
    compressPDF file settings = (inr res, l)
    /\ (Forall (fun s => bestBlob s = None) (states_of l) ->
        assemble_result pages 0.1 = inr (blob res)
        /\ finalQuality res = Some 0.1
        /\ exists qs, assembled l = (1.0 :: qs ++ [0.1])%list
                      /\ List.length qs = 6%nat).
Proof.
  intros Hmode Hrender Hok.
  pose proof (render_progress file (dpi settings)) as Hlr.
  rewrite (compressPDF_target_eq _ _ Hmode), Hrender in *. cbn [snd] in Hlr.
  destruct Hlr as (Ha & Hs & _).
  rewrite target_size_mode_eq. cbn zeta.
  destruct (Hok 1.0) as [b1 ->].
  destruct (fits b1 (target_bytes sizeMB)).
  { eexists _, _. split; [reflexivity |].
    rewrite !states_of_app, Hs. cbn. intros Hall.
    apply Forall_cons_iff in Hall. destruct Hall as [_ Hall].
    apply Forall_cons_iff in Hall. destruct Hall as [Hnone _]. discriminate. }
  destruct (bisect_loop_returns pages (List.length pages) (target_bytes sizeMB)
              maxAttempts 1 initial_state Hok) as (s1 & l1 & Hbis).
  destruct (refine_loop_returns pages (List.length pages) (target_bytes sizeMB)
              maxRefinementPasses s1 Hok) as (s2 & l2 & Href).
  { rewrite (bisect_loop_passes _ _ _ _ _ _ Hbis). unfold maxRefinementPasses.
    cbn [initial_state refinementPasses]. lia. }
  rewrite Hbis, Href.
  destruct (bisect_loop_chain _ _ _ _ _ _ Hbis) as (Hlen & _ & Hlast & Hmids).
  destruct (refine_loop_chain _ _ _ _ _ Href) as (_ & Hrlast & _ & _).
  destruct (bestBlob s2) as [b2 |] eqn:Hb2.
  { eexists _, _. split; [reflexivity |].
    rewrite !states_of_app, Hs. cbn. rewrite app_nil_r. intros Hall. exfalso.
    apply Forall_cons_iff in Hall. destruct Hall as [Hinit Hrest].
    apply Forall_app in Hrest. destruct Hrest as [Hall1 Hall2].
    assert (H1 : bestBlob s1 = None).
    { rewrite <- Hlast.
      apply Forall_last with (P := fun s => bestBlob s = None).
      constructor; assumption. }
    assert (H2 : bestBlob s2 = None).
    { rewrite <- Hrlast.
      apply Forall_last with (P := fun s => bestBlob s = None).
      constructor; assumption. }
    congruence. }
  destruct (refine_loop_none _ _ _ _ _ Href Hb2) as [_ ->].
  destruct (Hok 0.1) as [b0 Hb0]. rewrite Hb0.
  eexists _, _. split; [reflexivity |]. intros _.
  cbn [blob result_of finalQuality]. split; [reflexivity |]. split; [reflexivity |].
  exists (assembled l1). rewrite !assembled_app, Ha. cbn. rewrite app_nil_r.
  split; [reflexivity |].
  rewrite Hmids, length_map. unfold maxAttempts in Hlen.
  destruct (states_of l1) as [| s [| ? [| ? [| ? [| ? [| ? [| ? ?]]]]]]];
    try discriminate. reflexivity.
Qed.

(** ** What an observer sees of a run *)

Lemma target_size_mode_observable (pages : list (RenderedPage Canvas)) (total : nat) (sizeMB : Q) :
  exists qs rs fb,
    observable (snd (target_size_mode pages total sizeMB))
    = (probe_block total sizeMB
         ++ flat_map (bisect_block total) (combine (seq 1 (List.length qs)) qs)
         ++ flat_map (refine_block total) rs
         ++ fb)%list
    /\ assembled (snd (target_size_mode pages total sizeMB))
       = (1.0 :: qs ++ rs ++ assembled fb)%list
    /\ (List.length qs <= 6)%nat
    /\ (List.length rs <= 4)%nat
    /\ (fb = [] \/ (fb = fallback_block total /\ rs = []))
    /\ (forall x, fst (target_size_mode pages total sizeMB) = inr x ->
          (qs = [] /\ rs = [] /\ fb = []) \/ List.length qs = 6%nat).
Proof.
  rewrite target_size_mode_eq. cbn zeta.
  destruct (assemble_result pages 1.0) as [e | b1].
  { exists [], [], []. cbn. repeat split; auto; try lia; try discriminate. }
  destruct (fits b1 (target_bytes sizeMB)).
  { exists [], [], []. cbn. repeat split; auto; try lia; try discriminate. }
  pose proof (bisect_loop_observable pages total (target_bytes sizeMB) maxAttempts 1
                initial_state) as Hob1.
  pose proof (bisect_loop_calls pages total (target_bytes sizeMB) maxAttempts 1
                initial_state) as Hn1.
  destruct (bisect_loop pages total (target_bytes sizeMB) maxAttempts 1 initial_state)
    as [r1 l1] eqn:Hbis.
  cbn [snd] in Hob1, Hn1. unfold maxAttempts in Hn1.
  destruct r1 as [e | s1].
  { exists (assembled l1), [], []. cbn [snd fst].
    rewrite observable_app, assembled_app, Hob1. cbn. rewrite !app_nil_r.
    repeat split; auto; try lia; try discriminate. }
  pose proof (refine_loop_observable pages total (target_bytes sizeMB)
                maxRefinementPasses s1) as Hob2.
  pose proof (refine_loop_calls pages total (target_bytes sizeMB)
                maxRefinementPasses s1) as Hn2.
  rewrite (bisect_loop_passes _ _ _ _ _ _ Hbis) in Hn2.
  cbn [initial_state refinementPasses] in Hn2.
  specialize (Hn2 (Nat.le_0_l _)).
  destruct (bisect_loop_chain _ _ _ _ _ _ Hbis) as (Hlen & _ & _ & Hmids).
  assert (Hsix : List.length (assembled l1) = 6%nat).
  { rewrite Hmids, length_map. unfold maxAttempts in Hlen.
    destruct (states_of l1) as [| s [| ? [| ? [| ? [| ? [| ? [| ? ?]]]]]]];
      try discriminate. reflexivity. }
  destruct (refine_loop pages total (target_bytes sizeMB) maxRefinementPasses s1)
    as [r2 l2] eqn:Href.
  cbn [snd] in Hob2, Hn2. unfold maxRefinementPasses in Hn2.
  destruct r2 as [e | s2].
  { exists (assembled l1), (assembled l2), []. cbn [snd fst].
    rewrite !observable_app, !assembled_app, Hob1, Hob2. cbn. rewrite !app_nil_r.
    repeat split; auto; try lia; try discriminate. }
  destruct (bestBlob s2) eqn:Hb2.
  { exists (assembled l1), (assembled l2), []. cbn [snd fst].
    rewrite !observable_app, !assembled_app, Hob1, Hob2. cbn. rewrite !app_nil_r.
    repeat split; auto; try lia; try discriminate. }
  destruct (refine_loop_none _ _ _ _ _ Href Hb2) as [_ ->].
  exists (assembled l1), [], (fallback_block total).
  destruct (assemble_result pages 0.1); cbn [snd fst];
    rewrite !observable_app, !assembled_app, Hob1; cbn;
    repeat split; auto; try lia; try discriminate.
Qed.

Lemma reports_observable (last : option CompressionProgress) (l : list (Event Blob)) :
  reports_before_calls_from last l = reports_before_calls_from last (observable l).
Proof.
  revert last. induction l as [| e l IH]; intros last; [reflexivity |].
  destruct e; cbn; auto.
  destruct last; cbn; rewrite IH; reflexivity.
Qed.

Lemma reports_skip_progress (last : option CompressionProgress) (l rest : list (Event Blob))
    (p : CompressionProgress) :
  assembled l = [] ->
  reports_before_calls_from last (l ++ EvProgress p :: rest)
  = reports_before_calls_from (Some p) rest.
Proof.
  revert last. induction l as [| e l IH]; intros last Hl; [reflexivity |].
  destruct e; cbn in *; try discriminate; auto.
Qed.

Lemma reports_bisect_blocks (total : nat) (xs : list (nat * Q)) (rest : list (Event Blob)) :
  reports_before_calls_from None (flat_map (bisect_block total) xs ++ rest)
  = (map (fun aq => bisect_progress total (fst aq) (snd aq)) xs
       ++ reports_before_calls_from None rest)%list.
Proof.
  induction xs as [| x xs IH]; [reflexivity |].
  cbn. rewrite IH. reflexivity.
Qed.

Lemma reports_refine_blocks (total : nat) (rs : list Q) (rest : list (Event Blob)) :
  reports_before_calls_from None (flat_map (refine_block total) rs ++ rest)
  = (map (refine_progress total) rs ++ reports_before_calls_from None rest)%list.
Proof.
  induction rs as [| x rs IH]; [reflexivity |].
  cbn. rewrite IH. reflexivity.
Qed.

Lemma bisect_report (total a : nat) (q : Q) : search_report (bisect_progress total a q).
Proof. split; [reflexivity | cbn; discriminate]. Qed.

Lemma refine_report (total : nat) (q : Q) : search_report (refine_progress total q).
Proof. split; [reflexivity | cbn; discriminate]. Qed.

(** C8, as the code has it.  What an observer sees of a target-size run
    is, in this order: the rendering reports; a first report and a yield;
    the probe's report and its call at quality 1.0; at most six bisection
    trials, numbered from 1, each a report, a yield and a call; at most
    four refinement trials, the same three events each; the fallback's
    report and call, only when no refinement trial ran; the final report.
    Every report in front of a call has the stage [optimizing] and a
    non-empty message, which is what tells the phases apart; it carries
    an attempt index only for the probe (1) and the bisection trials. *)
Theorem progress_order (file : File) (settings : CompressionSettings)
    (sizeMB : Q) (pages : list (RenderedPage Canvas)) (original : N) (lr : list (Event Blob))
    (r : Halt + CompressionResult Blob) (l : list (Event Blob)) :
  target_mode settings = Some sizeMB ->
  renderPagesToCanvases file (dpi settings) = (inr (pages, original), lr) ->
  compressPDF file settings = (r, l) ->
  exists qs rs fb fin,
    observable l
    = (lr ++ probe_block (List.length pages) sizeMB
         ++ flat_map (bisect_block (List.length pages))
              (combine (seq 1 (List.length qs)) qs)
         ++ flat_map (refine_block (List.length pages)) rs
         ++ fb ++ fin)%list
    /\ assembled l = (1.0 :: qs ++ rs ++ assembled fb)%list
    /\ (List.length qs <= 6)%nat
    /\ (List.length rs <= 4)%nat
    /\ (fb = [] \/ (fb = fallback_block (List.length pages) /\ rs = []))
    /\ (fin = [] \/ fin = [EvProgress (complete_progress (List.length pages))])
    /\ (forall res, r = inr res ->
          fin <> [] /\ ((qs = [] /\ rs = [] /\ fb = []) \/ List.length qs = 6%nat))
    /\ Forall (fun p => stage p = loading \/ stage p = rendering) (progress_of lr)
    /\ Forall (fun p => stage p = optimizing /\ message p <> ""%string)
         (reports_before_calls l)
    /\ attempt (probe_progress (List.length pages)) = Some 1%nat
    /\ (forall a q, attempt (bisect_progress (List.length pages) a q) = Some a)
    /\ (forall q, attempt (refine_progress (List.length pages) q) = None)
    /\ attempt (fallback_progress (List.length pages)) = None.
Proof.
  intros Hmode Hrender Hrun.
  pose proof (render_progress file (dpi settings)) as Hlr.
  rewrite (compressPDF_target_eq _ _ Hmode), Hrender in *. cbn [snd] in Hlr.
  destruct Hlr as (Ha & Hs & Ho & Hp).
  destruct (target_size_mode_observable pages (List.length pages) sizeMB)
    as (qs & rs & fb & Hobs & Hcalls & Hq & Hr & Hfb & Hok).
  set (total := List.length pages) in *.
  assert (Hshape : exists fin,
             observable l
             = (lr ++ probe_block total sizeMB
                  ++ flat_map (bisect_block total) (combine (seq 1 (List.length qs)) qs)
                  ++ flat_map (refine_block total) rs ++ fb ++ fin)%list
             /\ assembled l = (1.0 :: qs ++ rs ++ assembled fb)%list
             /\ (fin = [] \/ fin = [EvProgress (complete_progress total)])
             /\ (forall res, r = inr res ->
                   fin <> []
                   /\ ((qs = [] /\ rs = [] /\ fb = []) \/ List.length qs = 6%nat))).
  { destruct (target_size_mode pages total sizeMB) as [[e | [b q]] ls];
      cbn [fst snd] in *; inversion Hrun; subst.
    - exists []. rewrite observable_app, assembled_app, Ho, Ha, Hobs, Hcalls.
      rewrite !app_nil_r. repeat split; auto; congruence.
    - exists [EvProgress (complete_progress total)].
      rewrite !observable_app, !assembled_app, Ho, Ha, Hobs, Hcalls. cbn [app].
      rewrite <- !app_assoc. cbn. rewrite !app_nil_r.
      repeat split; auto; try discriminate. eapply Hok; reflexivity. }
  destruct Hshape as (fin & Hobsl & Hcallsl & Hfin & Hres).
  exists qs, rs, fb, fin.
  refine (conj Hobsl (conj Hcallsl (conj Hq (conj Hr (conj Hfb (conj Hfin
            (conj Hres (conj Hp (conj _ (conj eq_refl (conj _ (conj _ eq_refl)))))))))))).
  - unfold reports_before_calls. rewrite reports_observable, Hobsl.
    unfold probe_block. cbn [app].
    rewrite reports_skip_progress by exact Ha. cbn [reports_before_calls_from].
    constructor; [split; [reflexivity | cbn; discriminate] |].
    rewrite reports_bisect_blocks. apply Forall_app. split.
    { apply Forall_forall. intros p Hin. apply in_map_iff in Hin.
      destruct Hin as (aq & <- & _). apply bisect_report. }
    rewrite reports_refine_blocks. apply Forall_app. split.
    { apply Forall_forall. intros p Hin. apply in_map_iff in Hin.
      destruct Hin as (q & <- & _). apply refine_report. }
    destruct Hfb as [-> | [-> _]]; destruct Hfin as [-> | ->]; cbn;
      repeat constructor; cbn; discriminate.
  - reflexivity.
  - reflexivity.
Qed.

End Runs.


End PdfTheory.

(** ** The theorems at concrete runs *)

Module PdfRuns.

Import Pdf PdfTheory.
Open Scope Q_scope.

Ltac run_fact :=
  first [ vm_compute; reflexivity
        | vm_compute; discriminate
        | vm_compute; intros Habs; apply Habs; reflexivity ].

Ltac run_facts :=
  repeat (match goal with |- exists _, _ => eexists end);
  repeat (match goal with |- _ /\ _ => split end);
  run_fact.

Section Scenario9.

#[local] Existing Instance linear_host.

Lemma fit_invariant_witness :
  exists res l q,
    compressPDF 3%nat (target_settings (500000 / 1048576))
    = (inr res, l)
    /\ finalQuality res = Some q
    /\ 0.1 < q
    /\ byte_size (blob res) <= target_bytes (500000 / 1048576)
    /\ compressedSize res = size (blob res).
Proof.
  assert (Hpre : exists res l q,
             compressPDF 3%nat
               (target_settings (500000 / 1048576)) = (inr res, l)
             /\ finalQuality res = Some q /\ 0.1 < q) by run_facts.
  destruct Hpre as (res & l & q & Hrun & Hq & Hlt).
  exists res, l, q. split; [exact Hrun |]. split; [exact Hq |]. split; [exact Hlt |].
  exact (fit_invariant 3%nat
           (target_settings (500000 / 1048576)) eq_refl Hrun Hq Hlt).
Defined.

(** The run of scenario 9: three pages, a budget of 500 000 bytes, an
    assembler whose blob is a million bytes times the quality. *)
Definition linear_pages : list (RenderedPage nat) :=
  rendered_pages 3%nat (target_settings (500000 / 1048576)).

Lemma bisection_phase_witness :
  exists original lr b1 res l,
    renderPagesToCanvases 3%nat 144
    = (inr (linear_pages, original), lr)
    /\ assemble_result linear_pages 1.0 = inr b1
    /\ ~ byte_size b1 <= target_bytes (500000 / 1048576)
    /\ compressPDF 3%nat (target_settings (500000 / 1048576))
       = (inr res, l)
    /\ exists bis later calls,
         states_of l = (initial_state :: bis ++ later)%list
         /\ minQuality (@initial_state (Q * N)) = 0.1
    /\ maxQuality (@initial_state (Q * N)) = 1.0
         /\ List.length bis = 6%nat
         /\ chain (bisect_step linear_pages (target_bytes (500000 / 1048576)))
              (initial_state :: bis)
         /\ assembled l
            = (1.0 :: map bisect_mid (removelast (initial_state :: bis)) ++ calls)%list
         /\ Forall (fun s => refinementPasses s = 0%nat) bis
         /\ Forall (fun s => (0 < refinementPasses s)%nat) later
         /\ (forall outcomes : list bool,
                List.length outcomes = 6%nat ->
                Binary64.near (Binary64.width (Binary64.bisect_loop outcomes))
                  ((1.0 - 0.1) / 2 ^ 6)
                /\ ~ Binary64.stated_width outcomes).
Proof.
  assert (Hpre : exists original lr b1 res l,
             renderPagesToCanvases 3%nat 144
             = (inr (linear_pages, original), lr)
             /\ assemble_result linear_pages 1.0 = inr b1
             /\ ~ byte_size b1 <= target_bytes (500000 / 1048576)
             /\ compressPDF 3%nat
                  (target_settings (500000 / 1048576)) = (inr res, l)) by run_facts.
  destruct Hpre as (original & lr & b1 & res & l & Hrender & Hprobe & Hbig & Hrun).
  exists original, lr, b1, res, l.
  split; [exact Hrender |]. split; [exact Hprobe |]. split; [exact Hbig |].
  split; [exact Hrun |].
  exact (bisection_phase 3%nat
           (target_settings (500000 / 1048576)) eq_refl Hrender Hprobe Hbig Hrun).
Defined.

(** Six blobs too big: in binary64 the bracket ends narrower than
    0.9 / 2^6, by 3 / (10 * 2^55), and is not what [(1.0 - 0.1) / 64]
    gives either. *)
Lemma bracket_width_inexact :
  ~ Binary64.stated_width [false; false; false; false; false; false].
Proof.
  intros [Hw | Hw]; vm_compute in Hw; discriminate.
Qed.

Lemma refinement_phase_witness :
  exists original lr b1 res l,
    renderPagesToCanvases 3%nat 144
    = (inr (linear_pages, original), lr)
    /\ assemble_result linear_pages 1.0 = inr b1
    /\ ~ byte_size b1 <= target_bytes (500000 / 1048576)
    /\ compressPDF 3%nat (target_settings (500000 / 1048576))
       = (inr res, l)
    /\ exists bis refined before after,
         states_of l = (initial_state :: bis ++ refined)%list
         /\ List.length bis = 6%nat
         /\ (bestBlob (last bis initial_state) = None -> refined = [])
         /\ (List.length refined <= 4)%nat
         /\ chain (refine_step linear_pages (target_bytes (500000 / 1048576)))
              (last bis initial_state :: refined)
         /\ assembled l
            = (before
               ++ map refine_mid (removelast (last bis initial_state :: refined))
               ++ after)%list
         /\ List.length before = 7%nat
         /\ (after = [] \/ after = [0.1])
         /\ (bestBlob (last refined (last bis initial_state)) = None
             \/ refinementPasses (last refined (last bis initial_state)) = 4%nat
             \/ maxQuality (last refined (last bis initial_state))
                - bestQuality (last refined (last bis initial_state)) < 0.005).
Proof.
  assert (Hpre : exists original lr b1 res l,
             renderPagesToCanvases 3%nat 144
             = (inr (linear_pages, original), lr)
             /\ assemble_result linear_pages 1.0 = inr b1
             /\ ~ byte_size b1 <= target_bytes (500000 / 1048576)
             /\ compressPDF 3%nat
                  (target_settings (500000 / 1048576)) = (inr res, l)) by run_facts.
  destruct Hpre as (original & lr & b1 & res & l & Hrender & Hprobe & Hbig & Hrun).
  exists original, lr, b1, res, l.
  split; [exact Hrender |]. split; [exact Hprobe |]. split; [exact Hbig |].
  split; [exact Hrun |].
  exact (refinement_phase 3%nat
           (target_settings (500000 / 1048576)) eq_refl Hrender Hprobe Hbig Hrun).
Defined.

Lemma bounded_call_count_witness :
  exists r l,
    compressPDF 3%nat (target_settings (500000 / 1048576))
    = (r, l)
    /\ (List.length (assembled l) <= 11)%nat
    /\ (forall pages original lr b,
          renderPagesToCanvases 3%nat
            (dpi (target_settings (500000 / 1048576)))
          = (inr (pages, original), lr) ->
          assemble_result pages 1.0 = inr b ->
          byte_size b <= target_bytes (500000 / 1048576) ->
          List.length (assembled l) = 1%nat).
Proof.
  assert (Hpre : exists r l,
             compressPDF 3%nat (target_settings (500000 / 1048576)) = (r, l))
    by run_facts.
  destruct Hpre as (r & l & Hrun).
  exists r, l. split; [exact Hrun |].
  exact (bounded_call_count 3%nat
           (target_settings (500000 / 1048576)) eq_refl Hrun).
Defined.

Lemma search_state_invariant_witness :
  exists original lr r l,
    renderPagesToCanvases 3%nat 144
    = (inr (linear_pages, original), lr)
    /\ compressPDF 3%nat (target_settings (500000 / 1048576))
       = (r, l)
    /\ states_of l <> []
    /\ Forall (fun s =>
         search_invariant linear_pages (target_bytes (500000 / 1048576)) s
         /\ minQuality s <= maxQuality s
         /\ (forall b, bestBlob s = Some b ->
               byte_size b <= target_bytes (500000 / 1048576)))
       (states_of l).
Proof.
  assert (Hpre : exists original lr r l,
             renderPagesToCanvases 3%nat 144
             = (inr (linear_pages, original), lr)
             /\ compressPDF 3%nat (target_settings (500000 / 1048576)) = (r, l))
    by run_facts.
  destruct Hpre as (original & lr & r & l & Hrender & Hrun).
  exists original, lr, r, l.
  split; [exact Hrender |]. split; [exact Hrun |].
  exact (search_state_invariant 3%nat
           (target_settings (500000 / 1048576)) eq_refl Hrender Hrun).
Defined.

Lemma progress_order_witness :
  exists original lr r l,
    renderPagesToCanvases 3%nat 144
    = (inr (linear_pages, original), lr)
    /\ compressPDF 3%nat (target_settings (500000 / 1048576))
       = (r, l)
    /\ exists qs rs fb fin,
         observable l
         = (lr ++ probe_block (List.length linear_pages) (500000 / 1048576)
              ++ flat_map (bisect_block (List.length linear_pages))
                   (combine (seq 1 (List.length qs)) qs)
              ++ flat_map (refine_block (List.length linear_pages)) rs
              ++ fb ++ fin)%list
         /\ assembled l = (1.0 :: qs ++ rs ++ assembled fb)%list
         /\ (List.length qs <= 6)%nat
         /\ (List.length rs <= 4)%nat
         /\ (fb = [] \/ (fb = fallback_block (List.length linear_pages) /\ rs = []))
         /\ (fin = []
             \/ fin = [EvProgress (complete_progress (List.length linear_pages))])
         /\ (forall res, r = inr res ->
               fin <> []
               /\ ((qs = [] /\ rs = [] /\ fb = []) \/ List.length qs = 6%nat))
         /\ Forall (fun p => stage p = loading \/ stage p = rendering) (progress_of lr)
         /\ Forall (fun p => stage p = optimizing /\ message p <> ""%string)
              (reports_before_calls l)
         /\ attempt (probe_progress (List.length linear_pages)) = Some 1%nat
         /\ (forall a q,
               attempt (bisect_progress (List.length linear_pages) a q) = Some a)
         /\ (forall q, attempt (refine_progress (List.length linear_pages) q) = None)
         /\ attempt (fallback_progress (List.length linear_pages)) = None.
Proof.
  assert (Hpre : exists original lr r l,
             renderPagesToCanvases 3%nat 144
             = (inr (linear_pages, original), lr)
             /\ compressPDF 3%nat (target_settings (500000 / 1048576)) = (r, l))
    by run_facts.
  destruct Hpre as (original & lr & r & l & Hrender & Hrun).
  exists original, lr, r, l.
  split; [exact Hrender |]. split; [exact Hrun |].
  exact (progress_order 3%nat
           (target_settings (500000 / 1048576)) eq_refl Hrender Hrun).
Defined.

(** ** Where the specification's wording fails *)

(** C7 as stated does not hold: in the run of scenario 9 the second
    refinement trial fits, [bestQuality] becomes 1273/2560 and
    [minQuality] stays at 79/160. *)
Lemma min_quality_lags_behind :
  ~ Forall (stated_invariant linear_pages (target_bytes (500000 / 1048576)))
      (states_of (snd (compressPDF 3%nat
                         (target_settings (500000 / 1048576))))).
Proof.
  intros Hall.
  assert (Hb : forallb min_is_best
                 (states_of (snd (compressPDF 3%nat
                                    (target_settings (500000 / 1048576))))) = true).
  { apply forallb_forall. intros s Hin.
    rewrite Forall_forall in Hall. destruct (Hall s Hin) as (_ & _ & Hmin & _).
    unfold min_is_best. destruct (bestBlob s); apply Qeq_bool_iff; exact Hmin. }
  vm_compute in Hb. discriminate.
Qed.

(** C8 as stated does not hold: in the run of scenario 9 the report in
    front of the first assembler call has the stage [optimizing], which
    is none of the four phase names (and the reports of the refinement
    trials carry no attempt index). *)
Lemma reports_not_as_stated :
  ~ Forall stated_report
      (reports_before_calls
         (snd (compressPDF 3%nat (target_settings (500000 / 1048576))))).
Proof.
  intros Hall.
  assert (Hb : forallb (fun p => match stage p with optimizing => false | _ => true end
                                 || match attempt p with None => false | Some _ => true end)
                 (reports_before_calls
                    (snd (compressPDF 3%nat (target_settings (500000 / 1048576)))))
               = true).
  { apply forallb_forall. intros p Hin.
    rewrite Forall_forall in Hall. destruct (Hall p Hin) as (Hstage & _ & _).
    clear Hall Hin.
    destruct (stage p); try reflexivity. exfalso. cbn in Hstage.
    repeat (destruct Hstage as [Hstage | Hstage]; [discriminate |]). exact Hstage. }
  vm_compute in Hb. discriminate.
Qed.

End Scenario9.

Section Scenario8.

#[local] Existing Instance small_host.

(** The run of scenario 8: a hundred kilobytes at the best quality, a
    budget of ten megabytes. *)
Definition small_pages : list (RenderedPage nat) :=
  rendered_pages 3%nat (target_settings 10).

Lemma ceiling_short_circuit_witness :
  exists original lr b,
    renderPagesToCanvases 3%nat 144
    = (inr (small_pages, original), lr)
    /\ assemble_result small_pages 1.0 = inr b
    /\ byte_size b <= target_bytes 10
    /\ exists res l,
         compressPDF 3%nat (target_settings 10)
         = (inr res, l)
         /\ blob res = b
         /\ finalQuality res = Some 1.0
         /\ assembled l = [1.0].
Proof.
  assert (Hpre : exists original lr b,
             renderPagesToCanvases 3%nat 144
             = (inr (small_pages, original), lr)
             /\ assemble_result small_pages 1.0 = inr b
             /\ byte_size b <= target_bytes 10).
  { run_facts. }
  destruct Hpre as (original & lr & b & Hrender & Hprobe & Hfit).
  exists original, lr, b.
  split; [exact Hrender |]. split; [exact Hprobe |]. split; [exact Hfit |].
  exact (ceiling_short_circuit 3%nat
           (target_settings 10) eq_refl Hrender Hprobe Hfit).
Defined.


End Scenario8.

Section Scenario10.

#[local] Existing Instance large_host.

(** The run of scenario 10: two million bytes at every quality, a budget
    of one million. *)
Definition large_pages : list (RenderedPage nat) :=
  rendered_pages 3%nat
    (target_settings (1000000 / 1048576)).

Lemma best_effort_fallback_witness :
  exists original lr,
    renderPagesToCanvases 3%nat 144
    = (inr (large_pages, original), lr)
    /\ (forall q, exists b, assemble_result large_pages q = inr b)
    /\ exists res l,
         compressPDF 3%nat
           (target_settings (1000000 / 1048576)) = (inr res, l)
         /\ (Forall (fun s => bestBlob s = None) (states_of l) ->
             assemble_result large_pages 0.1 = inr (blob res)
             /\ finalQuality res = Some 0.1
             /\ exists qs, assembled l = (1.0 :: qs ++ [0.1])%list
                           /\ List.length qs = 6%nat).
Proof.
  assert (Hpre : exists original lr,
             renderPagesToCanvases 3%nat 144
             = (inr (large_pages, original), lr)
             /\ (forall q, exists b, assemble_result large_pages q = inr b)).
  { do 2 eexists. split; [run_fact |]. intros q. eexists. reflexivity. }
  destruct Hpre as (original & lr & Hrender & Hok).
  exists original, lr. split; [exact Hrender |]. split; [exact Hok |].
  exact (best_effort_fallback 3%nat
           (target_settings (1000000 / 1048576)) eq_refl Hrender Hok).
Defined.


End Scenario10.

Section FloorFits.

#[local] Existing Instance affine_host.

(** C5 as stated does not hold: with pages whose blob is 900 000 bytes
    plus a million times the quality and a budget of 1 005 000 bytes, no
    bisection trial fits (the lowest tries quality 0.114), the fallback
    returns the blob assembled at 0.1, and that blob is 1 000 000 bytes
    long: within the budget. *)
Lemma fallback_blob_may_fit :
  ~ stated_fallback 3%nat
      (target_settings (1005000 / 1048576)).
Proof.
  intros Hclaim.
  assert (Hpre : exists res l,
             compressPDF 3%nat
               (target_settings (1005000 / 1048576)) = (inr res, l)
             /\ Forall (fun s => bestBlob s = None) (states_of l)
             /\ byte_size (blob res) <= target_bytes (1005000 / 1048576)).
  { do 2 eexists. split; [run_fact |]. split; [vm_compute; repeat constructor | run_fact]. }
  destruct Hpre as (res & l & Hrun & Hnone & Hfit).
  destruct (Hclaim _ res l eq_refl Hrun Hnone) as [_ Hbig]. exact (Hbig Hfit).
Qed.


End FloorFits.

End PdfRuns.


(* ================================================================== *)
(** * Part IV.  Theorems: the JSON formatter                            *)
(* ================================================================== *)

Module JsonTheory.

Import Json.

Open Scope N_scope.
Unset Implicit Arguments.

(** ** Characters and prefixes *)

(** Boolean tests on code units, as propositions [lia] can use. *)
Ltac chars :=
  repeat match goal with
         | H : _ && _ = true |- _ => apply andb_true_iff in H; destruct H
         | H : _ || _ = false |- _ => apply orb_false_iff in H; destruct H
         | H : negb _ = true |- _ => apply negb_true_iff in H
         | H : negb _ = false |- _ => apply negb_false_iff in H
         | H : (_ =? _) = true |- _ => apply N.eqb_eq in H
         | H : (_ =? _) = false |- _ => apply N.eqb_neq in H
         | H : (_ <=? _) = true |- _ => apply N.leb_le in H
         | H : (_ <=? _) = false |- _ => apply N.leb_gt in H
         | H : (_ <? _) = true |- _ => apply N.ltb_lt in H
         | H : (_ <? _) = false |- _ => apply N.ltb_ge in H
         end.

Lemma starts_with_Some (c : N) (s t : JsString) :
  starts_with c s = Some t -> s = c :: t.
Proof.
  destruct s as [|x s']; cbn; [discriminate|].
  destruct (x =? c) eqn:E; [|discriminate].
  intros [= <-]. apply N.eqb_eq in E. now subst.
Qed.

Lemma starts_with_cons (c : N) (t : JsString) : starts_with c (c :: t) = Some t.
Proof. cbn. now rewrite N.eqb_refl. Qed.

Lemma skip_ws_length (s : JsString) : (List.length (skip_ws s) <= List.length s)%nat.
Proof.
  induction s as [|c t IH]; cbn; [lia|].
  destruct (is_ws c); cbn; lia.
Qed.

Lemma span_digits_length (s ds r : JsString) :
  span_digits s = (ds, r) -> List.length s = (List.length ds + List.length r)%nat.
Proof.
  revert ds r; induction s as [|c t IH]; cbn; intros ds r.
  - intros [= <- <-]. reflexivity.
  - destruct (is_digit c).
    + destruct (span_digits t) as [ds' r'] eqn:E. intros [= <- <-].
      cbn. now rewrite (IH _ _ eq_refl).
    + intros [= <- <-]. reflexivity.
Qed.

Lemma parse_digits_inr (s ds r : JsString) :
  parse_digits s = inr (ds, r) -> span_digits s = (ds, r) /\ ds <> [].
Proof.
  unfold parse_digits. destruct (span_digits s) as [[|d ds'] r'].
  - discriminate.
  - intros [= <- <-]. split; [reflexivity | discriminate].
Qed.

Lemma parse_digits_length (s ds r : JsString) :
  parse_digits s = inr (ds, r) -> (List.length r < List.length s)%nat.
Proof.
  intros H. apply parse_digits_inr in H as [H Hne].
  apply span_digits_length in H. destruct ds; [easy|]. cbn in H. lia.
Qed.

Lemma strip_prefix_length (p s r : JsString) :
  strip_prefix p s = Some r -> List.length s = (List.length p + List.length r)%nat.
Proof.
  revert s; induction p as [|x p IH]; intros [|y s]; cbn; try discriminate.
  - now intros [= <-].
  - now intros [= <-].
  - destruct (x =? y); [|discriminate]. intros H. now rewrite (IH _ H).
Qed.

(** ** What is read is taken from the text *)

Lemma parse_string_chars_length (s cs r : JsString) :
  parse_string_chars s = inr (cs, r) -> (List.length r < List.length s)%nat.
Proof.
  remember (List.length s) as n eqn:Hn.
  assert (Hle : (List.length s <= n)%nat) by lia. clear Hn.
  revert s cs r Hle. induction n as [|n IH]; intros s cs r Hle.
  - destruct s; [discriminate | cbn in Hle; lia].
  - destruct s as [|c t]; [discriminate|]. cbn in Hle. cbn [parse_string_chars].
    destruct (c =? 34). { intros [= <- <-]. cbn. lia. }
    destruct (c =? 92).
    + destruct t as [|e t']; [discriminate|].
      destruct (e =? 117).
      * destruct t' as [|h1 [|h2 [|h3 [|h4 t'']]]]; try discriminate.
        destruct (hex4 h1 h2 h3 h4); [|discriminate].
        destruct (parse_string_chars t'') as [|[cs' r']] eqn:E; [discriminate|].
        intros [= <- <-]. apply IH in E; cbn in *; lia.
      * destruct (unescape e); [|discriminate].
        destruct (parse_string_chars t') as [|[cs' r']] eqn:E; [discriminate|].
        intros [= <- <-]. apply IH in E; cbn in *; lia.
    + destruct (c <? 32); [discriminate|].
      destruct (parse_string_chars t) as [|[cs' r']] eqn:E; [discriminate|].
      intros [= <- <-]. apply IH in E; cbn in *; lia.
Qed.

Lemma parse_sign_length (s s1 : JsString) (neg : bool) :
  parse_sign s = (neg, s1) -> (List.length s1 <= List.length s)%nat.
Proof.
  unfold parse_sign. destruct (starts_with 45 s) eqn:E; intros [= <- <-]; [|lia].
  apply starts_with_Some in E. subst. cbn. lia.
Qed.

Lemma parse_int_length (s ds r : JsString) :
  parse_int s = inr (ds, r) -> (List.length r < List.length s)%nat.
Proof.
  unfold parse_int. destruct (starts_with 48 s) eqn:E.
  - intros [= <- <-]. apply starts_with_Some in E. subst. cbn. lia.
  - apply parse_digits_length.
Qed.

Lemma parse_frac_length (s ds r : JsString) :
  parse_frac s = inr (ds, r) -> (List.length r <= List.length s)%nat.
Proof.
  unfold parse_frac. destruct (starts_with 46 s) eqn:E.
  - intros H. apply parse_digits_length in H. apply starts_with_Some in E.
    subst. cbn. lia.
  - intros [= <- <-]. lia.
Qed.

Lemma parse_exp_length (s r : JsString) (ex : Z) :
  parse_exp s = inr (ex, r) -> (List.length r <= List.length s)%nat.
Proof.
  unfold parse_exp. destruct s as [|e t]; [intros [= <- <-]; lia|].
  destruct ((e =? 101) || (e =? 69)); [|intros [= <- <-]; lia].
  destruct (starts_with 45 t) as [t'|] eqn:E1.
  - destruct (parse_digits t') as [|[ds r']] eqn:E; [discriminate|].
    intros [= <- <-]. apply parse_digits_length in E.
    apply starts_with_Some in E1. subst. cbn in *. lia.
  - destruct (starts_with 43 t) as [t'|] eqn:E2.
    + destruct (parse_digits t') as [|[ds r']] eqn:E; [discriminate|].
      intros [= <- <-]. apply parse_digits_length in E.
      apply starts_with_Some in E2. subst. cbn in *. lia.
    + destruct (parse_digits t) as [|[ds r']] eqn:E; [discriminate|].
      intros [= <- <-]. apply parse_digits_length in E. cbn. lia.
Qed.

Lemma parse_number_length (s r : JsString) (x : Number) :
  parse_number s = inr (x, r) -> (List.length r < List.length s)%nat.
Proof.
  unfold parse_number.
  destruct (parse_sign s) as [neg s1] eqn:E0.
  destruct (parse_int s1) as [|[int s2]] eqn:E1; [discriminate|].
  destruct (parse_frac s2) as [|[fr s3]] eqn:E2; [discriminate|].
  destruct (parse_exp s3) as [|[ex s4]] eqn:E3; [discriminate|].
  intros [= <- <-].
  apply parse_sign_length in E0. apply parse_int_length in E1.
  apply parse_frac_length in E2. apply parse_exp_length in E3. lia.
Qed.

Lemma expect_literal_length (lit s r : JsString) (v v' : Value) :
  lit <> [] -> expect_literal lit v s = inr (v', r) ->
  (List.length r < List.length s)%nat.
Proof.
  unfold expect_literal. intros Hne.
  destruct (strip_prefix lit s) eqn:E; [|discriminate].
  intros [= <- <-]. apply strip_prefix_length in E.
  destruct lit; [easy|]. cbn in E. lia.
Qed.


(** Facts on lengths a parser step gives. *)
Ltac lengths :=
  repeat match goal with
         | H : starts_with _ _ = Some _ |- _ => apply starts_with_Some in H
         | H : parse_string_chars _ = inr _ |- _ => apply parse_string_chars_length in H
         | H : parse_number _ = inr _ |- _ => apply parse_number_length in H
         | H : expect_literal _ _ _ = inr _ |- _ =>
             apply expect_literal_length in H; [|discriminate]
         end;
  repeat match goal with
         | H : context [skip_ws ?s] |- _ =>
             lazymatch goal with
             | _ : (List.length (skip_ws s) <= List.length s)%nat |- _ => fail
             | _ => pose proof (skip_ws_length s)
             end
         end.

Lemma parse_length (fuel : nat) :
  (forall s v r, parse_value fuel s = inr (v, r) ->
                 (List.length r < List.length s)%nat)
  /\ (forall acc s v r, parse_elements fuel acc s = inr (v, r) ->
                        (List.length r < List.length s)%nat)
  /\ (forall acc s v r, parse_members fuel acc s = inr (v, r) ->
                        (List.length r < List.length s)%nat).
Proof.
  induction fuel as [|fuel (IHv & IHe & IHm)].
  { repeat split; intros; discriminate. }
  refine (conj _ (conj _ _)).
  - intros s v r. cbn [parse_value].
    destruct (skip_ws s) as [|c t] eqn:Es; [discriminate|].
    pose proof (skip_ws_length s) as Hs. rewrite Es in Hs. cbn in Hs.
    destruct (c =? 123).
    { destruct (starts_with 125 (skip_ws t)) eqn:E.
      - intros [= <- <-]. lengths. rewrite E in *. cbn in *. lia.
      - intros H. apply IHm in H. lengths. lia. }
    destruct (c =? 91).
    { destruct (starts_with 93 (skip_ws t)) eqn:E.
      - intros [= <- <-]. lengths. rewrite E in *. cbn in *. lia.
      - intros H. apply IHe in H. lengths. lia. }
    destruct (c =? 34).
    { destruct (parse_string_chars t) as [|[cs r']] eqn:E; [discriminate|].
      intros [= <- <-]. lengths. lia. }
    destruct (is_digit c || (c =? 45)).
    { destruct (parse_number (c :: t)) as [|[x r']] eqn:E; [discriminate|].
      intros [= <- <-]. lengths. cbn in *. lia. }
    destruct (c =? 116). { intros H. lengths. cbn in *. lia. }
    destruct (c =? 102). { intros H. lengths. cbn in *. lia. }
    destruct (c =? 110). { intros H. lengths. cbn in *. lia. }
    discriminate.
  - intros acc s v r. cbn [parse_elements].
    destruct (parse_value fuel s) as [|[x r1]] eqn:E1; [discriminate|].
    apply IHv in E1.
    destruct (starts_with 44 (skip_ws r1)) eqn:E2.
    { intros H. apply IHe in H. lengths. rewrite E2 in *. cbn in *. lia. }
    destruct (starts_with 93 (skip_ws r1)) eqn:E3; [|discriminate].
    intros [= <- <-]. lengths. rewrite E3 in *. cbn in *. lia.
  - intros acc s v r. cbn [parse_members].
    destruct (starts_with 34 (skip_ws s)) as [t|] eqn:E1; [|discriminate].
    destruct (parse_string_chars t) as [|[k r1]] eqn:E2; [discriminate|].
    destruct (starts_with 58 (skip_ws r1)) as [r2|] eqn:E3; [|discriminate].
    destruct (parse_value fuel r2) as [|[x r3]] eqn:E4; [discriminate|].
    apply IHv in E4.
    destruct (starts_with 44 (skip_ws r3)) as [r4|] eqn:E5.
    { intros H. apply IHm in H. lengths. rewrite E1, E3, E5 in *. cbn in *. lia. }
    destruct (starts_with 125 (skip_ws r3)) eqn:E6; [|discriminate].
    intros [= <- <-]. lengths. rewrite E1, E3, E6 in *. cbn in *. lia.
Qed.

(** ** [JSON_parse] is total: the fuel it takes is never spent *)

Lemma unexpected_not_fuel (s : JsString) : unexpected s <> FuelExhausted.
Proof. destruct s; discriminate. Qed.

Lemma parse_string_chars_fuel (s : JsString) :
  parse_string_chars s <> inl FuelExhausted.
Proof.
  remember (List.length s) as n eqn:Hn.
  assert (Hle : (List.length s <= n)%nat) by lia. clear Hn.
  revert s Hle. induction n as [|n IH]; intros s Hle.
  - destruct s; [discriminate | cbn in Hle; lia].
  - destruct s as [|c t]; [discriminate|]. cbn in Hle. cbn [parse_string_chars].
    destruct (c =? 34); [discriminate|].
    destruct (c =? 92).
    + destruct t as [|e t']; [discriminate|].
      destruct (e =? 117).
      * assert (Hbad : forall r : JsString,
                   @inl ParseError (JsString * JsString) (unexpected r)
                   <> inl FuelExhausted).
        { intros r [= Hr]. now apply unexpected_not_fuel in Hr. }
        destruct t' as [|h1 [|h2 [|h3 [|h4 t'']]]]; try apply Hbad.
        destruct (hex4 h1 h2 h3 h4); [|apply Hbad].
        destruct (parse_string_chars t'') as [e'|[cs' r']] eqn:E; [|discriminate].
        intros [= ->]. apply (IH t''); [cbn in *; lia | assumption].
      * destruct (unescape e); [|discriminate].
        destruct (parse_string_chars t') as [e'|[cs' r']] eqn:E; [|discriminate].
        intros [= ->]. apply (IH t'); [cbn in *; lia | assumption].
    + destruct (c <? 32); [discriminate|].
      destruct (parse_string_chars t) as [e'|[cs' r']] eqn:E; [|discriminate].
      intros [= ->]. apply (IH t); [lia | assumption].
Qed.

Lemma parse_digits_fuel (s : JsString) : parse_digits s <> inl FuelExhausted.
Proof.
  unfold parse_digits. destruct (span_digits s) as [[|d ds] r]; [|discriminate].
  intros [= H]. now apply unexpected_not_fuel in H.
Qed.

Lemma parse_number_fuel (s : JsString) : parse_number s <> inl FuelExhausted.
Proof.
  unfold parse_number. destruct (parse_sign s) as [neg s1].
  destruct (parse_int s1) as [e|[int s2]] eqn:E1.
  { intros [= ->]. revert E1. unfold parse_int.
    destruct (starts_with 48 s1); [discriminate | apply parse_digits_fuel]. }
  destruct (parse_frac s2) as [e|[fr s3]] eqn:E2.
  { intros [= ->]. revert E2. unfold parse_frac.
    destruct (starts_with 46 s2); [apply parse_digits_fuel | discriminate]. }
  destruct (parse_exp s3) as [e|[ex s4]] eqn:E3; [|discriminate].
  intros [= ->]. revert E3. unfold parse_exp.
  destruct s3 as [|c t]; [discriminate|].
  destruct ((c =? 101) || (c =? 69)); [|discriminate].
  destruct (starts_with 45 t) as [t'|]; [|destruct (starts_with 43 t) as [t'|]].
  all: match goal with
       | |- context [parse_digits ?x] =>
           destruct (parse_digits x) as [e|[ds r]] eqn:E; [|discriminate];
           intros [= ->]; now apply parse_digits_fuel in E
       end.
Qed.

Lemma expect_literal_fuel (lit s : JsString) (v : Value) :
  expect_literal lit v s <> inl FuelExhausted.
Proof.
  unfold expect_literal. destruct (strip_prefix lit s); [discriminate|].
  intros [= H]. now apply unexpected_not_fuel in H.
Qed.

Lemma parse_fuel (fuel : nat) :
  (forall s, (2 * List.length s + 1 <= fuel)%nat ->
             parse_value fuel s <> inl FuelExhausted)
  /\ (forall acc s, (2 * List.length s + 2 <= fuel)%nat ->
                    parse_elements fuel acc s <> inl FuelExhausted)
  /\ (forall acc s, (2 * List.length s + 2 <= fuel)%nat ->
                    parse_members fuel acc s <> inl FuelExhausted).
Proof.
  induction fuel as [|fuel (IHv & IHe & IHm)].
  { repeat split; intros; lia. }
  refine (conj _ (conj _ _)).
  - intros s Hf. cbn [parse_value].
    destruct (skip_ws s) as [|c t] eqn:Es; [discriminate|].
    pose proof (skip_ws_length s) as Hs. rewrite Es in Hs. cbn in Hs.
    pose proof (skip_ws_length t) as Ht.
    destruct (c =? 123).
    { destruct (starts_with 125 (skip_ws t)); [discriminate|]. apply IHm. lia. }
    destruct (c =? 91).
    { destruct (starts_with 93 (skip_ws t)); [discriminate|]. apply IHe. lia. }
    destruct (c =? 34).
    { destruct (parse_string_chars t) as [e|[cs r']] eqn:E; [|discriminate].
      intros [= ->]. now apply parse_string_chars_fuel in E. }
    destruct (is_digit c || (c =? 45)).
    { destruct (parse_number (c :: t)) as [e|[x r']] eqn:E; [|discriminate].
      intros [= ->]. now apply parse_number_fuel in E. }
    destruct (c =? 116); [apply expect_literal_fuel|].
    destruct (c =? 102); [apply expect_literal_fuel|].
    destruct (c =? 110); [apply expect_literal_fuel|].
    discriminate.
  - intros acc s Hf. cbn [parse_elements].
    destruct (parse_value fuel s) as [e|[x r1]] eqn:E1.
    { intros [= ->]. apply (IHv s); [lia | assumption]. }
    apply (proj1 (parse_length fuel)) in E1.
    pose proof (skip_ws_length r1) as Hr.
    destruct (starts_with 44 (skip_ws r1)) as [r2|] eqn:E2.
    { apply starts_with_Some in E2. rewrite E2 in Hr. cbn in Hr. apply IHe. lia. }
    destruct (starts_with 93 (skip_ws r1)); [discriminate|].
    intros [= H]. now apply unexpected_not_fuel in H.
  - intros acc s Hf. cbn [parse_members].
    pose proof (skip_ws_length s) as Hs.
    destruct (starts_with 34 (skip_ws s)) as [t|] eqn:E1.
    2:{ intros [= H]. now apply unexpected_not_fuel in H. }
    apply starts_with_Some in E1. rewrite E1 in Hs. cbn in Hs.
    destruct (parse_string_chars t) as [e|[k r1]] eqn:E2.
    { intros [= ->]. now apply parse_string_chars_fuel in E2. }
    apply parse_string_chars_length in E2.
    pose proof (skip_ws_length r1) as Hr1.
    destruct (starts_with 58 (skip_ws r1)) as [r2|] eqn:E3.
    2:{ intros [= H]. now apply unexpected_not_fuel in H. }
    apply starts_with_Some in E3. rewrite E3 in Hr1. cbn in Hr1.
    destruct (parse_value fuel r2) as [e|[x r3]] eqn:E4.
    { intros [= ->]. apply (IHv r2); [lia | assumption]. }
    apply (proj1 (parse_length fuel)) in E4.
    pose proof (skip_ws_length r3) as Hr3.
    destruct (starts_with 44 (skip_ws r3)) as [r4|] eqn:E5.
    { apply starts_with_Some in E5. rewrite E5 in Hr3. cbn in Hr3.
      pose proof (skip_ws_length r4). apply IHm. lia. }
    destruct (starts_with 125 (skip_ws r3)); [discriminate|].
    intros [= H]. now apply unexpected_not_fuel in H.
Qed.

(** [JSON.parse] returns a value or throws a [SyntaxError]. *)
Lemma JSON_parse_fuel (text : JsString) : JSON_parse text <> inl FuelExhausted.
Proof.
  unfold JSON_parse.
  destruct (parse_value (2 * List.length text + 2) text) as [e|[v r]] eqn:E.
  - intros [= ->]. apply (proj1 (parse_fuel _)) in E; [assumption | lia].
  - destruct (skip_ws r); discriminate.
Qed.

(** ** Failure leaves the input as it is *)

Lemma js_app_nonempty (a b : JsString) : a <> [] -> a ++ b <> [].
Proof. destruct a; [easy | discriminate]. Qed.

Lemma error_message_nonempty (text : JsString) (e : ParseError) :
  e <> FuelExhausted -> error_message text e <> [].
Proof.
  destruct e as [|[|c rest]|]; [discriminate | discriminate | | easy].
  intros _. unfold error_message.
  destruct (is_digit c || (c =? 45)); [apply js_app_nonempty; discriminate|].
  destruct (c =? 34); apply js_app_nonempty; discriminate.
Qed.

Lemma trimStart_blank (s : JsString) :
  trimStart s = [] -> forallb is_js_space s = true.
Proof.
  induction s as [|c t IH]; cbn; [reflexivity|].
  destruct (is_js_space c); [exact IH | discriminate].
Qed.

Lemma trimStart_head (s : JsString) (c : N) (t : JsString) :
  trimStart s = c :: t -> is_js_space c = false.
Proof.
  induction s as [|x s IH]; cbn; [discriminate|].
  destruct (is_js_space x) eqn:E; [exact IH|]. now intros [= <- _].
Qed.

Lemma trim_blank (s : JsString) : trim s = [] -> forallb is_js_space s = true.
Proof.
  unfold trim, trimEnd. intros H.
  apply (f_equal (@rev N)) in H. rewrite rev_involutive in H. cbn in H.
  apply trimStart_blank in H.
  destruct (trimStart s) as [|c t] eqn:E; [now apply trimStart_blank|].
  apply trimStart_head in E.
  rewrite forallb_forall in H. rewrite (H c) in E; [discriminate|].
  apply in_rev. rewrite rev_involutive. now left.
Qed.

(** The white space of [trim] that JSON does not take as white space
    begins no JSON value. *)
Lemma js_space_no_token (c : N) :
  is_js_space c = true ->
  is_ws c = true \/
  ((c =? 123) = false /\ (c =? 91) = false /\ (c =? 34) = false
   /\ (is_digit c || (c =? 45)) = false /\ (c =? 116) = false
   /\ (c =? 102) = false /\ (c =? 110) = false).
Proof.
  unfold is_js_space, is_ws, is_digit. intros H.
  destruct ((c =? 32) || (c =? 9) || (c =? 10) || (c =? 13)) eqn:E; [now left|].
  right. repeat rewrite orb_true_iff in H. chars.
  repeat match goal with
         | |- _ /\ _ => split
         | |- (_ =? _) = false => apply N.eqb_neq
         | |- _ || _ = false => apply orb_false_iff; split
         | |- _ && _ = false => apply andb_false_iff
         end;
  try (repeat match goal with H : _ \/ _ |- _ => destruct H end; chars; lia).
  destruct (48 <=? c) eqn:E1; [right|now left]. apply N.leb_gt.
  repeat match goal with H : _ \/ _ |- _ => destruct H end; chars; lia.
Qed.

Lemma blank_parse_value (fuel : nat) (s : JsString) :
  forallb is_js_space s = true ->
  exists e, parse_value (S fuel) s = inl e.
Proof.
  induction s as [|c t IH]; intros H.
  - now exists UnexpectedEnd.
  - cbn in H. apply andb_true_iff in H as [Hc Ht].
    cbn [parse_value skip_ws].
    destruct (js_space_no_token c Hc) as [Hws|(H1 & H2 & H3 & H4 & H5 & H6 & H7)].
    + rewrite Hws. apply IH in Ht. exact Ht.
    + destruct (is_ws c); [now apply IH|].
      rewrite H1, H2, H3, H4, H5, H6, H7. eauto.
Qed.

(** The empty string and a string of white space are no JSON. *)
Remark blank_input_invalid (input : JsString) :
  trim input = [] -> ~ valid_json input.
Proof.
  intros H [v Hv]. apply trim_blank in H.
  unfold JSON_parse in Hv. replace (2 * List.length input + 2)%nat
    with (S (2 * List.length input + 1)) in Hv by lia.
  destruct (blank_parse_value (2 * List.length input + 1) input H) as [e He].
  rewrite He in Hv. discriminate.
Qed.

(** C9 (error atomicity of the JSON formatter).  For every input string
    that is not valid JSON, [formatJSON] (with any options) and
    [minifyJSON] return [success = false], the input itself as [output],
    and an error message that is not empty.  By [blank_input_invalid] the
    empty string and the strings of white space are among these inputs. *)
Theorem error_atomicity `{Engine} (input : JsString) (options : FormatOptions) :
  ~ valid_json input ->
  exists msg,
    msg <> []
    /\ formatJSON input options
       = {| success := false; output := input; error := Some msg |}
    /\ minifyJSON input
       = {| success := false; output := input; error := Some msg |}.
Proof.
  intros Hinvalid. unfold formatJSON, minifyJSON, validateJSON.
  destruct (trim input) as [|c t].
  - exists (js "Input is empty"). cbn. repeat split. discriminate.
  - destruct (JSON_parse input) as [e|v] eqn:E.
    + exists (error_message input e). cbn. repeat split.
      apply error_message_nonempty. intros ->. now apply JSON_parse_fuel in E.
    + exfalso. apply Hinvalid. now exists v.
Qed.
Lemma hex_digit_value (d : N) : d < 16 -> hex_value (hex_digit d) = Some d.
Proof.
  intros Hd. unfold hex_digit, hex_value, is_digit.
  destruct (d <? 10) eqn:E; chars.
  - replace ((48 <=? 48 + d) && (48 + d <=? 57)) with true
      by (symmetry; apply andb_true_iff; split; apply N.leb_le; lia).
    f_equal. lia.
  - replace ((48 <=? 87 + d) && (87 + d <=? 57)) with false
      by (symmetry; apply andb_false_iff; right; apply N.leb_gt; lia).
    replace ((97 <=? 87 + d) && (87 + d <=? 102)) with true
      by (symmetry; apply andb_true_iff; split; apply N.leb_le; lia).
    f_equal. lia.
Qed.

Lemma hex4_escape (c : N) :
  c < 65536 ->
  hex4 (hex_digit (c / 4096 mod 16)) (hex_digit (c / 256 mod 16))
       (hex_digit (c / 16 mod 16)) (hex_digit (c mod 16)) = Some c.
Proof.
  intros Hc. unfold hex4.
  rewrite !hex_digit_value by (apply N.mod_lt; discriminate).
  f_equal.
  assert (E256 : c / 256 = c / 16 / 16) by (now rewrite N.Div0.div_div).
  assert (E4096 : c / 4096 = c / 16 / 16 / 16) by (now rewrite !N.Div0.div_div).
  rewrite E256, E4096.
  pose proof (N.div_mod c 16) as H0.
  pose proof (N.div_mod (c / 16) 16) as H1.
  pose proof (N.div_mod (c / 16 / 16) 16) as H2.
  assert (H3 : c / 16 / 16 / 16 < 16).
  { rewrite <- E4096. apply N.Div0.div_lt_upper_bound. exact Hc. }
  rewrite (N.mod_small _ _ H3).
  specialize (H0 ltac:(discriminate)). specialize (H1 ltac:(discriminate)).
  specialize (H2 ltac:(discriminate)).
  lia.
Qed.

Lemma parse_literal_char (c : N) (s : JsString) :
  (c =? 34) = false -> (c =? 92) = false -> (c <? 32) = false ->
  parse_string_chars (c :: s) = continue_string c (parse_string_chars s).
Proof. intros H1 H2 H3. cbn [parse_string_chars]. now rewrite H1, H2, H3. Qed.

Lemma parse_escaped_char (e u : N) (s : JsString) :
  (e =? 117) = false -> unescape e = Some u ->
  parse_string_chars (92 :: e :: s) = continue_string u (parse_string_chars s).
Proof.
  intros H1 H2. cbn [parse_string_chars].
  change (92 =? 34) with false. change (92 =? 92) with true. cbn match.
  now rewrite H1, H2.
Qed.

Lemma parse_unicode_escape (c : N) (s : JsString) :
  c < 65536 ->
  parse_string_chars (unicode_escape c ++ s)
  = continue_string c (parse_string_chars s).
Proof.
  intros Hc. unfold unicode_escape.
  change (js "\u") with [92; 117]. cbn [app parse_string_chars].
  change (92 =? 34) with false. change (92 =? 92) with true.
  change (117 =? 117) with true. cbn match.
  now rewrite (hex4_escape c Hc).
Qed.

Lemma parse_quote_chars (s rest : JsString) :
  parse_string_chars (quote_chars s ++ 34 :: rest) = inr (s, rest).
Proof.
  remember (List.length s) as n eqn:Hn.
  assert (Hle : (List.length s <= n)%nat) by lia. clear Hn.
  revert s Hle. induction n as [|n IH]; intros s Hle.
  { destruct s; [reflexivity | cbn in Hle; lia]. }
  destruct s as [|c t]; [reflexivity|]. cbn in Hle.
  assert (IHt : parse_string_chars (quote_chars t ++ 34 :: rest) = inr (t, rest))
    by (apply IH; lia).
  cbn [quote_chars].
  destruct (c =? 8) eqn:E8.
  { chars; subst. change (js "\b") with [92; 98]. cbn [app].
    rewrite (parse_escaped_char 98 8) by reflexivity. now rewrite IHt. }
  destruct (c =? 9) eqn:E9.
  { chars; subst. change (js "\t") with [92; 116]. cbn [app].
    rewrite (parse_escaped_char 116 9) by reflexivity. now rewrite IHt. }
  destruct (c =? 10) eqn:E10.
  { chars; subst. change (js "\n") with [92; 110]. cbn [app].
    rewrite (parse_escaped_char 110 10) by reflexivity. now rewrite IHt. }
  destruct (c =? 12) eqn:E12.
  { chars; subst. change (js "\f") with [92; 102]. cbn [app].
    rewrite (parse_escaped_char 102 12) by reflexivity. now rewrite IHt. }
  destruct (c =? 13) eqn:E13.
  { chars; subst. change (js "\r") with [92; 114]. cbn [app].
    rewrite (parse_escaped_char 114 13) by reflexivity. now rewrite IHt. }
  destruct (c =? 34) eqn:E34.
  { chars; subst. cbn [app].
    rewrite (parse_escaped_char 34 34) by reflexivity. now rewrite IHt. }
  destruct (c =? 92) eqn:E92.
  { chars; subst. cbn [app].
    rewrite (parse_escaped_char 92 92) by reflexivity. now rewrite IHt. }
  destruct (c <? 32) eqn:E32.
  { rewrite <- app_assoc, parse_unicode_escape by (chars; lia). now rewrite IHt. }
  destruct (is_high_surrogate c) eqn:Eh.
  { unfold is_high_surrogate in Eh.
    destruct t as [|d t'].
    - cbn [app]. rewrite parse_unicode_escape by (chars; lia). reflexivity.
    - destruct (is_low_surrogate d) eqn:El.
      + unfold is_low_surrogate in El. cbn [app].
        rewrite parse_literal_char by assumption.
        rewrite parse_literal_char
          by (chars; first [apply N.eqb_neq | apply N.ltb_ge]; lia).
        rewrite IH by (cbn in Hle; lia). reflexivity.
      + rewrite <- app_assoc, parse_unicode_escape by (chars; lia). now rewrite IHt. }
  destruct (is_low_surrogate c) eqn:El.
  { unfold is_low_surrogate in El.
    rewrite <- app_assoc, parse_unicode_escape by (chars; lia). now rewrite IHt. }
  cbn [app]. rewrite parse_literal_char by assumption. now rewrite IHt.
Qed.

(** ** A number literal is read the same in front of what cannot
       continue it *)

Lemma number_stop_head (c : N) (rest : JsString) :
  number_stop (c :: rest) = true ->
  is_digit c = false /\ (c =? 46) = false /\ (c =? 101) = false /\ (c =? 69) = false.
Proof.
  cbn. intros H. apply negb_true_iff in H.
  repeat (apply orb_false_iff in H; destruct H as [H ?]). auto.
Qed.

Lemma starts_with_app (c : N) (s t rest : JsString) :
  starts_with c s = Some t -> starts_with c (s ++ rest) = Some (t ++ rest).
Proof. intros H. apply starts_with_Some in H. subst. apply starts_with_cons. Qed.

Lemma starts_with_app_None (c : N) (s rest : JsString) :
  starts_with c s = None -> s <> [] -> starts_with c (s ++ rest) = None.
Proof. destruct s as [|x s]; [easy|]. cbn. now destruct (x =? c). Qed.

Lemma span_digits_app (s ds r rest : JsString) :
  span_digits s = (ds, r) -> (r = [] -> number_stop rest = true) ->
  span_digits (s ++ rest) = (ds, r ++ rest).
Proof.
  revert ds r. induction s as [|c t IH]; intros ds r.
  - cbn. intros [= <- <-] Hstop. specialize (Hstop eq_refl).
    destruct rest as [|x rest]; [reflexivity|].
    apply number_stop_head in Hstop as (Hd & _). cbn. now rewrite Hd.
  - cbn. destruct (is_digit c).
    + destruct (span_digits t) as [ds' r'] eqn:E. intros [= <- <-] Hstop.
      now rewrite (IH _ _ eq_refl Hstop).
    + now intros [= <- <-] _.
Qed.

Lemma parse_digits_app (s ds r rest : JsString) :
  parse_digits s = inr (ds, r) -> (r = [] -> number_stop rest = true) ->
  parse_digits (s ++ rest) = inr (ds, r ++ rest).
Proof.
  intros H Hstop. apply parse_digits_inr in H as [H Hne].
  unfold parse_digits. rewrite (span_digits_app _ _ _ _ H Hstop).
  destruct ds; [easy | reflexivity].
Qed.

Lemma parse_digits_nonempty (s ds r : JsString) :
  parse_digits s = inr (ds, r) -> s <> [].
Proof. intros H ->. discriminate. Qed.

Lemma parse_int_app (s ds r rest : JsString) :
  parse_int s = inr (ds, r) -> (r = [] -> number_stop rest = true) ->
  parse_int (s ++ rest) = inr (ds, r ++ rest).
Proof.
  unfold parse_int. destruct (starts_with 48 s) as [t|] eqn:E.
  - intros [= <- <-] _. now rewrite (starts_with_app _ _ _ _ E).
  - intros H Hstop.
    rewrite (starts_with_app_None _ _ _ E (parse_digits_nonempty _ _ _ H)).
    now apply parse_digits_app.
Qed.

Lemma parse_frac_app (s ds r rest : JsString) :
  parse_frac s = inr (ds, r) -> (r = [] -> number_stop rest = true) ->
  parse_frac (s ++ rest) = inr (ds, r ++ rest).
Proof.
  unfold parse_frac. destruct (starts_with 46 s) as [t|] eqn:E.
  - intros H Hstop. rewrite (starts_with_app _ _ _ _ E). now apply parse_digits_app.
  - intros [= <- <-] Hstop. destruct s as [|c s].
    + specialize (Hstop eq_refl). destruct rest as [|x rest]; [reflexivity|].
      apply number_stop_head in Hstop as (_ & Hdot & _). cbn. now rewrite Hdot.
    + now rewrite (starts_with_app_None _ _ _ E) by discriminate.
Qed.

Lemma parse_exp_app (s r rest : JsString) (ex : Z) :
  parse_exp s = inr (ex, r) -> (r = [] -> number_stop rest = true) ->
  parse_exp (s ++ rest) = inr (ex, r ++ rest).
Proof.
  destruct s as [|e t].
  - cbn. intros [= <- <-] Hstop. specialize (Hstop eq_refl).
    destruct rest as [|x rest]; [reflexivity|].
    apply number_stop_head in Hstop as (_ & _ & He & HE). cbn.
    now rewrite He, HE.
  - cbn [app parse_exp]. destruct ((e =? 101) || (e =? 69)); [|now intros [= <- <-]].
    destruct (starts_with 45 t) as [t'|] eqn:E1.
    { rewrite (starts_with_app _ _ _ _ E1).
      destruct (parse_digits t') as [|[ds r']] eqn:E; [discriminate|].
      intros [= <- <-] Hstop. now rewrite (parse_digits_app _ _ _ _ E Hstop). }
    destruct (starts_with 43 t) as [t'|] eqn:E2.
    { destruct t as [|x t]; [discriminate|].
      rewrite (starts_with_app_None _ _ _ E1) by discriminate.
      rewrite (starts_with_app _ _ _ _ E2).
      destruct (parse_digits t') as [|[ds r']] eqn:E; [discriminate|].
      intros [= <- <-] Hstop. now rewrite (parse_digits_app _ _ _ _ E Hstop). }
    destruct (parse_digits t) as [|[ds r']] eqn:E; [discriminate|].
    intros [= <- <-] Hstop.
    pose proof (parse_digits_nonempty _ _ _ E) as Hne.
    rewrite (starts_with_app_None _ _ _ E1 Hne), (starts_with_app_None _ _ _ E2 Hne).
    now rewrite (parse_digits_app _ _ _ _ E Hstop).
Qed.

Lemma parse_number_app (s r rest : JsString) (x : Number) :
  parse_number s = inr (x, r) -> (r = [] -> number_stop rest = true) ->
  parse_number (s ++ rest) = inr (x, r ++ rest).
Proof.
  unfold parse_number.
  destruct (parse_sign s) as [neg s1] eqn:E0.
  destruct (parse_int s1) as [|[int s2]] eqn:E1; [discriminate|].
  destruct (parse_frac s2) as [|[fr s3]] eqn:E2; [discriminate|].
  destruct (parse_exp s3) as [|[ex s4]] eqn:E3; [discriminate|].
  intros [= <- <-] Hstop.
  assert (H3 : s3 = [] -> s4 = []) by (intros ->; now injection E3 as _ <-).
  assert (H2 : s2 = [] -> s3 = []) by (intros ->; now injection E2 as _ <-).
  assert (E0' : parse_sign (s ++ rest) = (neg, s1 ++ rest)).
  { revert E0. unfold parse_sign. destruct (starts_with 45 s) as [t|] eqn:E.
    - intros [= <- <-]. now rewrite (starts_with_app _ _ _ _ E).
    - intros [= <- <-]. rewrite (starts_with_app_None _ _ _ E); [reflexivity|].
      intros ->. discriminate. }
  rewrite E0'.
  rewrite (parse_int_app _ _ _ rest E1) by auto.
  rewrite (parse_frac_app _ _ _ rest E2) by auto.
  rewrite (parse_exp_app _ _ rest _ E3) by auto.
  reflexivity.
Qed.

(** A number literal begins with a digit or a minus sign. *)
Lemma parse_number_head (s r : JsString) (x : Number) :
  parse_number s = inr (x, r) ->
  exists c t, s = c :: t /\ (is_digit c || (c =? 45)) = true.
Proof.
  unfold parse_number, parse_sign.
  destruct (starts_with 45 s) as [t|] eqn:E0.
  { intros _. apply starts_with_Some in E0. exists 45, t. now split. }
  destruct (parse_int s) as [|[int s2]] eqn:E1; [discriminate|]. intros _.
  revert E1. unfold parse_int.
  destruct (starts_with 48 s) as [t|] eqn:E.
  { intros _. apply starts_with_Some in E. exists 48, t. now split. }
  intros H. apply parse_digits_inr in H as [H Hne].
  destruct s as [|c t]; [now injection H as <- _|]. exists c, t. split; [reflexivity|].
  cbn in H. destruct (is_digit c); [reflexivity|]. now injection H as <- _.
Qed.

(** ** More fuel reads the same *)

Lemma parse_fuel_mono (fuel : nat) :
  (forall s fuel', parse_value fuel s <> inl FuelExhausted -> (fuel <= fuel')%nat ->
                   parse_value fuel' s = parse_value fuel s)
  /\ (forall acc s fuel', parse_elements fuel acc s <> inl FuelExhausted ->
                          (fuel <= fuel')%nat ->
                          parse_elements fuel' acc s = parse_elements fuel acc s)
  /\ (forall acc s fuel', parse_members fuel acc s <> inl FuelExhausted ->
                          (fuel <= fuel')%nat ->
                          parse_members fuel' acc s = parse_members fuel acc s).
Proof.
  induction fuel as [|fuel (IHv & IHe & IHm)].
  { repeat split; intros; now cbn in *. }
  refine (conj _ (conj _ _)).
  - intros s [|f'] Hne Hle; [lia|]. assert (Hf : (fuel <= f')%nat) by lia.
    cbn [parse_value] in *.
    destruct (skip_ws s) as [|c t]; [reflexivity|].
    destruct (c =? 123).
    { destruct (starts_with 125 (skip_ws t)); [reflexivity | now apply IHm]. }
    destruct (c =? 91); [|reflexivity].
    destruct (starts_with 93 (skip_ws t)); [reflexivity | now apply IHe].
  - intros acc s [|f'] Hne Hle; [lia|]. assert (Hf : (fuel <= f')%nat) by lia.
    cbn [parse_elements] in *.
    assert (Ev : parse_value f' s = parse_value fuel s).
    { apply IHv; [|exact Hf]. intros Hx. rewrite Hx in Hne. now apply Hne. }
    rewrite Ev. destruct (parse_value fuel s) as [e|[v r]]; [reflexivity|].
    destruct (starts_with 44 (skip_ws r)); [now apply IHe | reflexivity].
  - intros acc s [|f'] Hne Hle; [lia|]. assert (Hf : (fuel <= f')%nat) by lia.
    cbn [parse_members] in *.
    destruct (starts_with 34 (skip_ws s)) as [t|]; [|reflexivity].
    destruct (parse_string_chars t) as [e|[k r1]]; [reflexivity|].
    destruct (starts_with 58 (skip_ws r1)) as [r2|]; [|reflexivity].
    assert (Ev : parse_value f' r2 = parse_value fuel r2).
    { apply IHv; [|exact Hf]. intros Hx. rewrite Hx in Hne. now apply Hne. }
    rewrite Ev. destruct (parse_value fuel r2) as [e|[v r3]]; [reflexivity|].
    destruct (starts_with 44 (skip_ws r3)); [now apply IHm | reflexivity].
Qed.

(** What some fuel reads as a value, [JSON_parse] reads too. *)
Lemma JSON_parse_value (fuel : nat) (text : JsString) (v : Value) (r : JsString) :
  parse_value fuel text = inr (v, r) -> skip_ws r = [] ->
  JSON_parse text = inr v.
Proof.
  intros H Hr. unfold JSON_parse.
  assert (E : parse_value (2 * List.length text + 2) text = inr (v, r)).
  { destruct (Nat.le_ge_cases fuel (2 * List.length text + 2)) as [Hle|Hle].
    - rewrite (proj1 (parse_fuel_mono fuel) text _); [exact H | | exact Hle].
      rewrite H. discriminate.
    - rewrite <- H. symmetry.
      apply (proj1 (parse_fuel_mono _)); [|exact Hle].
      apply (proj1 (parse_fuel _)). lia. }
  rewrite E, Hr. reflexivity.
Qed.

(** What [JSON_parse] returns was read with its fuel. *)
Lemma JSON_parse_inr (text : JsString) (v : Value) :
  JSON_parse text = inr v ->
  exists r, parse_value (2 * List.length text + 2) text = inr (v, r).
Proof.
  unfold JSON_parse.
  destruct (parse_value (2 * List.length text + 2) text) as [e|[v' r]];
    [discriminate|].
  destruct (skip_ws r); [|discriminate]. intros [= <-]. now exists r.
Qed.

(** ** Objects keep their properties in enumeration order *)

Lemma string_eqb_sym (a b : JsString) : string_eqb a b = string_eqb b a.
Proof.
  revert b; induction a as [|x a IH]; intros [|y b]; cbn; try reflexivity.
  now rewrite N.eqb_sym, IH.
Qed.

Lemma has_key_existsb (k : JsString) (props : list (JsString * Value)) :
  has_key k props = existsb (string_eqb k) (map fst props).
Proof.
  induction props as [|[k' v'] rest IH]; cbn; [reflexivity | now rewrite IH].
Qed.

Lemma replace_value_keys (k : JsString) (v : Value) (props : list (JsString * Value)) :
  map fst (replace_value k v props) = map fst props.
Proof.
  induction props as [|[k' v'] rest IH]; cbn; [reflexivity|].
  destruct (string_eqb k k'); cbn; [reflexivity | now rewrite IH].
Qed.

Lemma insert_index_forallb (P : JsString -> bool) (i : Z) (k : JsString) (v : Value)
    (props : list (JsString * Value)) :
  forallb P (map fst (insert_index i k v props))
  = P k && forallb P (map fst props).
Proof.
  induction props as [|[k' v'] rest IH]; cbn; [reflexivity|].
  destruct (array_index k') as [j|]; [destruct (j <=? i)%Z|]; cbn;
    try reflexivity.
  rewrite IH. now destruct (P k), (P k').
Qed.

Lemma key_before_fresh (k x : JsString) (i : Z) :
  string_eqb k x = false -> array_index k = Some i ->
  match array_index x with Some j => (i <=? j)%Z | None => true end = true ->
  key_before k x = true.
Proof.
  intros Hne Hk Hx. unfold key_before. rewrite Hne, Hk. cbn.
  now destruct (array_index x).
Qed.

Lemma insert_index_ordered (i : Z) (k : JsString) (v : Value)
    (props : list (JsString * Value)) :
  array_index k = Some i -> has_key k props = false ->
  ordered_keys (map fst props) = true ->
  ordered_keys (map fst (insert_index i k v props)) = true.
Proof.
  intros Hk. induction props as [|[k' v'] rest IH]; [reflexivity|].
  cbn [has_key map fst ordered_keys insert_index].
  intros Hfresh Hord.
  apply orb_false_iff in Hfresh as [Hne Hfresh].
  apply andb_true_iff in Hord as [Hhead Hord].
  assert (Hlater : forall j, array_index k' = Some j -> (i < j)%Z ->
                   forallb (key_before k) (map fst rest) = true).
  { intros j Hj Hlt. apply forallb_forall. intros x Hx.
    rewrite forallb_forall in Hhead. specialize (Hhead x Hx).
    rewrite has_key_existsb in Hfresh.
    assert (Hnx : string_eqb k x = false).
    { destruct (string_eqb k x) eqn:E; [|reflexivity].
      rewrite <- Hfresh. symmetry. apply existsb_exists. now exists x. }
    apply (key_before_fresh k x i Hnx Hk).
    unfold key_before in Hhead. rewrite Hj in Hhead.
    apply andb_true_iff in Hhead as [_ Hhead].
    destruct (array_index x) as [j'|]; [|reflexivity].
    apply Z.leb_le in Hhead. apply Z.leb_le. lia. }
  destruct (array_index k') as [j|] eqn:Hk'.
  - destruct (j <=? i)%Z eqn:Hji.
    + cbn [map fst ordered_keys]. rewrite insert_index_forallb.
      rewrite Hhead, (IH Hfresh Hord), !andb_true_r.
      unfold key_before. rewrite Hk', Hk, Hji, string_eqb_sym, Hne. reflexivity.
    + cbn [map fst ordered_keys forallb]. rewrite Hhead, Hord, !andb_true_r.
      apply Z.leb_gt in Hji.
      rewrite (Hlater j eq_refl Hji), andb_true_r.
      apply (key_before_fresh k k' i Hne Hk). rewrite Hk'. apply Z.leb_le. lia.
  - cbn [map fst ordered_keys forallb]. rewrite Hhead, Hord, !andb_true_r.
    apply andb_true_iff. split.
    + apply (key_before_fresh k k' i Hne Hk). now rewrite Hk'.
    + apply forallb_forall. intros x Hx.
      rewrite forallb_forall in Hhead. specialize (Hhead x Hx).
      rewrite has_key_existsb in Hfresh.
      assert (Hnx : string_eqb k x = false).
      { destruct (string_eqb k x) eqn:E; [|reflexivity].
        rewrite <- Hfresh. symmetry. apply existsb_exists. now exists x. }
      apply (key_before_fresh k x i Hnx Hk).
      unfold key_before in Hhead. rewrite Hk' in Hhead.
      apply andb_true_iff in Hhead as [_ Hhead].
      now destruct (array_index x).
Qed.

Lemma ordered_keys_snoc (ks : list JsString) (k : JsString) :
  ordered_keys (ks ++ [k])
  = ordered_keys ks && forallb (fun x => key_before x k) ks.
Proof.
  induction ks as [|x ks IH]; [reflexivity|].
  cbn [app ordered_keys forallb]. rewrite IH, forallb_app. cbn [forallb].
  rewrite andb_true_r.
  destruct (forallb (key_before x) ks), (key_before x k), (ordered_keys ks);
    reflexivity.
Qed.

Lemma obj_set_ordered (k : JsString) (v : Value) (props : list (JsString * Value)) :
  ordered_keys (map fst props) = true ->
  ordered_keys (map fst (obj_set k v props)) = true.
Proof.
  intros Hord. unfold obj_set.
  destruct (has_key k props) eqn:Hfresh.
  { now rewrite replace_value_keys. }
  destruct (array_index k) as [i|] eqn:Hk.
  { now apply insert_index_ordered. }
  rewrite map_app. cbn [map fst]. rewrite ordered_keys_snoc, Hord. cbn [andb].
  apply forallb_forall. intros x Hx.
  rewrite has_key_existsb in Hfresh.
  unfold key_before. rewrite Hk.
  assert (Hnx : string_eqb x k = false).
  { rewrite string_eqb_sym. destruct (string_eqb k x) eqn:E; [|reflexivity].
    rewrite <- Hfresh. symmetry. apply existsb_exists. now exists x. }
  rewrite Hnx. now destruct (array_index x).
Qed.

Lemma obj_set_forallb (Q : Value -> bool) (k : JsString) (v : Value)
    (props : list (JsString * Value)) :
  Q v = true ->
  forallb (fun kv : JsString * Value => Q (snd kv)) props = true ->
  forallb (fun kv : JsString * Value => Q (snd kv)) (obj_set k v props) = true.
Proof.
  intros Hv Hall. unfold obj_set. destruct (has_key k props).
  { induction props as [|[k' v'] rest IH]; [reflexivity|].
    cbn in *. apply andb_true_iff in Hall as [H1 H2].
    destruct (string_eqb k k'); cbn; [now rewrite Hv | now rewrite H1, IH]. }
  destruct (array_index k) as [i|].
  - induction props as [|[k' v'] rest IH]; [cbn; now rewrite Hv|].
    cbn in *. apply andb_true_iff in Hall as [H1 H2].
    destruct (array_index k') as [j|]; [destruct (j <=? i)%Z|]; cbn;
      rewrite ?Hv, ?H1, ?H2; auto.
  - rewrite forallb_app, Hall. cbn. now rewrite Hv.
Qed.

Lemma obj_set_canonical (k : JsString) (v : Value) (props : list (JsString * Value)) :
  canonical v = true -> canonical (JObject props) = true ->
  canonical (JObject (obj_set k v props)) = true.
Proof.
  cbn [canonical]. intros Hv H. apply andb_true_iff in H as [H1 H2].
  apply andb_true_iff. split.
  - now apply obj_set_ordered.
  - now apply obj_set_forallb.
Qed.

(** [JSON.parse] returns canonical values. *)
Lemma parse_canonical (fuel : nat) :
  (forall s v r, parse_value fuel s = inr (v, r) -> canonical v = true)
  /\ (forall acc s v r, parse_elements fuel acc s = inr (v, r) ->
                        forallb canonical acc = true -> canonical v = true)
  /\ (forall acc s v r, parse_members fuel acc s = inr (v, r) ->
                        canonical (JObject acc) = true -> canonical v = true).
Proof.
  induction fuel as [|fuel (IHv & IHe & IHm)].
  { repeat split; intros; discriminate. }
  refine (conj _ (conj _ _)).
  - intros s v r. cbn [parse_value].
    destruct (skip_ws s) as [|c t]; [discriminate|].
    destruct (c =? 123).
    { destruct (starts_with 125 (skip_ws t)).
      - now intros [= <- <-].
      - intros H. now apply IHm in H. }
    destruct (c =? 91).
    { destruct (starts_with 93 (skip_ws t)).
      - now intros [= <- <-].
      - intros H. now apply IHe in H. }
    destruct (c =? 34).
    { destruct (parse_string_chars t) as [|[cs r']]; [discriminate|].
      now intros [= <- <-]. }
    destruct (is_digit c || (c =? 45)).
    { destruct (parse_number (c :: t)) as [|[x r']]; [discriminate|].
      now intros [= <- <-]. }
    unfold expect_literal.
    destruct (c =? 116).
    { destruct (strip_prefix _ _); [now intros [= <- <-] | discriminate]. }
    destruct (c =? 102).
    { destruct (strip_prefix _ _); [now intros [= <- <-] | discriminate]. }
    destruct (c =? 110).
    { destruct (strip_prefix _ _); [now intros [= <- <-] | discriminate]. }
    discriminate.
  - intros acc s v r. cbn [parse_elements].
    destruct (parse_value fuel s) as [|[x r1]] eqn:E1; [discriminate|].
    apply IHv in E1. intros H Hacc.
    assert (Hacc' : forallb canonical (acc ++ [x]) = true).
    { rewrite forallb_app, Hacc. cbn. now rewrite E1. }
    destruct (starts_with 44 (skip_ws r1)).
    { now apply IHe in H. }
    destruct (starts_with 93 (skip_ws r1)); [|discriminate].
    now injection H as <- <-.
  - intros acc s v r. cbn [parse_members].
    destruct (starts_with 34 (skip_ws s)) as [t|]; [|discriminate].
    destruct (parse_string_chars t) as [|[k r1]]; [discriminate|].
    destruct (starts_with 58 (skip_ws r1)) as [r2|]; [|discriminate].
    destruct (parse_value fuel r2) as [|[x r3]] eqn:E4; [discriminate|].
    apply IHv in E4. intros H Hacc.
    pose proof (obj_set_canonical k x acc E4 Hacc) as Hacc'.
    destruct (starts_with 44 (skip_ws r3)) as [r4|].
    { now apply IHm in H. }
    destruct (starts_with 125 (skip_ws r3)); [|discriminate].
    now injection H as <- <-.
Qed.

Lemma JSON_parse_canonical (text : JsString) (v : Value) :
  JSON_parse text = inr v -> canonical v = true.
Proof.
  intros H. apply JSON_parse_inr in H as [r H].
  now apply (proj1 (parse_canonical _)) in H.
Qed.

(** An ordered list of properties is the object its properties build. *)
Lemma insert_index_snoc (i : Z) (k : JsString) (v : Value)
    (props : list (JsString * Value)) :
  array_index k = Some i ->
  forallb (fun x => key_before x k) (map fst props) = true ->
  insert_index i k v props = props ++ [(k, v)].
Proof.
  intros Hk. induction props as [|[k' v'] rest IH]; [reflexivity|].
  cbn [map fst forallb insert_index app]. intros H.
  apply andb_true_iff in H as [H1 H2].
  unfold key_before in H1. rewrite Hk in H1.
  apply andb_true_iff in H1 as [_ H1].
  destruct (array_index k') as [j|]; [|discriminate].
  rewrite H1. now rewrite IH.
Qed.

Lemma obj_set_snoc (k : JsString) (v : Value) (props : list (JsString * Value)) :
  forallb (fun x => key_before x k) (map fst props) = true ->
  obj_set k v props = props ++ [(k, v)].
Proof.
  intros H. unfold obj_set.
  assert (Hfresh : has_key k props = false).
  { rewrite has_key_existsb. destruct (existsb _ _) eqn:E; [|reflexivity].
    apply existsb_exists in E as (x & Hx & Heq).
    rewrite forallb_forall in H. specialize (H x Hx).
    unfold key_before in H. rewrite string_eqb_sym, Heq in H. discriminate. }
  rewrite Hfresh. destruct (array_index k) as [i|] eqn:Hk; [|reflexivity].
  now apply insert_index_snoc.
Qed.

Lemma ordered_keys_middle (a b : list JsString) (k : JsString) :
  ordered_keys (a ++ k :: b) = true ->
  forallb (fun x => key_before x k) a = true.
Proof.
  induction a as [|x a IH]; [reflexivity|].
  cbn [app ordered_keys forallb]. intros H.
  apply andb_true_iff in H as [H1 H2].
  rewrite forallb_app in H1. apply andb_true_iff in H1 as [_ H1].
  cbn in H1. apply andb_true_iff in H1 as [H1 _].
  now rewrite H1, IH.
Qed.

Lemma object_of_ordered (props acc : list (JsString * Value)) :
  ordered_keys (map fst (acc ++ props)) = true ->
  object_of props acc = acc ++ props.
Proof.
  revert acc. induction props as [|[k v] rest IH]; intros acc H.
  - cbn. now rewrite app_nil_r.
  - cbn [object_of fold_left fst snd].
    rewrite map_app in H. cbn [map fst] in H.
    rewrite (obj_set_snoc k v acc) by (now apply ordered_keys_middle in H).
    change (fold_left _ rest (acc ++ [(k, v)])) with (object_of rest (acc ++ [(k, v)])).
    rewrite IH; rewrite <- app_assoc; [reflexivity|].
    now rewrite map_app.
Qed.

(** ** White space in front of a value *)

Lemma skip_ws_idem (s : JsString) : skip_ws (skip_ws s) = skip_ws s.
Proof.
  induction s as [|c t IH]; [reflexivity|]. cbn.
  destruct (is_ws c) eqn:E; [exact IH|]. cbn. now rewrite E.
Qed.

Lemma skip_ws_blank (ws s : JsString) :
  forallb is_ws ws = true -> skip_ws (ws ++ s) = skip_ws s.
Proof.
  induction ws as [|c t IH]; [reflexivity|]. cbn. intros H.
  apply andb_true_iff in H as [Hc Ht]. rewrite Hc. now apply IH.
Qed.

Lemma parse_value_skip_ws (fuel : nat) (s : JsString) :
  parse_value fuel (skip_ws s) = parse_value fuel s.
Proof. destruct fuel; [reflexivity|]. cbn [parse_value]. now rewrite skip_ws_idem. Qed.

Lemma parse_elements_skip_ws (fuel : nat) (acc : list Value) (s : JsString) :
  parse_elements fuel acc (skip_ws s) = parse_elements fuel acc s.
Proof.
  destruct fuel; [reflexivity|]. cbn [parse_elements].
  now rewrite parse_value_skip_ws.
Qed.

Lemma parse_members_skip_ws (fuel : nat) (acc : list (JsString * Value)) (s : JsString) :
  parse_members fuel acc (skip_ws s) = parse_members fuel acc s.
Proof. destruct fuel; [reflexivity|]. cbn [parse_members]. now rewrite skip_ws_idem. Qed.

Lemma parse_value_blank (fuel : nat) (ws s : JsString) :
  forallb is_ws ws = true -> parse_value fuel (ws ++ s) = parse_value fuel s.
Proof.
  intros H. rewrite <- parse_value_skip_ws, (skip_ws_blank ws s H).
  apply parse_value_skip_ws.
Qed.

Lemma parse_elements_blank (fuel : nat) (acc : list Value) (ws s : JsString) :
  forallb is_ws ws = true ->
  parse_elements fuel acc (ws ++ s) = parse_elements fuel acc s.
Proof.
  intros H. rewrite <- parse_elements_skip_ws, (skip_ws_blank ws s H).
  apply parse_elements_skip_ws.
Qed.

Lemma parse_members_blank (fuel : nat) (acc : list (JsString * Value)) (ws s : JsString) :
  forallb is_ws ws = true ->
  parse_members fuel acc (ws ++ s) = parse_members fuel acc s.
Proof.
  intros H. rewrite <- parse_members_skip_ws, (skip_ws_blank ws s H).
  apply parse_members_skip_ws.
Qed.

Lemma ws_number_stop (c : N) (s : JsString) :
  is_ws c = true -> number_stop (c :: s) = true.
Proof.
  unfold is_ws, number_stop, is_digit. intros H.
  repeat rewrite orb_true_iff in H.
  destruct H as [[[H|H]|H]|H]; apply N.eqb_eq in H; subst; reflexivity.
Qed.

Lemma blank_number_stop (ws s : JsString) :
  forallb is_ws ws = true -> number_stop s = true -> number_stop (ws ++ s) = true.
Proof.
  destruct ws as [|c t]; [easy|]. cbn [forallb app]. intros H _.
  apply andb_true_iff in H as [H _]. now apply ws_number_stop.
Qed.

Lemma line_break_blank (gap indent : JsString) :
  forallb is_ws indent = true -> forallb is_ws (line_break gap indent) = true.
Proof. intros H. destruct gap; [reflexivity | exact H]. Qed.

(** ** The texts [JSON.stringify] writes *)

Lemma serialize_array (gap indent : JsString) (x : Value) (xs : list Value) :
  serialize gap indent (JArray (x :: xs))
  = 91 :: line_break gap (indent ++ gap)
       ++ join (44 :: line_break gap (indent ++ gap))
            (map (serialize gap (indent ++ gap)) (x :: xs))
       ++ line_break gap indent ++ [93].
Proof. destruct gap; reflexivity. Qed.

Lemma serialize_object (gap indent : JsString) (kv : JsString * Value)
    (props : list (JsString * Value)) :
  serialize gap indent (JObject (kv :: props))
  = 123 :: line_break gap (indent ++ gap)
        ++ join (44 :: line_break gap (indent ++ gap))
             (map (serialize_member gap (indent ++ gap)) (kv :: props))
        ++ line_break gap indent ++ [125].
Proof.
  assert (E : forall inner l,
             map (fun kv : JsString * Value =>
                    let (k, x) := kv in
                    QuoteJSONString k ++ js ":"
                    ++ match gap with [] => [] | _ :: _ => js " " end
                    ++ serialize gap inner x) l
             = map (serialize_member gap inner) l).
  { intros inner l. apply map_ext. now intros [k x]. }
  cbn [serialize]. rewrite E. destruct gap; reflexivity.
Qed.

Lemma number_eqb_eq (x y : Number) : number_eqb x y = true -> x = y.
Proof.
  destruct x as [a|a| |a m e], y as [b|b| |b m' e']; cbn; try discriminate.
  - intros H. apply Bool.eqb_prop in H. now subst.
  - intros H. apply Bool.eqb_prop in H. now subst.
  - reflexivity.
  - intros H. apply andb_true_iff in H as [H He].
    apply andb_true_iff in H as [Ha Hm].
    apply Bool.eqb_prop in Ha. apply Pos.eqb_eq in Hm. apply Z.eqb_eq in He.
    now subst.
Qed.

Lemma number_reads_back_inv (x : Number) :
  number_reads_back x = true ->
  is_finite x = true /\ parse_number (Number_toString x) = inr (x, []).
Proof.
  unfold number_reads_back. intros H. apply andb_true_iff in H as [Hf H].
  split; [exact Hf|].
  destruct (parse_number (Number_toString x)) as [|[y [|c r]]];
    try discriminate.
  apply number_eqb_eq in H. now subst.
Qed.

(** A digit or a minus sign is no white space and opens or closes
    nothing. *)
Lemma number_head_tests (c : N) :
  (is_digit c || (c =? 45)) = true ->
  is_ws c = false /\ (c =? 123) = false /\ (c =? 91) = false
  /\ (c =? 34) = false /\ (c =? 93) = false.
Proof.
  unfold is_digit, is_ws. intros H. apply orb_true_iff in H.
  assert (Hc : 45 <= c <= 57) by (destruct H; chars; lia).
  repeat match goal with
         | |- _ /\ _ => split
         | |- _ || _ = false => apply orb_false_iff; split
         | |- (_ =? _) = false => apply N.eqb_neq; lia
         end.
Qed.

(** The text of a value begins with a character that is no white space
    and no closing bracket. *)
Lemma serialize_head (gap indent : JsString) (v : Value) :
  numbers_read_back v = true ->
  exists c t, serialize gap indent v = c :: t
              /\ is_ws c = false /\ (c =? 93) = false.
Proof.
  destruct v as [|[|]|x|s|[|y ys]|[|kv props]]; intros H.
  - now exists 110, (js "ull").
  - now exists 116, (js "rue").
  - now exists 102, (js "alse").
  - cbn in H. apply number_reads_back_inv in H as [Hf H]. cbn [serialize].
    rewrite Hf. apply parse_number_head in H as (c & t & -> & Hc).
    apply number_head_tests in Hc as (H1 & _ & _ & _ & H5). now exists c, t.
  - now exists 34, (quote_chars s ++ [34]).
  - now exists 91, [93].
  - rewrite serialize_array. eauto.
  - now exists 123, [125].
  - rewrite serialize_object. eauto.
Qed.

(** Induction on a value, with the property for the values inside. *)
Lemma Value_induction (P : Value -> Prop) :
  P JNull -> (forall b, P (JBool b)) -> (forall x, P (JNumber x)) ->
  (forall s, P (JString s)) ->
  (forall items, Forall P items -> P (JArray items)) ->
  (forall props, Forall (fun kv : JsString * Value => P (snd kv)) props ->
                 P (JObject props)) ->
  forall v, P v.
Proof.
  intros Hnull Hbool Hnum Hstr Harr Hobj.
  fix IH 1. intros [|b|x|s|items|props].
  - exact Hnull.
  - apply Hbool.
  - apply Hnum.
  - apply Hstr.
  - apply Harr. induction items as [|y ys IHys]; constructor;
      [apply IH | exact IHys].
  - apply Hobj. induction props as [|[k y] ys IHys]; constructor;
      [apply IH | exact IHys].
Qed.

(** ** The text of a value reads back as the value *)

Lemma join_cons (sep p : JsString) (l : list JsString) :
  l <> [] -> join sep (p :: l) = p ++ sep ++ join sep l.
Proof. destruct l; [easy | reflexivity]. Qed.

Lemma join_head (sep : JsString) (c : N) (t : JsString) (l : list JsString)
    (rest : JsString) :
  exists t', join sep ((c :: t) :: l) ++ rest = c :: t'.
Proof. destruct l; cbn; eauto. Qed.

Lemma parse_value_array (fuel : nat) (t : JsString) :
  parse_value (S fuel) (91 :: t)
  = match starts_with 93 (skip_ws t) with
    | Some r => inr (JArray [], r)
    | None => parse_elements fuel [] (skip_ws t)
    end.
Proof. reflexivity. Qed.

Lemma parse_value_object (fuel : nat) (t : JsString) :
  parse_value (S fuel) (123 :: t)
  = match starts_with 125 (skip_ws t) with
    | Some r => inr (JObject [], r)
    | None => parse_members fuel [] (skip_ws t)
    end.
Proof. reflexivity. Qed.

Lemma elements_read_back (gap inner : JsString) (items : list Value) :
  forallb is_ws gap = true -> forallb is_ws inner = true ->
  Forall reads_back items -> items <> [] ->
  forall (sep_ws ws2 : JsString) (acc : list Value) (rest : JsString) (fuel : nat),
    forallb is_ws sep_ws = true -> forallb is_ws ws2 = true ->
    (fold_right (fun x n => S (Nat.max (fuel_of x) n)) O items <= fuel)%nat ->
    parse_elements fuel acc
      (join (44 :: sep_ws) (map (serialize gap inner) items) ++ ws2 ++ 93 :: rest)
    = inr (JArray (acc ++ items), rest).
Proof.
  intros Hgap Hinner Hall.
  induction Hall as [|x xs Hx Hxs IH]; [easy|].
  intros _ sep_ws ws2 acc rest fuel Hsep Hws2 Hfuel.
  cbn [fold_right] in Hfuel. destruct fuel as [|f]; [lia|].
  cbn [parse_elements]. destruct xs as [|y ys].
  - cbn [map join].
    rewrite (Hx gap inner (ws2 ++ 93 :: rest) f Hgap Hinner);
      [| now apply blank_number_stop | lia].
    now rewrite (skip_ws_blank ws2 _ Hws2).
  - change (map (serialize gap inner) (x :: y :: ys))
      with (serialize gap inner x :: map (serialize gap inner) (y :: ys)).
    rewrite join_cons by discriminate.
    rewrite <- !app_assoc. cbn [app].
    rewrite (Hx gap inner _ f Hgap Hinner); [| reflexivity | lia].
    change (skip_ws (44 :: ?r)) with (44 :: r).
    rewrite starts_with_cons, (parse_elements_blank _ _ sep_ws _ Hsep).
    rewrite (IH ltac:(discriminate) sep_ws ws2 (acc ++ [x]) rest f Hsep Hws2);
      [| cbn [fold_right] in *; lia].
    now rewrite <- app_assoc.
Qed.

Lemma member_text (gap inner k : JsString) (x : Value) (rest : JsString) :
  serialize_member gap inner (k, x) ++ rest
  = 34 :: quote_chars k
       ++ 34 :: 58 :: match gap with [] => [] | _ :: _ => js " " end
       ++ serialize gap inner x ++ rest.
Proof.
  unfold serialize_member, QuoteJSONString. cbn [fst snd app].
  rewrite <- !app_assoc. reflexivity.
Qed.

Lemma members_read_back (gap inner : JsString) (props : list (JsString * Value)) :
  forallb is_ws gap = true -> forallb is_ws inner = true ->
  Forall (fun kv : JsString * Value => reads_back (snd kv)) props -> props <> [] ->
  forall (sep_ws ws2 : JsString) (acc : list (JsString * Value)) (rest : JsString)
         (fuel : nat),
    forallb is_ws sep_ws = true -> forallb is_ws ws2 = true ->
    (fold_right (fun (kv : JsString * Value) n => S (Nat.max (fuel_of (snd kv)) n))
       O props <= fuel)%nat ->
    parse_members fuel acc
      (join (44 :: sep_ws) (map (serialize_member gap inner) props)
       ++ ws2 ++ 125 :: rest)
    = inr (JObject (object_of props acc), rest).
Proof.
  intros Hgap Hinner Hall.
  assert (Hsp : forallb is_ws match gap with [] => [] | _ :: _ => js " " end = true)
    by (now destruct gap).
  induction Hall as [|[k x] xs Hx Hxs IH]; [easy|].
  intros _ sep_ws ws2 acc rest fuel Hsep Hws2 Hfuel.
  cbn [fold_right snd] in Hfuel. destruct fuel as [|f]; [lia|].
  cbn [snd] in Hx.
  cbn [parse_members]. destruct xs as [|y ys].
  - cbn [map join]. rewrite member_text.
    change (skip_ws (34 :: ?r)) with (34 :: r).
    rewrite starts_with_cons, parse_quote_chars.
    change (skip_ws (58 :: ?r)) with (58 :: r).
    rewrite starts_with_cons, (parse_value_blank _ _ _ Hsp).
    rewrite (Hx gap inner (ws2 ++ 125 :: rest) f Hgap Hinner);
      [| now apply blank_number_stop | lia].
    now rewrite (skip_ws_blank ws2 _ Hws2).
  - change (map (serialize_member gap inner) ((k, x) :: y :: ys))
      with (serialize_member gap inner (k, x)
            :: map (serialize_member gap inner) (y :: ys)).
    rewrite join_cons by discriminate.
    rewrite <- app_assoc, member_text.
    change (skip_ws (34 :: ?r)) with (34 :: r).
    rewrite starts_with_cons, parse_quote_chars.
    change (skip_ws (58 :: ?r)) with (58 :: r).
    rewrite starts_with_cons, (parse_value_blank _ _ _ Hsp).
    rewrite <- !app_assoc. cbn [app].
    rewrite (Hx gap inner _ f Hgap Hinner); [| reflexivity | lia].
    change (skip_ws (44 :: ?r)) with (44 :: r).
    rewrite starts_with_cons, parse_members_skip_ws.
    rewrite (parse_members_blank _ _ sep_ws _ Hsep).
    now rewrite (IH ltac:(discriminate) sep_ws ws2 (obj_set k x acc) rest f Hsep Hws2)
      by (cbn [fold_right] in *; lia).
Qed.

Lemma Forall_reads_back (A : Type) (f : A -> Value) (l : list A) :
  Forall (fun a => numbers_read_back (f a) = true -> canonical (f a) = true ->
                   reads_back (f a)) l ->
  forallb (fun a => numbers_read_back (f a)) l = true ->
  forallb (fun a => canonical (f a)) l = true ->
  Forall (fun a => reads_back (f a)) l.
Proof.
  induction 1 as [|a l Ha Hl IH]; cbn; [constructor|].
  intros H1 H2. apply andb_true_iff in H1 as [H1 H1'].
  apply andb_true_iff in H2 as [H2 H2']. constructor; auto.
Qed.

Lemma serialize_reads_back (v : Value) :
  numbers_read_back v = true -> canonical v = true -> reads_back v.
Proof.
  induction v as [|b|x|s|items IH|props IH] using Value_induction;
    intros Hnum Hcan gap indent rest fuel Hgap Hindent Hstop Hfuel.
  - destruct fuel as [|f]; [cbn in Hfuel; lia | reflexivity].
  - destruct fuel as [|f]; [cbn in Hfuel; lia|]. now destruct b.
  - destruct fuel as [|f]; [cbn in Hfuel; lia|].
    cbn in Hnum. apply number_reads_back_inv in Hnum as [Hf Hx].
    cbn [serialize]. rewrite Hf.
    destruct (parse_number_head _ _ _ Hx) as (c & t & Et & Hc).
    pose proof (parse_number_app _ _ rest _ Hx (fun _ => Hstop)) as Happ.
    rewrite Et in *. cbn [app] in *.
    apply number_head_tests in Hc as Htests.
    destruct Htests as (H1 & H2 & H3 & H4 & _).
    cbn [parse_value skip_ws]. now rewrite H1, H2, H3, H4, Hc, Happ.
  - destruct fuel as [|f]; [cbn in Hfuel; lia|].
    cbn [serialize]. unfold QuoteJSONString. cbn [app].
    rewrite <- app_assoc. cbn [app parse_value skip_ws].
    change (is_ws 34) with false. cbn match.
    change (34 =? 123) with false. change (34 =? 91) with false.
    change (34 =? 34) with true. cbn match.
    now rewrite parse_quote_chars.
  - destruct fuel as [|f]; [cbn in Hfuel; lia|].
    destruct items as [|x xs]; [reflexivity|].
    cbn [numbers_read_back] in Hnum. cbn [canonical] in Hcan.
    pose proof (Forall_reads_back Value (fun a => a) _ IH Hnum Hcan) as Hall.
    cbn [forallb] in Hnum. apply andb_true_iff in Hnum as [Hx _].
    rewrite serialize_array. cbn [app]. rewrite <- !app_assoc. cbn [app].
    rewrite parse_value_array.
    assert (Hinner : forallb is_ws (indent ++ gap) = true)
      by (now rewrite forallb_app, Hindent, Hgap).
    rewrite (skip_ws_blank _ _ (line_break_blank gap _ Hinner)).
    destruct (serialize_head gap (indent ++ gap) x Hx) as (c & t & Et & Hws & H93).
    match goal with
    | |- context [skip_ws (?J ++ ?Z)] =>
        assert (Es : skip_ws (J ++ Z) = J ++ Z /\ starts_with 93 (J ++ Z) = None)
    end.
    { cbn [map]. rewrite Et.
      destruct (map (serialize gap (indent ++ gap)) xs); cbn;
        now rewrite Hws, H93. }
    destruct Es as [Es1 Es2]. rewrite Es1, Es2.
    rewrite (elements_read_back gap (indent ++ gap) (x :: xs) Hgap Hinner Hall
               ltac:(discriminate) _ _ [] rest f);
      [reflexivity | | |].
    + now apply line_break_blank.
    + now apply line_break_blank.
    + cbn [fuel_of] in Hfuel. lia.
  - destruct fuel as [|f]; [cbn in Hfuel; lia|].
    destruct props as [|[k x] xs]; [reflexivity|].
    cbn [numbers_read_back] in Hnum. cbn [canonical] in Hcan.
    apply andb_true_iff in Hcan as [Hord Hcan].
    pose proof (Forall_reads_back _ snd _ IH Hnum Hcan) as Hall.
    rewrite serialize_object. cbn [app]. rewrite <- !app_assoc. cbn [app].
    rewrite parse_value_object.
    assert (Hinner : forallb is_ws (indent ++ gap) = true)
      by (now rewrite forallb_app, Hindent, Hgap).
    rewrite (skip_ws_blank _ _ (line_break_blank gap _ Hinner)).
    match goal with
    | |- context [skip_ws (?J ++ ?Z)] =>
        assert (Es : skip_ws (J ++ Z) = J ++ Z /\ starts_with 125 (J ++ Z) = None)
    end.
    { cbn [map]. unfold serialize_member at 1, QuoteJSONString. cbn [fst app].
      now destruct (map (serialize_member gap (indent ++ gap)) xs). }
    destruct Es as [Es1 Es2]. rewrite Es1, Es2.
    rewrite (members_read_back gap (indent ++ gap) ((k, x) :: xs) Hgap Hinner Hall
               ltac:(discriminate) _ _ [] rest f).
    + rewrite (object_of_ordered _ [] Hord). reflexivity.
    + now apply line_break_blank.
    + now apply line_break_blank.
    + cbn [fuel_of] in Hfuel. lia.
Qed.

(** ** Formatting and minifying *)

Lemma firstn_blank (n : nat) (ws : JsString) :
  forallb is_ws ws = true -> forallb is_ws (firstn n ws) = true.
Proof.
  revert ws; induction n as [|n IH]; intros [|c t]; cbn; try reflexivity.
  intros H. apply andb_true_iff in H as [Hc Ht]. now rewrite Hc, IH.
Qed.

Lemma spaces_blank (n : nat) :
  forallb is_ws (List.concat (repeat (js " ") n)) = true.
Proof. induction n as [|n IH]; [reflexivity | exact IH]. Qed.

(** What [JSON.stringify] writes with a gap of white space,
    [JSON.parse] reads back. *)
Lemma stringify_parses (v : Value) (space : JsString) :
  numbers_read_back v = true -> canonical v = true ->
  forallb is_ws space = true ->
  JSON_parse (JSON_stringify v space) = inr v.
Proof.
  intros Hnum Hcan Hspace. unfold JSON_stringify.
  apply (JSON_parse_value (fuel_of v) _ v []); [|reflexivity].
  rewrite <- (app_nil_r (serialize _ _ _)).
  apply (serialize_reads_back v Hnum Hcan); auto using firstn_blank.
Qed.

(** ** The runs of the formatter on a valid text *)

Lemma valid_not_blank (input : JsString) (v : Value) :
  JSON_parse input = inr v -> trim input <> [].
Proof. intros Hv E. apply (blank_input_invalid _ E). now exists v. Qed.

Lemma validateJSON_valid (input : JsString) :
  isValid (validateJSON input) = true <-> valid_json input.
Proof.
  unfold validateJSON. split.
  - destruct (trim input) as [|c t]; [discriminate|].
    destruct (JSON_parse input) as [e|v] eqn:E; [discriminate|]. now exists v.
  - intros [v Hv]. pose proof (valid_not_blank _ _ Hv) as Htrim.
    destruct (trim input) as [|c t]; [easy|]. now rewrite Hv.
Qed.

Lemma formatJSON_valid `{Engine} (input : JsString) (options : FormatOptions)
    (v : Value) :
  JSON_parse input = inr v ->
  formatJSON input options
  = match sorted_value options v with
    | inl range_error => failure input (Some range_error)
    | inr parsed =>
        match indentation options with
        | inl range_error => failure input (Some range_error)
        | inr indent =>
            match exhausted (call_stringify parsed indent) with
            | Some range_error => failure input (Some range_error)
            | None =>
                {| success := true;
                   output := JSON_stringify parsed indent;
                   error := None |}
            end
        end
    end.
Proof.
  intros Hv. unfold formatJSON.
  rewrite (proj2 (validateJSON_valid input)) by (now exists v).
  cbn [negb]. now rewrite Hv.
Qed.

Lemma minifyJSON_valid `{Engine} (input : JsString) (v : Value) :
  JSON_parse input = inr v ->
  minifyJSON input
  = match exhausted (call_stringify v []) with
    | Some range_error => failure input (Some range_error)
    | None => {| success := true; output := JSON_stringify v []; error := None |}
    end.
Proof.
  intros Hv. unfold minifyJSON.
  rewrite (proj2 (validateJSON_valid input)) by (now exists v).
  cbn [negb]. now rewrite Hv.
Qed.

(** What [formatJSON] and [minifyJSON] have done when they succeed. *)
Lemma formatJSON_success `{Engine} (input : JsString) (options : FormatOptions) :
  success (formatJSON input options) = true ->
  exists v parsed indent,
    JSON_parse input = inr v
    /\ sorted_value options v = inr parsed
    /\ indentation options = inr indent
    /\ exhausted (call_stringify parsed indent) = None
    /\ formatJSON input options
       = {| success := true; output := JSON_stringify parsed indent; error := None |}.
Proof.
  intros Hs.
  destruct (JSON_parse input) as [e|v] eqn:Hv.
  - unfold formatJSON in Hs. rewrite Hv in Hs.
    now destruct (negb (isValid (validateJSON input))).
  - rewrite (formatJSON_valid _ options _ Hv) in Hs |- *.
    destruct (sorted_value options v) as [e|parsed] eqn:Hp; [discriminate|].
    destruct (indentation options) as [e|indent] eqn:Hi; [discriminate|].
    destruct (exhausted (call_stringify parsed indent)) eqn:E; [discriminate|].
    exists v, parsed, indent. repeat split; auto.
Qed.

Lemma minifyJSON_success `{Engine} (input : JsString) :
  success (minifyJSON input) = true ->
  exists v,
    JSON_parse input = inr v
    /\ exhausted (call_stringify v []) = None
    /\ minifyJSON input
       = {| success := true; output := JSON_stringify v []; error := None |}.
Proof.
  intros Hs.
  destruct (JSON_parse input) as [e|v] eqn:Hv.
  - unfold minifyJSON in Hs. rewrite Hv in Hs.
    now destruct (negb (isValid (validateJSON input))).
  - rewrite (minifyJSON_valid _ _ Hv) in Hs |- *.
    destruct (exhausted (call_stringify v [])) eqn:E; [discriminate|].
    exists v. repeat split; auto.
Qed.

(** The indentation is a tab or spaces. *)
Lemma indentation_blank `{Engine} (options : FormatOptions) (indent : JsString) :
  indentation options = inr indent -> forallb is_ws indent = true.
Proof.
  unfold indentation, String_repeat. destruct (indentChar options).
  - destruct (indentSize options <? 0)%Z; [discriminate|].
    destruct (exhausted _); [discriminate|]. intros [= <-]. apply spaces_blank.
  - now intros [= <-].
Qed.

Lemma unsorted_value `{Engine} (options : FormatOptions) (v : Value) :
  sortKeys options = false -> sorted_value options v = inr v.
Proof. intros Hsort. unfold sorted_value. now rewrite Hsort. Qed.


End JsonTheory.

(** ** The formatter at concrete texts *)

Module JsonRuns.

Import Json JsonTheory.

Open Scope N_scope.

#[local] Existing Instance v8_strings.

(** A trailing comma: V8's message names the brace behind it. *)
Example trailing_comma_rejected :
  formatJSON (json_text "{'a': 1,}") DEFAULT_FORMAT_OPTIONS
  = {| success := false;
       output := json_text "{'a': 1,}";
       error := Some (js "Unexpected token } in JSON at position 8") |}.
Proof. vm_compute. reflexivity. Qed.

Example blank_rejected :
  minifyJSON (js "   ")
  = {| success := false; output := js "   "; error := Some (js "Input is empty") |}.
Proof. vm_compute. reflexivity. Qed.

Example format_two_spaces :
  formatJSON (json_text "{'b':[1,2.50],'a':{}, '7':'x'}") DEFAULT_FORMAT_OPTIONS
  = {| success := true;
       output := json_text "{
  '7': 'x',
  'b': [
    1,
    2.5
  ],
  'a': {}
}";
       error := None |}.
Proof. vm_compute. reflexivity. Qed.

Example minify_example :
  minifyJSON (json_text " { 'b' : [ 1 , 2e3 ] , 'a' : null } ")
  = {| success := true;
       output := json_text "{'b':[1,2000],'a':null}";
       error := None |}.
Proof. vm_compute. reflexivity. Qed.

(** A negative [indentSize] makes [String.prototype.repeat] throw. *)
Example negative_indent_rejected :
  formatJSON (json_text "[1]")
    {| indentSize := -1; indentChar := space; sortKeys := false |}
  = {| success := false;
       output := json_text "[1]";
       error := Some (js "Invalid count value: -1") |}.
Proof. vm_compute. reflexivity. Qed.

Lemma error_atomicity_witness :
  ~ valid_json (json_text "{'a': 1,}")
  /\ exists msg,
       msg <> []
       /\ formatJSON (json_text "{'a': 1,}") DEFAULT_FORMAT_OPTIONS
          = {| success := false; output := json_text "{'a': 1,}"; error := Some msg |}
       /\ minifyJSON (json_text "{'a': 1,}")
          = {| success := false; output := json_text "{'a': 1,}"; error := Some msg |}.
Proof.
  assert (H : ~ valid_json (json_text "{'a': 1,}")).
  { intros [v Hv]. vm_compute in Hv. discriminate. }
  split; [exact H|].
  exact (error_atomicity (json_text "{'a': 1,}") DEFAULT_FORMAT_OPTIONS H).
Defined.

(** A misspelt literal and a bad escape are refused at the character
    that is wrong. *)
Example misspelt_literal_rejected :
  validateJSON (json_text "[nulL]")
  = {| isValid := false;
       verror := Some {| message := js "Unexpected token L in JSON at position 4";
                         line := Some 1%nat; column := Some 5%nat;
                         position := Some 4%Z |} |}.
Proof. vm_compute. reflexivity. Qed.

Example bad_escape_rejected :
  validateJSON (json_text "'\u12G4'")
  = {| isValid := false;
       verror := Some {| message := js "Unexpected token G in JSON at position 5";
                         line := Some 1%nat; column := Some 6%nat;
                         position := Some 5%Z |} |}.
Proof. vm_compute. reflexivity. Qed.

(** More spaces than a string of V8 can hold. *)
Example huge_indent_rejected :
  formatJSON (json_text "[1]")
    {| indentSize := 536870889; indentChar := space; sortKeys := false |}
  = {| success := false;
       output := json_text "[1]";
       error := Some (js "Invalid string length") |}.
Proof. vm_compute. reflexivity. Qed.



End JsonRuns.


(* ================================================================== *)
(** * Part V.  Further properties of the PDF compressor                 *)
(* ================================================================== *)

Module PdfMoreTheory.

Import Pdf PdfTheory PdfMore.
Open Scope Q_scope.
Open Scope pdf_scope.
Unset Implicit Arguments.

Section Runs.

Context {File PdfPage Canvas Blob : Type} {H : Host File PdfPage Canvas Blob}.

Lemma no_target_mode (settings : CompressionSettings) :
  no_target settings <-> target_mode settings = None.
Proof.
  unfold no_target, target_mode. split.
  - intros [-> | (t & -> & Ht)]; [reflexivity|].
    apply Qeq_bool_iff in Ht. now rewrite Ht.
  - destruct (targetSizeMB settings) as [t|]; [|now left].
    destruct (Qeq_bool t 0) eqn:E; [|discriminate].
    intros _. right. exists t. split; [reflexivity|]. now apply Qeq_bool_iff.
Qed.

Lemma compressPDF_standard_eq (file : File) (settings : CompressionSettings) :
  target_mode settings = None ->
  compressPDF file settings =
  match renderPagesToCanvases file (dpi settings) with
  | (inl e, lr) => (inl e, lr)
  | (inr (pages, original), lr) =>
      let total := List.length pages in
      match assemble_result pages (quality settings) with
      | inl e =>
          (inl e, lr ++ [EvProgress (generating_progress total);
                         EvAssemble (quality settings)])%list
      | inr b =>
          (inr (result_of original total b None),
           lr ++ [EvProgress (generating_progress total);
                  EvAssemble (quality settings);
                  EvProgress (complete_progress total)])%list
      end
  end.
Proof.
  intros Hmode. unfold compressPDF. rewrite Hmode.
  destruct (renderPagesToCanvases file (dpi settings)) as [[e | [pages original]] lr];
    [reflexivity |].
  cbn [bind]. unfold standard_mode, onProgress. rewrite bind_emit.
  rewrite generate_eq. cbn [bind fst snd].
  destruct (assemble_result pages (quality settings)) as [e | b]; reflexivity.
Qed.

(** X1.  Standard mode: without a target size (absent, or zero, which
    JavaScript takes as false) [compressPDF] calls the assembler once, at
    [settings.quality], and returns its blob with the size of that blob,
    the page count and the file size of the document, and no
    [finalQuality]; the search is not entered. *)
Theorem standard_mode_run (file : File) (settings : CompressionSettings)
    (pages : list (RenderedPage Canvas)) (original : N) (lr : list (Event Blob))
    (b : Blob) :
  no_target settings ->
  renderPagesToCanvases file (dpi settings) = (inr (pages, original), lr) ->
  assemble_result pages (quality settings) = inr b ->
  exists res l,
    compressPDF file settings = (inr res, l)
    /\ blob res = b
    /\ finalQuality res = None
    /\ compressedSize res = size b
    /\ pageCount res = List.length pages
    /\ originalSize res = file_size file
    /\ assembled l = [quality settings]
    /\ states_of l = []
    /\ progress_of l
       = (progress_of lr ++ [generating_progress (List.length pages);
                             complete_progress (List.length pages)])%list.
Proof.
  intros Hno Hrender Hb. apply no_target_mode in Hno.
  rewrite (compressPDF_standard_eq file settings Hno), Hrender. cbn zeta.
  rewrite Hb.
  destruct (render_progress file (dpi settings)) as (Ha & Hs & _ & _).
  rewrite Hrender in Ha, Hs. cbn [snd] in Ha, Hs.
  assert (Ho : original = file_size file).
  { revert Hrender. unfold renderPagesToCanvases. intros Hr.
    repeat match type of Hr with
           | bind _ _ = (inr _, _) =>
               apply bind_inr in Hr as (? & ? & ? & _ & Hr & _)
           end.
    cbn in Hr. now injection Hr as _ <-. }
  eexists. eexists. split; [reflexivity|]. cbn [result_of blob finalQuality
    compressedSize pageCount originalSize].
  rewrite assembled_app, states_of_app, progress_of_app, Ha, Hs.
  repeat split; auto.
Qed.

(** ** How a run ends *)

Lemma render_empty (file : File) (d : Q) :
  import_module "pdfjs-dist" = inr tt -> pdfjs_getDocument file = inr [] ->
  renderPagesToCanvases file d
  = (inr ([], file_size file),
     [EvProgress loading_libraries; EvProgress loading_pdf]).
Proof.
  intros Himport Hdoc. unfold renderPagesToCanvases, onProgress.
  rewrite Himport, Hdoc. reflexivity.
Qed.

Lemma assemble_empty (q : Q) :
  import_module "jspdf" = inr tt ->
  assemble_result (@nil (RenderedPage Canvas)) q
  = inl (Thrown (TypeError "Cannot read properties of undefined (reading 'width')")).
Proof.
  intros Himport. unfold assemble_result, generatePDFFromCanvases.
  rewrite bind_emit. cbn [fst]. now rewrite Himport.
Qed.

(** X2.  A document without pages: [generatePDFFromCanvases] reads
    [pages[0].width], so [compressPDF] throws a [TypeError] at its first
    assembler call, in either mode, and reports no completion. *)
Theorem empty_document_throws (file : File) (settings : CompressionSettings) :
  import_module "pdfjs-dist" = inr tt ->
  pdfjs_getDocument file = inr [] ->
  import_module "jspdf" = inr tt ->
  exists l,
    compressPDF file settings
    = (inl (Thrown (TypeError "Cannot read properties of undefined (reading 'width')")), l)
    /\ List.length (assembled l) = 1%nat
    /\ Forall (fun p => stage p <> complete) (progress_of l).
Proof.
  intros Hpdfjs Hdoc Hjspdf.
  pose proof (render_empty file (dpi settings) Hpdfjs Hdoc) as Hrender.
  destruct (target_mode settings) as [sizeMB|] eqn:Hmode.
  - rewrite (compressPDF_target_eq file settings Hmode), Hrender.
    rewrite target_size_mode_eq. cbn zeta. rewrite (assemble_empty _ Hjspdf).
    eexists. split; [reflexivity|]. split; [reflexivity|].
    cbn. repeat constructor; discriminate.
  - rewrite (compressPDF_standard_eq file settings Hmode), Hrender. cbn zeta.
    rewrite (assemble_empty _ Hjspdf).
    eexists. split; [reflexivity|]. split; [reflexivity|].
    cbn. repeat constructor; discriminate.
Qed.

Lemma progress_of_observable (l : list (Event Blob)) :
  progress_of (observable l) = progress_of l.
Proof.
  unfold progress_of, observable.
  induction l as [|[p| |q|s] l IH]; cbn; rewrite ?IH; reflexivity.
Qed.

Lemma bisect_blocks_stages (total : nat) (xs : list (nat * Q)) :
  Forall (fun p => stage p = optimizing)
    (progress_of (flat_map (bisect_block total) xs)).
Proof. induction xs as [|x xs IH]; cbn; constructor; auto. Qed.

Lemma refine_blocks_stages (total : nat) (rs : list Q) :
  Forall (fun p => stage p = optimizing)
    (progress_of (flat_map (refine_block total) rs)).
Proof. induction rs as [|x xs IH]; cbn; constructor; auto. Qed.

Lemma target_size_mode_stages (pages : list (RenderedPage Canvas)) (total : nat)
    (sizeMB : Q) :
  Forall (fun p => stage p = optimizing)
    (progress_of (snd (target_size_mode pages total sizeMB))).
Proof.
  destruct (target_size_mode_observable pages total sizeMB)
    as (qs & rs & fb & Hobs & _ & _ & _ & Hfb & _).
  rewrite <- progress_of_observable, Hobs, !progress_of_app.
  apply Forall_app. split; [cbn; repeat constructor|].
  apply Forall_app. split; [apply bisect_blocks_stages|].
  apply Forall_app. split; [apply refine_blocks_stages|].
  destruct Hfb as [-> | [-> _]]; cbn; repeat constructor.
Qed.

Lemma bisect_loop_not_cut (pages : list (RenderedPage Canvas)) (total : nat) (tb : Q)
    (n a : nat) (s : SearchState Blob) :
  fst (bisect_loop pages total tb n a s) <> inl OutOfFuel.
Proof.
  revert a s. induction n as [|n IH]; intros a s; [discriminate|].
  rewrite bisect_loop_S.
  destruct (assemble_result pages (bisect_mid s)) as [e|b] eqn:E.
  - cbn. intros [= ->]. now apply assemble_not_cut in E.
  - cbn zeta. specialize (IH (S a) (bisect_update tb s (bisect_mid s) b)).
    destruct (bisect_loop pages total tb n (S a) _). exact IH.
Qed.

Lemma target_size_mode_not_cut (pages : list (RenderedPage Canvas)) (total : nat)
    (sizeMB : Q) :
  fst (target_size_mode pages total sizeMB) <> inl OutOfFuel.
Proof.
  rewrite target_size_mode_eq. cbn zeta.
  destruct (assemble_result pages 1.0) as [e|b1] eqn:E1.
  { cbn. intros [= ->]. now apply assemble_not_cut in E1. }
  destruct (fits b1 (target_bytes sizeMB)); [discriminate|].
  pose proof (bisect_loop_not_cut pages total (target_bytes sizeMB) maxAttempts 1
                initial_state) as Hbis.
  destruct (bisect_loop pages total (target_bytes sizeMB) maxAttempts 1 initial_state)
    as [[e|s1] l1] eqn:Ebis.
  { cbn in *. intros [= ->]. now apply Hbis. }
  pose proof (bisect_loop_passes _ _ _ _ _ _ Ebis) as Hp.
  destruct (refine_loop pages total (target_bytes sizeMB) maxRefinementPasses s1)
    as [[e|s2] l2] eqn:Eref.
  { cbn. intros [= ->]. revert Eref. apply refine_loop_fuel. lia. }
  destruct (bestBlob s2); [discriminate|].
  destruct (assemble_result pages 0.1) as [e|b] eqn:E2; [|discriminate].
  cbn. intros [= ->]. now apply assemble_not_cut in E2.
Qed.

Lemma render_not_cut (file : File) (d : Q) :
  fst (renderPagesToCanvases file d) <> inl OutOfFuel.
Proof.
  assert (Hloop : forall n todo i acc,
             fst (render_loop d n todo i acc) <> inl OutOfFuel).
  { intros n todo. induction todo as [|page todo IH]; intros i acc; [discriminate|].
    cbn [render_loop]. unfold onProgress. rewrite bind_emit. cbn [fst].
    unfold bind, lift, throw, ret.
    destruct (pdfjs_renderPage page (d / 72)) as [e|[[c w] h]]; [discriminate|].
    specialize (IH (S i) (acc ++ [{| canvas := c; width := w; height := h |}])%list).
    destruct (render_loop d n todo (S i) _). exact IH. }
  unfold renderPagesToCanvases, onProgress. rewrite bind_emit. cbn [fst].
  unfold bind at 1. unfold lift, throw, ret.
  destruct (import_module "pdfjs-dist") as [e|[]]; [discriminate|].
  rewrite bind_emit. cbn [fst]. unfold bind at 1.
  destruct (pdfjs_getDocument file) as [e|pdf]; [discriminate|].
  specialize (Hloop (List.length pdf) pdf 1%nat []).
  unfold bind. destruct (render_loop d (List.length pdf) pdf 1 []) as [[e|ps] l'];
    [|discriminate].
  cbn in *. intros [= ->]. now apply Hloop.
Qed.

(** How [compressPDF] ends, and which reports it has made by then. *)
Lemma compressPDF_ends (file : File) (settings : CompressionSettings)
    (r : Halt + CompressionResult Blob) (l : list (Event Blob)) :
  compressPDF file settings = (r, l) ->
  match r with
  | inr res =>
      exists early,
        progress_of l = (early ++ [complete_progress (pageCount res)])%list
        /\ Forall (fun p => stage p <> complete) early
  | inl h =>
      (exists e, h = Thrown e)
      /\ Forall (fun p => stage p <> complete) (progress_of l)
  end.
Proof.
  assert (Hthrown : forall h : Halt, h <> OutOfFuel -> exists e, h = Thrown e).
  { intros [e|]; [eauto | easy]. }
  assert (Hcut : forall (A : Type) (h : Halt), @inl Halt A h <> inl OutOfFuel ->
                                               h <> OutOfFuel).
  { intros A h Hne ->. now apply Hne. }
  pose proof (render_progress file (dpi settings)) as (_ & _ & _ & Hlr).
  pose proof (render_not_cut file (dpi settings)) as Hrcut.
  assert (Hearly : forall lr : list (Event Blob),
             Forall (fun p => stage p = loading \/ stage p = rendering) (progress_of lr) ->
             Forall (fun p => stage p <> complete) (progress_of lr)).
  { intros lr. apply Forall_impl. intros p [-> | ->]; discriminate. }
  destruct (target_mode settings) as [sizeMB|] eqn:Hmode.
  - rewrite (compressPDF_target_eq file settings Hmode).
    destruct (renderPagesToCanvases file (dpi settings))
      as [[e | [pages original]] lr]; cbn [fst snd] in *.
    { intros [= <- <-]. split; [eapply Hthrown, Hcut; eassumption | auto]. }
    pose proof (target_size_mode_stages pages (List.length pages) sizeMB) as Hst.
    pose proof (target_size_mode_not_cut pages (List.length pages) sizeMB) as Hscut.
    assert (Hsearch : Forall (fun p => stage p <> complete)
                        (progress_of (snd (target_size_mode pages (List.length pages)
                                             sizeMB)))).
    { revert Hst. apply Forall_impl. intros p ->. discriminate. }
    destruct (target_size_mode pages (List.length pages) sizeMB) as [[e | [b q]] ls];
      cbn [fst snd] in *; intros [= <- <-].
    + split; [eapply Hthrown, Hcut; eassumption |].
      rewrite progress_of_app. apply Forall_app. auto.
    + exists (progress_of lr ++ progress_of ls)%list. split.
      * rewrite !progress_of_app, app_assoc. reflexivity.
      * apply Forall_app. auto.
  - rewrite (compressPDF_standard_eq file settings Hmode).
    destruct (renderPagesToCanvases file (dpi settings))
      as [[e | [pages original]] lr]; cbn [fst snd] in *.
    { intros [= <- <-]. split; [eapply Hthrown, Hcut; eassumption | auto]. }
    cbn zeta.
    pose proof (assemble_not_cut pages (quality settings)) as Hacut.
    destruct (assemble_result pages (quality settings)) as [e|b];
      intros [= <- <-].
    + split; [eapply Hthrown, Hcut; eassumption |].
      rewrite progress_of_app. apply Forall_app. split; [auto|].
      cbn. repeat constructor. discriminate.
    + exists (progress_of lr ++ [generating_progress (List.length pages)])%list.
      split.
      * rewrite progress_of_app, <- app_assoc. reflexivity.
      * apply Forall_app. split; [auto|]. repeat constructor. discriminate.
Qed.

(** X3.  [compressPDF] ends in one of two ways.  It returns a result:
    then its last progress report, and no earlier one, has the stage
    [complete].  Or it throws what a collaborator threw (PDF.js, jsPDF or
    the read of the first page): then no report has the stage
    [complete]. *)
Theorem completion_report (file : File) (settings : CompressionSettings)
    (r : Halt + CompressionResult Blob) (l : list (Event Blob)) :
  compressPDF file settings = (r, l) ->
  match r with
  | inr res =>
      exists early,
        progress_of l = (early ++ [complete_progress (pageCount res)])%list
        /\ Forall (fun p => stage p <> complete) early
  | inl h =>
      (exists e, h = Thrown e)
      /\ Forall (fun p => stage p <> complete) (progress_of l)
  end.
Proof. exact (compressPDF_ends file settings r l). Qed.

(** ** Rendering *)

Lemma render_loop_pages (d : Q) (n : nat) (todo : list PdfPage)
    (ps : list (RenderedPage Canvas)) :
  Forall2 (renders_to d) todo ps ->
  forall (i : nat) (acc : list (RenderedPage Canvas)),
    render_loop d n todo i acc
    = (inr (acc ++ ps)%list,
       map EvProgress (map (rendering_progress n) (seq i (List.length todo)))).
Proof.
  induction 1 as [|page rp todo ps Hpage Hrest IH]; intros i acc.
  - cbn. now rewrite app_nil_r.
  - destruct rp as [c w h]. unfold renders_to in Hpage. cbn in Hpage.
    cbn [render_loop]. unfold onProgress. rewrite bind_emit.
    rewrite Hpage. cbn [lift]. unfold bind, ret.
    rewrite IH, <- app_assoc. reflexivity.
Qed.

(** X4.  [renderPagesToCanvases] renders every page of the document
    once, in order, at the scale [dpi / 72]; it reports the two loading
    steps and then one rendering report per page, numbered from 1, each
    with the page count as total; it returns the canvases in page order
    and the size of the file. *)
Theorem render_pages (file : File) (d : Q) (pdf : list PdfPage)
    (pages : list (RenderedPage Canvas)) :
  import_module "pdfjs-dist" = inr tt ->
  pdfjs_getDocument file = inr pdf ->
  Forall2 (renders_to d) pdf pages ->
  renderPagesToCanvases file d
  = (inr (pages, file_size file),
     map EvProgress
       (loading_libraries :: loading_pdf
        :: map (rendering_progress (List.length pdf)) (seq 1 (List.length pdf)))).
Proof.
  intros Himport Hdoc Hpages. unfold renderPagesToCanvases, onProgress.
  rewrite Himport, Hdoc. cbn [lift]. unfold bind, emit, ret.
  rewrite (render_loop_pages d (List.length pdf) pdf pages Hpages 1%nat []).
  cbn [app]. rewrite ?app_nil_r. reflexivity.
Qed.

(** ** What the search returns *)

Lemma chain_invariant {A : Type} (R : A -> A -> Prop) (P : A -> Prop) :
  (forall a b, P a -> R a b -> P b) ->
  forall (l : list A) (s : A), P s -> chain R (s :: l) -> P (last l s).
Proof.
  intros Hstep l. induction l as [|x l IH]; intros s Hs Hchain; [exact Hs|].
  rewrite last_cons. destruct Hchain as [Hsx Hrest].
  apply IH; [eapply Hstep; eassumption | exact Hrest].
Qed.

(** The bracket during the bisection, and during the refinement. *)
Lemma bisect_step_range (pages : list (RenderedPage Canvas)) (tb : Q)
    (s s' : SearchState Blob) :
  (0.1 <= minQuality s /\ minQuality s <= maxQuality s /\ maxQuality s <= 1.0
   /\ minQuality s == bestQuality s) ->
  bisect_step pages tb s s' ->
  0.1 <= minQuality s' /\ minQuality s' <= maxQuality s' /\ maxQuality s' <= 1.0
  /\ minQuality s' == bestQuality s'.
Proof.
  intros (H1 & H2 & H3 & H4) (b & _ & [(_ & _ & Hb & Hmin & Hmax)
                                      | (_ & Hmax & Hmin & _ & Hb)]);
    rewrite ?Hb, ?Hmin, ?Hmax; unfold bisect_mid;
    repeat split; try lra; unfold Qdiv; change (/ 2) with (1 # 2); lra.
Qed.

Lemma refine_step_range (pages : list (RenderedPage Canvas)) (tb : Q)
    (s s' : SearchState Blob) :
  (0.1 <= bestQuality s /\ bestQuality s <= maxQuality s /\ maxQuality s <= 1.0) ->
  refine_step pages tb s s' ->
  0.1 <= bestQuality s' /\ bestQuality s' <= maxQuality s' /\ maxQuality s' <= 1.0.
Proof.
  intros (H1 & H2 & H3) (_ & _ & _ & _ & _ & b & _ & [(_ & _ & Hb & Hmax)
                                                     | (_ & Hmax & _ & Hb)]);
    rewrite ?Hb, ?Hmax; unfold refine_mid;
    repeat split; try lra; unfold Qdiv; change (/ 2) with (1 # 2); lra.
Qed.

Lemma refine_loop_unentered (pages : list (RenderedPage Canvas)) (total : nat) (tb : Q)
    (fuel : nat) (s s' : SearchState Blob) (l : list (Event Blob)) :
  refine_loop pages total tb fuel s = (inr s', l) ->
  bestBlob s = None -> s' = s /\ l = [].
Proof.
  intros Hrun Hnone.
  rewrite refine_loop_stop in Hrun by (unfold refine_continue; now rewrite Hnone).
  now injection Hrun as <- <-.
Qed.

(** The state the search ends in, when the blob at quality 1.0 is too
    big: where the bracket stands. *)
Lemma search_end (pages : list (RenderedPage Canvas)) (total : nat) (tb : Q)
    (s1 s2 : SearchState Blob) (l1 l2 : list (Event Blob)) :
  bisect_loop pages total tb maxAttempts 1 initial_state = (inr s1, l1) ->
  refine_loop pages total tb maxRefinementPasses s1 = (inr s2, l2) ->
  search_invariant pages tb s2
  /\ 0.1 <= bestQuality s2 /\ bestQuality s2 <= maxQuality s2 /\ maxQuality s2 <= 1.0
  /\ (bestBlob s2 = None -> maxQuality s2 - bestQuality s2 == 0.9 / 64)
  /\ (bestBlob s2 <> None -> maxQuality s2 - bestQuality s2 == 0.9 / 256).
Proof.
  intros Hbis Href.
  destruct (bisect_loop_chain _ _ _ _ _ _ Hbis) as (Hlen & Hchain & Hlast & _).
  destruct (refine_loop_chain _ _ _ _ _ Href) as (Hrchain & Hrlast & Hrmids & _).
  edestruct bisect_loop_invariant as [Hinvs Hinv1];
    [exact Hbis | apply initial_invariant | reflexivity |].
  destruct (Hinv1 s1 eq_refl) as [Hinv Heq1].
  assert (Hrange1 : 0.1 <= minQuality s1 /\ minQuality s1 <= maxQuality s1
                    /\ maxQuality s1 <= 1.0 /\ minQuality s1 == bestQuality s1).
  { rewrite <- Hlast.
    apply (chain_invariant (bisect_step pages tb)
             (fun s => 0.1 <= minQuality s /\ minQuality s <= maxQuality s
                       /\ maxQuality s <= 1.0 /\ minQuality s == bestQuality s)
             (bisect_step_range pages tb) (states_of l1) initial_state);
      [|exact Hchain].
    cbn. repeat split; lra. }
  pose proof (six_steps_width _ _ _ _ Hlen Hchain) as Hwidth.
  rewrite Hlast in Hwidth. cbn [initial_state maxQuality minQuality] in Hwidth.
  assert (Hpow : / 2 ^ 6 == 1 # 64) by reflexivity.
  unfold Qdiv in Hwidth. rewrite Hpow in Hwidth.
  destruct Hrange1 as (R1 & R2 & R3 & R4).
  assert (Hinv2 : search_invariant pages tb s2).
  { rewrite <- Hrlast. apply Forall_last. constructor; [exact Hinv|].
    eapply refine_loop_invariant; eassumption. }
  assert (Hrange2 : 0.1 <= bestQuality s2 /\ bestQuality s2 <= maxQuality s2
                    /\ maxQuality s2 <= 1.0).
  { rewrite <- Hrlast.
    apply (chain_invariant (refine_step pages tb)
             (fun s => 0.1 <= bestQuality s /\ bestQuality s <= maxQuality s
                       /\ maxQuality s <= 1.0)
             (refine_step_range pages tb) (states_of l2) s1);
      [|exact Hrchain].
    repeat split; lra. }
  split; [exact Hinv2|]. destruct Hrange2 as (Q1 & Q2 & Q3).
  repeat split; try assumption.
  - intros Hnone.
    edestruct refine_loop_none as [Heq _]; [exact Href | exact Hnone |].
    rewrite Heq. unfold Qdiv. change (/ 64) with (1 # 64). lra.
  - intros Hsome.
    assert (Hsome1 : bestBlob s1 <> None).
    { intros Hnone.
      destruct (refine_loop_unentered _ _ _ _ _ _ _ Href Hnone) as [-> _].
      now apply Hsome. }
    assert (Htwo : List.length (assembled l2) = 2%nat)
      by (eapply refinement_two_trials; eassumption).
    rewrite Hrmids, length_map in Htwo.
    destruct (states_of l2) as [|a [|b [|c rest]]]; try discriminate.
    cbn in Hrlast. subst b. destruct Hrchain as (Ha & Hb & _).
    apply refine_step_gap in Ha, Hb.
    rewrite Hb, Ha. unfold Qdiv. change (/ 2) with (1 # 2).
    change (/ 256) with (1 # 256). lra.
Qed.

Lemma too_big_ceiling (pages : list (RenderedPage Canvas)) (tb : Q) (b1 : Blob)
    (s : SearchState Blob) :
  assemble_result pages 1.0 = inr b1 -> ~ byte_size b1 <= tb ->
  search_invariant pages tb s -> too_big pages tb (maxQuality s).
Proof.
  intros Hb1 Hbig (_ & _ & _ & [-> | Hmax] & _); [|exact Hmax].
  now exists b1.
Qed.

(** X5.  The quality a target-size run reports is the quality its blob
    was assembled at, and lies between 0.1 and 1.0. *)
Theorem returned_quality (file : File) (settings : CompressionSettings)
    (sizeMB : Q) (pages : list (RenderedPage Canvas)) (original : N)
    (lr : list (Event Blob)) (res : CompressionResult Blob) (l : list (Event Blob)) :
  target_mode settings = Some sizeMB ->
  renderPagesToCanvases file (dpi settings) = (inr (pages, original), lr) ->
  compressPDF file settings = (inr res, l) ->
  exists q,
    finalQuality res = Some q
    /\ 0.1 <= q /\ q <= 1.0
    /\ assemble_result pages q = inr (blob res).
Proof.
  intros Hmode Hrender Hrun.
  edestruct compressPDF_run as (b & q & ls & Hsearch & Hres & _);
    [exact Hmode | exact Hrender | exact Hrun |]. subst res.
  exists q. cbn [result_of finalQuality blob]. split; [reflexivity|].
  pose proof Hsearch as Hcases. rewrite target_size_mode_eq in Hcases.
  cbn zeta in Hcases.
  destruct (assemble_result pages 1.0) as [e|b1] eqn:Hb1; [discriminate|].
  destruct (fits b1 (target_bytes sizeMB)) eqn:Hfit.
  { injection Hcases as <- <- _. repeat split; [lra | lra | exact Hb1]. }
  apply fits_false_iff in Hfit.
  edestruct search_run as (s1 & l1 & s2 & l2 & lf & Hbis & Href & _ & Hend);
    [exact Hb1 | exact Hfit | exact Hsearch |].
  destruct (search_end _ _ _ _ _ _ _ Hbis Href)
    as (Hinv & R1 & R2 & R3 & _).
  destruct Hend as [(Hsome & -> & _) | (_ & Hfb & -> & _)].
  - destruct Hinv as (_ & _ & Hbest & _). rewrite Hsome in Hbest.
    destruct Hbest as [Hbest _]. repeat split; [lra | lra | exact Hbest].
  - repeat split; [lra | lra | exact Hfb].
Qed.

(** X6.  Precision of the search: when the blob at quality 1.0 is too big
    and the run returns a quality above 0.1, a quality above the returned
    one, by less than 0.0036, was tried (or is the ceiling 1.0) and gave
    a blob over the budget.  (The bracket ends 0.9 / 256 wide, up to the
    rounding of the midpoints.) *)
Theorem search_precision (file : File) (settings : CompressionSettings)
    (sizeMB : Q) (pages : list (RenderedPage Canvas)) (original : N)
    (lr : list (Event Blob)) (b1 : Blob) (res : CompressionResult Blob)
    (l : list (Event Blob)) (q : Q) :
  target_mode settings = Some sizeMB ->
  renderPagesToCanvases file (dpi settings) = (inr (pages, original), lr) ->
  assemble_result pages 1.0 = inr b1 ->
  ~ byte_size b1 <= target_bytes sizeMB ->
  compressPDF file settings = (inr res, l) ->
  finalQuality res = Some q ->
  0.1 < q ->
  exists q_hi,
    q < q_hi
    /\ q_hi - q <= 0.0036
    /\ q_hi <= 1.0
    /\ too_big pages (target_bytes sizeMB) q_hi.
Proof.
  intros Hmode Hrender Hb1 Hbig Hrun Hq Hlt.
  edestruct compressPDF_run as (b & q0 & ls & Hsearch & Hres & _);
    [exact Hmode | exact Hrender | exact Hrun |]. subst res.
  cbn [result_of finalQuality] in Hq. injection Hq as ->.
  edestruct search_run as (s1 & l1 & s2 & l2 & lf & Hbis & Href & _ & Hend);
    [exact Hb1 | exact Hbig | exact Hsearch |].
  destruct (search_end _ _ _ _ _ _ _ Hbis Href)
    as (Hinv & R1 & R2 & R3 & _ & Hgap).
  destruct Hend as [(Hsome & -> & _) | (_ & _ & -> & _)]; [|lra].
  assert (Hwidth : maxQuality s2 - bestQuality s2 == 0.9 / 256).
  { apply Hgap. rewrite Hsome. discriminate. }
  assert (E : 0.9 / 256 == 9 # 2560) by reflexivity. rewrite E in Hwidth.
  exists (maxQuality s2). split; [lra|]. split; [lra|]. split; [exact R3|].
  eapply too_big_ceiling; eassumption.
Qed.

(** X7.  With an assembler whose blobs do not shrink when the quality
    grows, the search loses little: when the blob at quality 1.0 is too
    big, no quality 0.9 / 64 or more above the returned one fits the
    budget, and when the returned quality is above 0.1, none 0.9 / 256 or
    more above it. *)
Theorem near_optimal (file : File) (settings : CompressionSettings)
    (sizeMB : Q) (pages : list (RenderedPage Canvas)) (original : N)
    (lr : list (Event Blob)) (b1 : Blob) (res : CompressionResult Blob)
    (l : list (Event Blob)) (q : Q) :
  target_mode settings = Some sizeMB ->
  renderPagesToCanvases file (dpi settings) = (inr (pages, original), lr) ->
  monotone_sizes pages ->
  assemble_result pages 1.0 = inr b1 ->
  ~ byte_size b1 <= target_bytes sizeMB ->
  compressPDF file settings = (inr res, l) ->
  finalQuality res = Some q ->
  forall (q' : Q) (b' : Blob),
    assemble_result pages q' = inr b' ->
    q + 0.9 / 64 <= q' \/ (0.1 < q /\ q + 0.9 / 256 <= q') ->
    ~ byte_size b' <= target_bytes sizeMB.
Proof.
  intros Hmode Hrender Hmono Hb1 Hbig Hrun Hq q' b' Hb' Hfar.
  edestruct compressPDF_run as (b & q0 & ls & Hsearch & Hres & _);
    [exact Hmode | exact Hrender | exact Hrun |]. subst res.
  cbn [result_of finalQuality] in Hq. injection Hq as ->.
  edestruct search_run as (s1 & l1 & s2 & l2 & lf & Hbis & Href & _ & Hend);
    [exact Hb1 | exact Hbig | exact Hsearch |].
  destruct (search_end _ _ _ _ _ _ _ Hbis Href)
    as (Hinv & R1 & R2 & R3 & Hgap0 & Hgap).
  pose proof (too_big_ceiling _ _ _ _ Hb1 Hbig Hinv) as (bh & Hbh & Hbhbig).
  assert (Hnear : maxQuality s2 <= q').
  { assert (E64 : 0.9 / 64 == 9 # 640) by reflexivity.
    assert (E256 : 0.9 / 256 == 9 # 2560) by reflexivity.
    destruct Hend as [(Hsome & -> & _) | (Hnone & _ & -> & _)].
    - assert (Hg : maxQuality s2 - bestQuality s2 == 0.9 / 256)
        by (apply Hgap; rewrite Hsome; discriminate).
      rewrite E64, E256 in *. destruct Hfar as [Hfar | [_ Hfar]]; lra.
    - specialize (Hgap0 Hnone).
      destruct Hinv as (_ & _ & Hbest & _). rewrite Hnone in Hbest.
      destruct Hbest as [_ Hbest]. rewrite Hbest in Hgap0.
      rewrite E64, E256 in *. destruct Hfar as [Hfar | [Habs _]]; lra. }
  pose proof (Hmono _ _ _ _ Hnear Hbh Hb') as Hle.
  intros Hfits. apply Hbhbig. lra.
Qed.

End Runs.

End PdfMoreTheory.


(** ** The further properties at concrete runs *)

Module PdfMoreRuns.

Import Pdf PdfTheory PdfMore PdfMoreTheory PdfRuns.
Open Scope Q_scope.

Ltac run_fact :=
  first [ vm_compute; reflexivity
        | vm_compute; discriminate
        | vm_compute; intros Habs; apply Habs; reflexivity ].

Ltac run_facts :=
  repeat (match goal with |- exists _, _ => eexists end);
  repeat (match goal with |- _ /\ _ => split end);
  run_fact.

Section Linear.

#[local] Existing Instance linear_host.

Lemma standard_mode_run_witness :
  exists pages original lr b,
    no_target DEFAULT_SETTINGS
    /\ renderPagesToCanvases 3%nat (dpi DEFAULT_SETTINGS) = (inr (pages, original), lr)
    /\ assemble_result pages (quality DEFAULT_SETTINGS) = inr b
    /\ exists res l,
         compressPDF 3%nat DEFAULT_SETTINGS = (inr res, l)
         /\ blob res = b
         /\ finalQuality res = None
         /\ compressedSize res = size b
         /\ pageCount res = List.length pages
         /\ originalSize res = file_size 3%nat
         /\ assembled l = [quality DEFAULT_SETTINGS]
         /\ states_of l = []
         /\ progress_of l
            = (progress_of lr ++ [generating_progress (List.length pages);
                                  complete_progress (List.length pages)])%list.
Proof.
  assert (Hpre : exists pages original lr b,
             renderPagesToCanvases 3%nat (dpi DEFAULT_SETTINGS)
             = (inr (pages, original), lr)
             /\ assemble_result pages (quality DEFAULT_SETTINGS) = inr b) by run_facts.
  destruct Hpre as (pages & original & lr & b & Hrender & Hb).
  assert (Hno : no_target DEFAULT_SETTINGS) by (left; reflexivity).
  exists pages, original, lr, b.
  split; [exact Hno|]. split; [exact Hrender|]. split; [exact Hb|].
  exact (standard_mode_run 3%nat DEFAULT_SETTINGS pages original lr b Hno Hrender Hb).
Defined.

Lemma empty_document_throws_witness :
  import_module "pdfjs-dist" = inr tt
  /\ pdfjs_getDocument 0%nat = inr []
  /\ import_module "jspdf" = inr tt
  /\ exists l,
       compressPDF 0%nat (target_settings 1)
       = (inl (Thrown (TypeError "Cannot read properties of undefined (reading 'width')")),
          l)
       /\ List.length (assembled l) = 1%nat
       /\ Forall (fun p => stage p <> complete) (progress_of l).
Proof.
  split; [reflexivity|]. split; [reflexivity|]. split; [reflexivity|].
  exact (empty_document_throws 0%nat (target_settings 1) eq_refl eq_refl eq_refl).
Defined.

Lemma completion_report_witness :
  exists r l,
    compressPDF 3%nat (target_settings (500000 / 1048576)) = (r, l)
    /\ match r with
       | inr res =>
           exists early,
             progress_of l = (early ++ [complete_progress (pageCount res)])%list
             /\ Forall (fun p => stage p <> complete) early
       | inl h =>
           (exists e, h = Thrown e)
           /\ Forall (fun p => stage p <> complete) (progress_of l)
       end.
Proof.
  assert (Hpre : exists r l,
             compressPDF 3%nat (target_settings (500000 / 1048576)) = (r, l))
    by run_facts.
  destruct Hpre as (r & l & Hrun).
  exists r, l. split; [exact Hrun|].
  exact (completion_report 3%nat (target_settings (500000 / 1048576)) r l Hrun).
Defined.

Lemma render_pages_witness :
  import_module "pdfjs-dist" = inr tt
  /\ pdfjs_getDocument 3%nat = inr [1; 2; 3]%nat
  /\ Forall2 (renders_to 144) [1; 2; 3]%nat linear_pages
  /\ renderPagesToCanvases 3%nat 144
     = (inr (linear_pages, file_size 3%nat),
        map EvProgress
          (loading_libraries :: loading_pdf
           :: map (rendering_progress (List.length [1; 2; 3]%nat))
                (seq 1 (List.length [1; 2; 3]%nat)))).
Proof.
  assert (Hpages : Forall2 (renders_to 144) [1; 2; 3]%nat linear_pages).
  { repeat constructor. }
  split; [reflexivity|]. split; [reflexivity|]. split; [exact Hpages|].
  exact (render_pages 3%nat 144 [1; 2; 3]%nat linear_pages eq_refl eq_refl Hpages).
Defined.

Lemma returned_quality_witness :
  exists original lr res l,
    renderPagesToCanvases 3%nat 144 = (inr (linear_pages, original), lr)
    /\ compressPDF 3%nat (target_settings (500000 / 1048576)) = (inr res, l)
    /\ exists q,
         finalQuality res = Some q
         /\ 0.1 <= q /\ q <= 1.0
         /\ assemble_result linear_pages q = inr (blob res).
Proof.
  assert (Hpre : exists original lr res l,
             renderPagesToCanvases 3%nat 144 = (inr (linear_pages, original), lr)
             /\ compressPDF 3%nat (target_settings (500000 / 1048576)) = (inr res, l))
    by run_facts.
  destruct Hpre as (original & lr & res & l & Hrender & Hrun).
  exists original, lr, res, l. split; [exact Hrender|]. split; [exact Hrun|].
  exact (returned_quality 3%nat (target_settings (500000 / 1048576))
           (500000 / 1048576) linear_pages original lr res l eq_refl Hrender Hrun).
Defined.

Lemma search_precision_witness :
  exists original lr b1 res l q,
    renderPagesToCanvases 3%nat 144 = (inr (linear_pages, original), lr)
    /\ assemble_result linear_pages 1.0 = inr b1
    /\ ~ byte_size b1 <= target_bytes (500000 / 1048576)
    /\ compressPDF 3%nat (target_settings (500000 / 1048576)) = (inr res, l)
    /\ finalQuality res = Some q
    /\ 0.1 < q
    /\ exists q_hi,
         q < q_hi
         /\ q_hi - q <= 0.0036
         /\ q_hi <= 1.0
         /\ too_big linear_pages (target_bytes (500000 / 1048576)) q_hi.
Proof.
  assert (Hpre : exists original lr b1 res l q,
             renderPagesToCanvases 3%nat 144 = (inr (linear_pages, original), lr)
             /\ assemble_result linear_pages 1.0 = inr b1
             /\ ~ byte_size b1 <= target_bytes (500000 / 1048576)
             /\ compressPDF 3%nat (target_settings (500000 / 1048576)) = (inr res, l)
             /\ finalQuality res = Some q
             /\ 0.1 < q) by run_facts.
  destruct Hpre as (original & lr & b1 & res & l & q & Hrender & Hb1 & Hbig & Hrun
                    & Hq & Hlt).
  exists original, lr, b1, res, l, q.
  split; [exact Hrender|]. split; [exact Hb1|]. split; [exact Hbig|].
  split; [exact Hrun|]. split; [exact Hq|]. split; [exact Hlt|].
  exact (search_precision 3%nat (target_settings (500000 / 1048576))
           (500000 / 1048576) linear_pages original lr b1 res l q
           eq_refl Hrender Hb1 Hbig Hrun Hq Hlt).
Defined.

Lemma linear_assemble (q : Q) :
  assemble_result linear_pages q = inr (q, linear_size q).
Proof. reflexivity. Qed.

Lemma linear_sizes_monotone : monotone_sizes linear_pages.
Proof.
  intros q q' b b' Hle Hb Hb'.
  rewrite linear_assemble in Hb, Hb'. injection Hb as <-. injection Hb' as <-.
  unfold byte_size. cbn [size linear_host sized_host snd].
  rewrite <- Zle_Qle. unfold linear_size.
  assert (Hfloor : (Qfloor (q * 1000000 + (1 # 2)) <= Qfloor (q' * 1000000 + (1 # 2)))%Z).
  { apply Qfloor_resp_le. lra. }
  lia.
Qed.

Lemma near_optimal_witness :
  exists original lr b1 res l q,
    renderPagesToCanvases 3%nat 144 = (inr (linear_pages, original), lr)
    /\ monotone_sizes linear_pages
    /\ assemble_result linear_pages 1.0 = inr b1
    /\ ~ byte_size b1 <= target_bytes (500000 / 1048576)
    /\ compressPDF 3%nat (target_settings (500000 / 1048576)) = (inr res, l)
    /\ finalQuality res = Some q
    /\ forall (q' : Q) (b' : Q * N),
         assemble_result linear_pages q' = inr b' ->
         q + 0.9 / 64 <= q' \/ (0.1 < q /\ q + 0.9 / 256 <= q') ->
         ~ byte_size b' <= target_bytes (500000 / 1048576).
Proof.
  assert (Hpre : exists original lr b1 res l q,
             renderPagesToCanvases 3%nat 144 = (inr (linear_pages, original), lr)
             /\ assemble_result linear_pages 1.0 = inr b1
             /\ ~ byte_size b1 <= target_bytes (500000 / 1048576)
             /\ compressPDF 3%nat (target_settings (500000 / 1048576)) = (inr res, l)
             /\ finalQuality res = Some q) by run_facts.
  destruct Hpre as (original & lr & b1 & res & l & q & Hrender & Hb1 & Hbig & Hrun & Hq).
  exists original, lr, b1, res, l, q.
  split; [exact Hrender|]. split; [exact linear_sizes_monotone|].
  split; [exact Hb1|]. split; [exact Hbig|]. split; [exact Hrun|]. split; [exact Hq|].
  exact (near_optimal 3%nat (target_settings (500000 / 1048576))
           (500000 / 1048576) linear_pages original lr b1 res l q
           eq_refl Hrender linear_sizes_monotone Hb1 Hbig Hrun Hq).
Defined.

End Linear.

End PdfMoreRuns.


(* ================================================================== *)
(** * Part VI.  Further properties of the JSON formatter                *)
(* ================================================================== *)

From Stdlib Require Import Sorted Permutation.

Module JsonMoreTheory.

Import Json JsonTheory JsonMore.
Open Scope N_scope.
Unset Implicit Arguments.

(** ** Decimal digits *)

Lemma digits_value_snoc (ds : JsString) (c : N) :
  digits_value (ds ++ [c]) = (digits_value ds * 10 + (Z.of_N c - 48))%Z.
Proof. unfold digits_value. now rewrite fold_left_app. Qed.

Lemma digit_char (n : Z) :
  is_digit (Z.to_N (48 + n mod 10)) = true
  /\ (Z.of_N (Z.to_N (48 + n mod 10)) - 48 = n mod 10)%Z.
Proof.
  pose proof (Z.mod_pos_bound n 10 eq_refl) as Hm.
  unfold is_digit. split; [|lia].
  apply andb_true_iff. split; apply N.leb_le; lia.
Qed.

Lemma decimal_digits_from_spec (fuel : nat) :
  forall (n : Z) (acc : JsString),
    (0 <= n < 2 ^ Z.of_nat (S fuel))%Z ->
    exists ds,
      decimal_digits_from (S fuel) n acc = ds ++ acc
      /\ forallb is_digit ds = true /\ ds <> [] /\ digits_value ds = n.
Proof.
  induction fuel as [|fuel IH]; intros n acc Hn;
    destruct (digit_char n) as [Hd Hv];
    cbn [decimal_digits_from]; destruct (n / 10 =? 0)%Z eqn:E.
  - exists [Z.to_N (48 + n mod 10)]. cbn [app forallb]. rewrite Hd.
    repeat split; try easy.
    apply Z.eqb_eq in E. unfold digits_value. cbn [fold_left].
    pose proof (Z.div_mod n 10). lia.
  - apply Z.eqb_neq in E. change (2 ^ Z.of_nat 1)%Z with 2%Z in Hn.
    exfalso. apply E. apply Z.div_small. lia.
  - exists [Z.to_N (48 + n mod 10)]. cbn [app forallb]. rewrite Hd.
    repeat split; try easy.
    apply Z.eqb_eq in E. unfold digits_value. cbn [fold_left].
    pose proof (Z.div_mod n 10). lia.
  - apply Z.eqb_neq in E.
    destruct (IH (n / 10)%Z (Z.to_N (48 + n mod 10) :: acc)) as (ds & Hds & Hall & Hne & Hval).
    { split; [apply Z.div_pos; lia|].
      apply Z.div_lt_upper_bound; [lia|].
      rewrite Nat2Z.inj_succ, Z.pow_succ_r in Hn by lia. lia. }
    exists (ds ++ [Z.to_N (48 + n mod 10)]).
    rewrite <- app_assoc. split; [exact Hds|].
    rewrite forallb_app, Hall. cbn [forallb andb]. rewrite Hd.
    split; [reflexivity|]. split; [now destruct ds|].
    rewrite digits_value_snoc, Hval, Hv.
    pose proof (Z.div_mod n 10). lia.
Qed.

Lemma decimal_digits_spec (n : Z) :
  (0 <= n)%Z ->
  forallb is_digit (decimal_digits n) = true
  /\ decimal_digits n <> []
  /\ digits_value (decimal_digits n) = n.
Proof.
  intros Hn. unfold decimal_digits.
  destruct (decimal_digits_from_spec (Z.to_nat (Z.log2 n)) n []) as (ds & -> & H).
  { split; [exact Hn|]. rewrite Nat2Z.inj_succ, Z2Nat.id by apply Z.log2_nonneg.
    destruct (Z.eq_dec n 0) as [->|Hpos]; [reflexivity|].
    apply Z.log2_spec. lia. }
  now rewrite app_nil_r.
Qed.

Lemma span_digits_all (ds : JsString) :
  forallb is_digit ds = true -> span_digits ds = (ds, []).
Proof.
  induction ds as [|c t IH]; [reflexivity|]. cbn. intros H.
  apply andb_true_iff in H as [Hc Ht]. now rewrite Hc, (IH Ht).
Qed.

(** ** Where [validateJSON] locates an error *)

Lemma split_lines_spec (s : JsString) :
  exists lines_before current,
    split_lines s = lines_before ++ [current]
    /\ s = List.concat (map (fun l => l ++ [10]) lines_before) ++ current
    /\ Forall (fun l => ~ In 10 l) (lines_before ++ [current]).
Proof.
  induction s as [|c t (init & cur & Hsplit & Ht & Hall)].
  - exists [], []. repeat split. repeat constructor. easy.
  - cbn [split_lines]. destruct (c =? 10) eqn:E.
    + apply N.eqb_eq in E. subst c.
      exists ([] :: init), cur. rewrite Hsplit. cbn. rewrite <- Ht.
      repeat split. constructor; [easy | exact Hall].
    + apply N.eqb_neq in E. rewrite Hsplit.
      destruct init as [|i init].
      * exists [], (c :: cur). cbn in *. subst t. repeat split.
        apply Forall_inv in Hall. repeat constructor.
        intros [Hc | Hin]; [now apply E | now apply Hall].
      * exists ((c :: i) :: init), cur. cbn in *. rewrite <- Ht.
        repeat split. inversion Hall as [|? ? Hi Hrest]; subst.
        constructor; [|exact Hrest].
        intros [Hc | Hin]; [now apply E | now apply Hi].
Qed.

Lemma validateJSON_report (input : JsString) (e : ParseError) :
  trim input <> [] -> JSON_parse input = inl e ->
  validateJSON input = syntax_error_report input (error_message input e).
Proof.
  intros Htrim He. unfold validateJSON, syntax_error_report.
  destruct (trim input); [easy|]. now rewrite He.
Qed.

(** X8.  Whatever the message of the [SyntaxError]: when it names a
    position (the first [at position N] in it), what [validateJSON]
    reports locates that position in the input: the first [N] characters
    of the input are [line - 1] lines, each ended by a line feed, and
    [column - 1] more characters without a line feed. *)
Theorem error_position (input msg : JsString) (p : Z) :
  match_position msg = Some p ->
  exists lines_before current,
    firstn (Z.to_nat p) input
    = List.concat (map (fun l => l ++ [10]) lines_before) ++ current
    /\ Forall (fun l => ~ In 10 l) (lines_before ++ [current])
    /\ syntax_error_report input msg
       = {| isValid := false;
            verror := Some {| message := msg;
                              line := Some (S (List.length lines_before));
                              column := Some (S (List.length current));
                              position := Some p |} |}.
Proof.
  intros Hp.
  destruct (split_lines_spec (firstn (Z.to_nat p) input))
    as (init & cur & Hsplit & Hcat & Hall).
  exists init, cur. split; [exact Hcat|]. split; [exact Hall|].
  unfold syntax_error_report. rewrite Hp. cbn [option_map].
  rewrite Hsplit, length_app, last_last. cbn [List.length].
  now rewrite Nat.add_1_r.
Qed.

(** ** Formatting a valid text *)

(** X9.  [formatJSON] and [minifyJSON] succeed only on the inputs
    [validateJSON] accepts, which are the texts [JSON.parse] reads; on
    such an input they fail exactly when a [RangeError] is thrown in the
    [try] block: by [sortObjectKeys], by [" ".repeat(indentSize)] or by
    [JSON.stringify] (with [sortKeys], for a text without the key
    [__proto__]). *)
Theorem formatter_agrees_with_validator `{Engine} (input : JsString)
    (options : FormatOptions) :
  proto_free options input ->
  (isValid (validateJSON input) = true <-> valid_json input)
  /\ (success (formatJSON input options) = true -> isValid (validateJSON input) = true)
  /\ (success (minifyJSON input) = true -> isValid (validateJSON input) = true)
  /\ (forall v,
         JSON_parse input = inr v ->
         (success (formatJSON input options) = true
          <-> exists parsed indent,
                sorted_value options v = inr parsed
                /\ indentation options = inr indent
                /\ exhausted (call_stringify parsed indent) = None)
         /\ (success (minifyJSON input) = true
             <-> exhausted (call_stringify v []) = None)).
Proof.
  intros _. split; [apply validateJSON_valid|]. split; [|split].
  - intros Hs. destruct (formatJSON_success _ _ Hs) as (v & _ & _ & Hv & _).
    apply validateJSON_valid. now exists v.
  - intros Hs. destruct (minifyJSON_success _ Hs) as (v & Hv & _).
    apply validateJSON_valid. now exists v.
  - intros v Hv. split; split.
    + intros Hs. destruct (formatJSON_success _ _ Hs)
        as (v' & parsed & indent & Hv' & Hp & Hi & He & _).
      assert (v' = v) by congruence. subst v'. eauto.
    + intros (parsed & indent & Hp & Hi & He).
      now rewrite (formatJSON_valid _ options _ Hv), Hp, Hi, He.
    + intros Hs. destruct (minifyJSON_success _ Hs) as (v' & Hv' & He & _).
      congruence.
    + intros He. now rewrite (minifyJSON_valid _ _ Hv), He.
Qed.

(** The runs of the formatter on its own output. *)
Lemma formatJSON_unsorted `{Engine} (input : JsString) (options : FormatOptions)
    (v : Value) :
  JSON_parse input = inr v -> sortKeys options = false ->
  success (formatJSON input options) = true ->
  exists indent,
    indentation options = inr indent
    /\ exhausted (call_stringify v indent) = None
    /\ formatJSON input options
       = {| success := true; output := JSON_stringify v indent; error := None |}.
Proof.
  intros Hv Hsort Hs.
  destruct (formatJSON_success _ _ Hs)
    as (v' & parsed & indent & Hv' & Hp & Hi & He & Hrun).
  rewrite (unsorted_value _ _ Hsort) in Hp.
  assert (v' = v) by congruence. subst v'.
  assert (parsed = v) by congruence. subst parsed. eauto.
Qed.

Lemma minifyJSON_run `{Engine} (input : JsString) (v : Value) :
  JSON_parse input = inr v -> success (minifyJSON input) = true ->
  exhausted (call_stringify v []) = None
  /\ minifyJSON input
     = {| success := true; output := JSON_stringify v []; error := None |}.
Proof.
  intros Hv Hs. destruct (minifyJSON_success _ Hs) as (v' & Hv' & He & Hrun).
  assert (v' = v) by congruence. subst v'. auto.
Qed.

(** X10.  Formatting and minifying are idempotent and absorb each other
    where they succeed: for a text whose numbers read back from their
    printed form, the formatted text formats to itself and minifies to
    the minified text, and the minified text minifies to itself and
    formats to the formatted text. *)
Theorem reformat `{Engine} (input : JsString) (v : Value) (options : FormatOptions) :
  JSON_parse input = inr v -> numbers_read_back v = true ->
  sortKeys options = false ->
  (success (formatJSON input options) = true ->
   formatJSON (output (formatJSON input options)) options = formatJSON input options
   /\ (success (minifyJSON input) = true ->
       minifyJSON (output (formatJSON input options)) = minifyJSON input))
  /\ (success (minifyJSON input) = true ->
      minifyJSON (output (minifyJSON input)) = minifyJSON input
      /\ (success (formatJSON input options) = true ->
          formatJSON (output (minifyJSON input)) options = formatJSON input options)).
Proof.
  intros Hv Hnum Hsort.
  pose proof (JSON_parse_canonical _ _ Hv) as Hcan.
  assert (Hm : JSON_parse (JSON_stringify v []) = inr v)
    by (now apply stringify_parses).
  split.
  - intros Hs.
    destruct (formatJSON_unsorted _ _ _ Hv Hsort Hs) as (indent & Hi & He & Hrun).
    assert (Hf : JSON_parse (JSON_stringify v indent) = inr v)
      by (apply stringify_parses; eauto using indentation_blank).
    rewrite Hrun. cbn [output]. split.
    + now rewrite (formatJSON_valid _ options _ Hf), (unsorted_value _ _ Hsort), Hi, He.
    + intros Hs'. destruct (minifyJSON_run _ _ Hv Hs') as (He' & Hrun').
      now rewrite Hrun', (minifyJSON_valid _ _ Hf), He'.
  - intros Hs. destruct (minifyJSON_run _ _ Hv Hs) as (He & Hrun).
    rewrite Hrun. cbn [output]. split.
    + now rewrite (minifyJSON_valid _ _ Hm), He.
    + intros Hs'.
      destruct (formatJSON_unsorted _ _ _ Hv Hsort Hs') as (indent & Hi & He' & Hrun').
      now rewrite Hrun', (formatJSON_valid _ options _ Hm), (unsorted_value _ _ Hsort),
        Hi, He'.
Qed.

(** ** The characters of the output *)

Lemma digit_printable (c : N) : is_digit c = true -> 32 <= c.
Proof. unfold is_digit. intros H. chars. lia. Qed.

Lemma decimal_digits_from_chars (fuel : nat) :
  forall (n : Z) (acc : JsString),
    Forall (fun c => 32 <= c) acc ->
    Forall (fun c => 32 <= c) (decimal_digits_from fuel n acc).
Proof.
  induction fuel as [|fuel IH]; intros n acc Hacc; [exact Hacc|].
  cbn [decimal_digits_from].
  assert (Hd : Forall (fun c => 32 <= c) (Z.to_N (48 + n mod 10) :: acc)).
  { constructor; [|exact Hacc]. apply digit_printable, digit_char. }
  destruct (n / 10 =? 0)%Z; [exact Hd | now apply IH].
Qed.

Lemma decimal_digits_chars (n : Z) : Forall (fun c => 32 <= c) (decimal_digits n).
Proof. apply decimal_digits_from_chars. constructor. Qed.

Lemma repeat_chars (c : N) (n : nat) :
  32 <= c -> Forall (fun c => 32 <= c) (repeat c n).
Proof. intros Hc. induction n; cbn; constructor; auto. Qed.

Lemma literal_chars (s : JsString) :
  forallb (fun c => 32 <=? c) s = true -> Forall (fun c => 32 <= c) s.
Proof.
  intros H. apply Forall_forall. intros c Hc.
  rewrite forallb_forall in H. apply N.leb_le. now apply H.
Qed.

Lemma layout_number_chars (digits : JsString) (n : Z) :
  Forall (fun c => 32 <= c) digits ->
  Forall (fun c => 32 <= c) (layout_number digits n).
Proof.
  intros Hd. unfold layout_number.
  destruct ((Z.of_nat (List.length digits) <=? n) && (n <=? 21))%Z.
  { apply Forall_app. split; [exact Hd | apply repeat_chars; lia]. }
  destruct ((0 <? n) && (n <=? 21))%Z.
  { rewrite <- (firstn_skipn (Z.to_nat n) digits) in Hd.
    apply Forall_app in Hd as [H1 H2].
    apply Forall_app. split; [exact H1|].
    apply Forall_app. split; [now apply literal_chars | exact H2]. }
  destruct ((-6 <? n) && (n <=? 0))%Z.
  { apply Forall_app. split; [now apply literal_chars|].
    apply Forall_app. split; [apply repeat_chars; lia | exact Hd]. }
  assert (Htail : Forall (fun c => 32 <= c)
                    (js "e" ++ (if (0 <=? n - 1)%Z then js "+" else js "-")
                     ++ decimal_digits (Z.abs (n - 1)))).
  { apply Forall_app. split; [now apply literal_chars|].
    apply Forall_app. split; [|apply decimal_digits_chars].
    destruct (0 <=? n - 1)%Z; now apply literal_chars. }
  destruct digits as [|d [|d' ds]]; [constructor | |].
  - constructor; [now apply Forall_inv in Hd | exact Htail].
  - inversion Hd as [|? ? Hd1 Hd2]; subst. constructor; [exact Hd1|].
    apply Forall_app. split; [now apply literal_chars|].
    apply Forall_app. split; [exact Hd2 | exact Htail].
Qed.

Lemma Number_toString_chars (x : Number) :
  Forall (fun c => 32 <= c) (Number_toString x).
Proof.
  destruct x as [s|[|]| |neg m e]; try (now apply literal_chars).
  unfold Number_toString.
  destruct (shortest_digits _ _ _ _ _ _) as [s n'].
  apply Forall_app. split.
  - destruct neg; [now apply literal_chars | constructor].
  - apply layout_number_chars, decimal_digits_chars.
Qed.

Lemma hex_digit_printable (d : N) : 32 <= hex_digit d.
Proof. unfold hex_digit. destruct (d <? 10); lia. Qed.

Lemma unicode_escape_chars (c : N) : Forall (fun c => 32 <= c) (unicode_escape c).
Proof.
  unfold unicode_escape. apply Forall_app. split; [now apply literal_chars|].
  repeat constructor; apply hex_digit_printable.
Qed.

Lemma quote_chars_chars (s : JsString) : Forall (fun c => 32 <= c) (quote_chars s).
Proof.
  remember (List.length s) as n eqn:Hn.
  assert (Hle : (List.length s <= n)%nat) by lia. clear Hn.
  revert s Hle. induction n as [|n IH]; intros s Hle.
  { destruct s; [constructor | cbn in Hle; lia]. }
  destruct s as [|c t]; [constructor|]. cbn in Hle.
  assert (IHt : Forall (fun c => 32 <= c) (quote_chars t)) by (apply IH; lia).
  assert (Hesc : forall lit : JsString,
             forallb (fun c => 32 <=? c) lit = true ->
             Forall (fun c => 32 <= c) (lit ++ quote_chars t)).
  { intros lit Hlit. apply Forall_app. split; [now apply literal_chars | exact IHt]. }
  assert (Huni : Forall (fun c => 32 <= c) (unicode_escape c ++ quote_chars t)).
  { apply Forall_app. split; [apply unicode_escape_chars | exact IHt]. }
  cbn [quote_chars].
  destruct (c =? 8); [now apply Hesc|].
  destruct (c =? 9); [now apply Hesc|].
  destruct (c =? 10); [now apply Hesc|].
  destruct (c =? 12); [now apply Hesc|].
  destruct (c =? 13); [now apply Hesc|].
  destruct (c =? 34); [now apply (Hesc [92; 34])|].
  destruct (c =? 92); [now apply (Hesc [92; 92])|].
  destruct (c <? 32) eqn:E32; [exact Huni|]. apply N.ltb_ge in E32.
  destruct (is_high_surrogate c).
  { destruct t as [|d t']; [apply unicode_escape_chars|].
    destruct (is_low_surrogate d) eqn:El; [|exact Huni].
    unfold is_low_surrogate in El. chars.
    constructor; [exact E32|]. constructor; [lia|].
    apply IH. cbn in Hle. lia. }
  destruct (is_low_surrogate c); [exact Huni|].
  constructor; [exact E32 | exact IHt].
Qed.

Lemma Forall_join (P : N -> Prop) (sep : JsString) (parts : list JsString) :
  Forall P sep -> Forall (Forall P) parts -> Forall P (join sep parts).
Proof.
  intros Hsep Hparts. induction Hparts as [|p rest Hp Hrest IH]; [constructor|].
  destruct rest as [|q rest]; [exact Hp|].
  rewrite join_cons by discriminate.
  apply Forall_app. split; [exact Hp|]. apply Forall_app. now split.
Qed.

Lemma printable_output (gap indent s : JsString) :
  Forall (fun c => 32 <= c) s -> Forall (output_char gap indent) s.
Proof. apply Forall_impl. intros c Hc. now left. Qed.

Lemma line_break_output (gap indent inner : JsString) :
  (forall c, In c inner -> In c indent \/ In c gap) ->
  Forall (output_char gap indent) (line_break gap inner).
Proof.
  intros Hinner. unfold line_break. destruct gap as [|g gap]; [constructor|].
  constructor.
  - right. split; [discriminate | now left].
  - apply Forall_forall. intros c Hc. right. split; [discriminate|].
    right. now apply Hinner.
Qed.

Lemma output_char_inner (gap indent : JsString) (c : N) :
  output_char gap (indent ++ gap) c -> output_char gap indent c.
Proof.
  unfold output_char.
  intros [Hc | (Hgap & [Hc | [Hc | Hc]])]; [now left | | |];
    right; (split; [exact Hgap|]); auto.
  apply in_app_or in Hc. destruct Hc; auto.
Qed.

Lemma indentation_chars `{Engine} (options : FormatOptions) (indent : JsString)
    (c : N) :
  indentation options = inr indent -> In c (firstn 10 indent) ->
  c = 32 \/ (indentChar options = tab /\ c = 9).
Proof.
  intros Hi Hc.
  assert (Hin : In c indent).
  { rewrite <- (firstn_skipn 10 indent). apply in_or_app. now left. }
  clear Hc. unfold indentation, String_repeat in Hi. destruct (indentChar options).
  - left. destruct (indentSize options <? 0)%Z; [discriminate|].
    destruct (exhausted _); [discriminate|]. injection Hi as <-.
    induction (Z.to_nat (indentSize options)) as [|n IH]; [easy|].
    cbn in Hin. destruct Hin as [Hc | Hin]; [now subst | now apply IH].
  - right. injection Hi as <-. destruct Hin as [Hc | []]. now subst.
Qed.

Lemma serialize_chars (v : Value) :
  forall gap indent, Forall (output_char gap indent) (serialize gap indent v).
Proof.
  induction v as [|b|x|s|items IH|props IH] using Value_induction;
    intros gap indent.
  - now apply printable_output, literal_chars.
  - destruct b; now apply printable_output, literal_chars.
  - cbn [serialize]. apply printable_output.
    destruct (is_finite x); [apply Number_toString_chars | now apply literal_chars].
  - cbn [serialize]. unfold QuoteJSONString. apply printable_output.
    constructor; [lia|]. apply Forall_app. split; [apply quote_chars_chars|].
    repeat constructor. lia.
  - destruct items as [|x xs]; [now apply printable_output, literal_chars|].
    rewrite serialize_array.
    constructor; [left; lia|].
    apply Forall_app. split.
    { apply line_break_output. intros c Hc. now apply in_app_or in Hc. }
    apply Forall_app. split.
    { apply Forall_join.
      - constructor; [left; lia|].
        apply line_break_output. intros c Hc. now apply in_app_or in Hc.
      - apply Forall_map. revert IH. apply Forall_impl. intros y Hy.
        eapply Forall_impl; [|apply Hy]. apply output_char_inner. }
    apply Forall_app. split.
    { apply line_break_output. auto. }
    constructor; [left; lia | constructor].
  - destruct props as [|kv xs]; [now apply printable_output, literal_chars|].
    rewrite serialize_object.
    constructor; [left; lia|].
    apply Forall_app. split.
    { apply line_break_output. intros c Hc. now apply in_app_or in Hc. }
    apply Forall_app. split.
    { apply Forall_join.
      - constructor; [left; lia|].
        apply line_break_output. intros c Hc. now apply in_app_or in Hc.
      - apply Forall_map. revert IH. apply Forall_impl. intros [k y] Hy.
        rewrite <- (app_nil_r (serialize_member _ _ _)), member_text, app_nil_r.
        constructor; [left; lia|].
        apply Forall_app. split.
        { apply printable_output, quote_chars_chars. }
        constructor; [left; lia|].
        constructor; [left; lia|].
        apply Forall_app. split.
        { apply printable_output. destruct gap; now apply literal_chars. }
        cbn [snd] in Hy. eapply Forall_impl; [|apply Hy]. apply output_char_inner. }
    apply Forall_app. split.
    { apply line_break_output. auto. }
    constructor; [left; lia | constructor].
Qed.

(** X11.  A successful output has no character below U+0020 but the
    ones written as layout: [minifyJSON] writes none at all (no line
    break, no tab), [formatJSON] only line feeds and, with tab
    indentation, tabs (with [sortKeys], for a text without the key
    [__proto__]).  The characters from U+007F on are written as they
    are. *)
Theorem output_characters `{Engine} (input : JsString) (options : FormatOptions) :
  proto_free options input ->
  (success (minifyJSON input) = true ->
   Forall (fun c => 32 <= c) (output (minifyJSON input)))
  /\ (success (formatJSON input options) = true ->
      Forall (fun c => 32 <= c \/ c = 10 \/ (indentChar options = tab /\ c = 9))
        (output (formatJSON input options))).
Proof.
  intros _. split.
  - intros Hs. destruct (minifyJSON_success _ Hs) as (v & _ & _ & ->).
    cbn [output]. unfold JSON_stringify.
    eapply Forall_impl; [|apply serialize_chars].
    intros c [Hc | [Hgap _]]; [exact Hc | now destruct Hgap].
  - intros Hs. destruct (formatJSON_success _ _ Hs)
      as (v & parsed & indent & _ & _ & Hi & _ & ->).
    cbn [output]. unfold JSON_stringify.
    eapply Forall_impl; [|apply serialize_chars].
    intros c [Hc | (_ & [Hc | [[] | Hc]])]; [now left | now right; left |].
    destruct (indentation_chars _ _ _ Hi Hc) as [-> | Htab];
      [left; lia | now right; right].
Qed.

(** ** The order of strings *)

Lemma string_eqb_eq (a b : JsString) : string_eqb a b = true <-> a = b.
Proof.
  revert b. induction a as [|x a IH]; intros [|y b]; cbn; try easy.
  rewrite andb_true_iff, N.eqb_eq, IH. split.
  - now intros [-> ->].
  - now intros [= -> ->].
Qed.

Lemma string_eqb_refl (a : JsString) : string_eqb a a = true.
Proof. now apply string_eqb_eq. Qed.

Lemma string_ltb_irrefl (a : JsString) : string_ltb a a = false.
Proof.
  induction a as [|x a IH]; [reflexivity|]. cbn.
  now rewrite N.ltb_irrefl, N.eqb_refl, IH.
Qed.

Lemma string_ltb_trans (a b c : JsString) :
  string_ltb a b = true -> string_ltb b c = true -> string_ltb a c = true.
Proof.
  revert b c. induction a as [|x a IH]; intros [|y b] [|z c]; cbn; try easy.
  rewrite !orb_true_iff, !andb_true_iff, !N.ltb_lt, !N.eqb_eq.
  intros [Hxy | [-> Hab]] [Hyz | [-> Hbc]].
  - left. lia.
  - now left.
  - now left.
  - right. split; [reflexivity|]. eapply IH; eassumption.
Qed.

Lemma string_ltb_total (a b : JsString) :
  string_ltb a b = true \/ a = b \/ string_ltb b a = true.
Proof.
  revert b. induction a as [|x a IH]; intros [|y b]; cbn; auto.
  rewrite !orb_true_iff, !andb_true_iff, !N.ltb_lt, !N.eqb_eq.
  destruct (N.lt_trichotomy x y) as [H | [-> | H]]; [now left; left | | now right; right; left].
  destruct (IH b) as [H | [-> | H]]; [now left; right | now right; left | now right; right; right].
Qed.

Lemma string_ltb_asym (a b : JsString) :
  string_ltb a b = true -> string_ltb b a = false.
Proof.
  intros H. destruct (string_ltb b a) eqn:E; [|reflexivity].
  pose proof (string_ltb_trans _ _ _ H E) as Habs.
  now rewrite string_ltb_irrefl in Habs.
Qed.

(** ** [Array.prototype.sort] on distinct keys *)

Lemma insert_sorted_perm (k : JsString) (ks : list JsString) :
  Permutation (insert_sorted k ks) (k :: ks).
Proof.
  induction ks as [|k' ks IH]; [reflexivity|]. cbn.
  destruct (string_ltb k k'); [reflexivity|].
  rewrite IH. apply perm_swap.
Qed.

Lemma sort_strings_perm (ks : list JsString) : Permutation (sort_strings ks) ks.
Proof.
  induction ks as [|k ks IH]; [reflexivity|]. cbn.
  rewrite insert_sorted_perm. now constructor.
Qed.

Lemma insert_sorted_sorted (k : JsString) (ks : list JsString) :
  ~ In k ks ->
  StronglySorted (fun a b => string_ltb a b = true) ks ->
  StronglySorted (fun a b => string_ltb a b = true) (insert_sorted k ks).
Proof.
  intros Hnew Hs. induction Hs as [|k' ks Hs IH Hall]; cbn.
  - repeat constructor.
  - destruct (string_ltb k k') eqn:E.
    + constructor; [now constructor|]. constructor; [exact E|].
      revert Hall. apply Forall_impl. intros x. now apply string_ltb_trans.
    + assert (Hk : string_ltb k' k = true).
      { destruct (string_ltb_total k k') as [H | [-> | H]]; [congruence | | exact H].
        exfalso. apply Hnew. now left. }
      constructor; [apply IH; intros Hin; apply Hnew; now right|].
      eapply Permutation_Forall; [symmetry; apply insert_sorted_perm|].
      now constructor.
Qed.

Lemma sort_strings_sorted (ks : list JsString) :
  NoDup ks -> StronglySorted (fun a b => string_ltb a b = true) (sort_strings ks).
Proof.
  induction 1 as [|k ks Hk Hnd IH]; cbn; [constructor|].
  apply insert_sorted_sorted; [|exact IH].
  intros Hin. apply Hk. eapply Permutation_in; [apply sort_strings_perm | exact Hin].
Qed.

Lemma sorted_unique (l1 l2 : list JsString) :
  StronglySorted (fun a b => string_ltb a b = true) l1 ->
  StronglySorted (fun a b => string_ltb a b = true) l2 ->
  Permutation l1 l2 -> l1 = l2.
Proof.
  intros H1. revert l2. induction H1 as [|a l1 Hs1 IH Ha]; intros l2 H2 Hperm.
  - now apply Permutation_nil in Hperm.
  - destruct H2 as [|b l2 Hs2 Hb].
    + symmetry in Hperm. now apply Permutation_nil in Hperm.
    + assert (Hab : a = b).
      { assert (Hbin : In b (a :: l1))
          by (eapply Permutation_in; [symmetry; exact Hperm | now left]).
        assert (Hain : In a (b :: l2))
          by (eapply Permutation_in; [exact Hperm | now left]).
        destruct Hbin as [Heq | Hbin]; [exact Heq|].
        destruct Hain as [Heq | Hain]; [now symmetry|].
        rewrite Forall_forall in Ha, Hb.
        pose proof (string_ltb_asym _ _ (Ha _ Hbin)) as Habs.
        now rewrite (Hb _ Hain) in Habs. }
      subst b. f_equal. apply IH; [exact Hs2|].
      eapply Permutation_cons_inv; exact Hperm.
Qed.

Lemma sort_strings_unique (ks1 ks2 : list JsString) :
  NoDup ks1 -> NoDup ks2 -> (forall k, In k ks1 <-> In k ks2) ->
  sort_strings ks1 = sort_strings ks2.
Proof.
  intros Hnd1 Hnd2 Hsame.
  apply sorted_unique; try now apply sort_strings_sorted.
  rewrite !sort_strings_perm. now apply NoDup_Permutation.
Qed.

(** ** Setting and reading properties *)

Lemma has_key_In (k : JsString) (props : list (JsString * Value)) :
  has_key k props = true <-> In k (map fst props).
Proof.
  induction props as [|[k' v'] rest IH]; cbn; [easy|].
  rewrite orb_true_iff, string_eqb_eq, IH. split; intros [H|H]; auto.
Qed.

Lemma lookup_replace_value (k k' : JsString) (v : Value)
    (props : list (JsString * Value)) :
  has_key k' props = true ->
  lookup k (replace_value k' v props)
  = if string_eqb k k' then v else lookup k props.
Proof.
  induction props as [|[k0 v0] rest IH]; [discriminate|].
  cbn [has_key replace_value lookup]. intros Hk.
  destruct (string_eqb k' k0) eqn:E0.
  - apply string_eqb_eq in E0. subst k0. cbn [lookup].
    now destruct (string_eqb k k').
  - cbn [orb] in Hk. cbn [lookup]. rewrite (IH Hk).
    destruct (string_eqb k k0) eqn:E1; [|reflexivity].
    destruct (string_eqb k k') eqn:E2; [|reflexivity].
    apply string_eqb_eq in E1, E2. subst. now rewrite string_eqb_refl in E0.
Qed.

Lemma lookup_insert_index (k k' : JsString) (i : Z) (v : Value)
    (props : list (JsString * Value)) :
  has_key k' props = false ->
  lookup k (insert_index i k' v props)
  = if string_eqb k k' then v else lookup k props.
Proof.
  induction props as [|[k0 v0] rest IH]; [reflexivity|].
  cbn [has_key insert_index]. intros Hk.
  apply orb_false_iff in Hk as [E0 Hk].
  destruct (array_index k0) as [j|]; [destruct (j <=? i)%Z|]; try reflexivity.
  cbn [lookup]. rewrite (IH Hk).
  destruct (string_eqb k k0) eqn:E1; [|reflexivity].
  destruct (string_eqb k k') eqn:E2; [|reflexivity].
  apply string_eqb_eq in E1, E2. subst. now rewrite string_eqb_refl in E0.
Qed.

Lemma lookup_snoc (k k' : JsString) (v : Value) (props : list (JsString * Value)) :
  has_key k' props = false ->
  lookup k (props ++ [(k', v)]) = if string_eqb k k' then v else lookup k props.
Proof.
  induction props as [|[k0 v0] rest IH]; [reflexivity|].
  cbn [has_key app lookup]. intros Hk.
  apply orb_false_iff in Hk as [E0 Hk]. rewrite (IH Hk).
  destruct (string_eqb k k0) eqn:E1; [|reflexivity].
  destruct (string_eqb k k') eqn:E2; [|reflexivity].
  apply string_eqb_eq in E1, E2. subst. now rewrite string_eqb_refl in E0.
Qed.

Lemma lookup_obj_set (k k' : JsString) (v : Value) (props : list (JsString * Value)) :
  lookup k (obj_set k' v props) = if string_eqb k k' then v else lookup k props.
Proof.
  unfold obj_set. destruct (has_key k' props) eqn:E.
  - now apply lookup_replace_value.
  - destruct (array_index k'); [now apply lookup_insert_index | now apply lookup_snoc].
Qed.

Lemma has_key_obj_set (k k' : JsString) (v : Value) (props : list (JsString * Value)) :
  has_key k (obj_set k' v props) = string_eqb k k' || has_key k props.
Proof.
  rewrite !has_key_existsb. unfold obj_set.
  destruct (has_key k' props) eqn:E.
  - rewrite replace_value_keys, <- has_key_existsb.
    destruct (string_eqb k k') eqn:E1; [|reflexivity].
    apply string_eqb_eq in E1. now subst.
  - destruct (array_index k') as [i|].
    + assert (H := insert_index_forallb (fun x => negb (string_eqb k x)) i k' v props).
      rewrite <- (negb_involutive (existsb _ _)), <- (negb_involutive (_ || _)).
      f_equal. rewrite negb_orb.
      assert (Hneg : forall l, negb (existsb (string_eqb k) l)
                               = forallb (fun x => negb (string_eqb k x)) l).
      { intros l. induction l as [|x l IHl]; cbn; [reflexivity|].
        now rewrite negb_orb, IHl. }
      now rewrite !Hneg, H.
    + rewrite map_app, existsb_app. cbn. rewrite orb_false_r. apply orb_comm.
Qed.

(** The object built from [keys], each with the value [f] gives it. *)
Lemma fold_obj_set (f : JsString -> Value) (keys : list JsString) :
  forall (acc : list (JsString * Value)) (k : JsString),
    let built := fold_left (fun sorted k' => obj_set k' (f k') sorted) keys acc in
    has_key k built = existsb (string_eqb k) keys || has_key k acc
    /\ lookup k built = if existsb (string_eqb k) keys then f k else lookup k acc.
Proof.
  induction keys as [|k' keys IH]; intros acc k; cbn zeta; [now split|].
  cbn [fold_left existsb].
  destruct (IH (obj_set k' (f k') acc) k) as [Hkey Hval]. cbn zeta in Hkey, Hval.
  rewrite Hkey, Hval, has_key_obj_set, lookup_obj_set. split.
  - now destruct (string_eqb k k'), (existsb (string_eqb k) keys).
  - destruct (existsb (string_eqb k) keys); [now rewrite orb_true_r|].
    rewrite orb_false_r. destruct (string_eqb k k') eqn:E; [|reflexivity].
    apply string_eqb_eq in E. now subst.
Qed.

Lemma lookup_map (g : Value -> Value) (k : JsString) (props : list (JsString * Value)) :
  g JNull = JNull ->
  lookup k (map (fun kv : JsString * Value => let (k', x) := kv in (k', g x)) props)
  = g (lookup k props).
Proof.
  intros Hnull. induction props as [|[k' v'] rest IH]; cbn; [now rewrite Hnull|].
  now destruct (string_eqb k k').
Qed.

Lemma ordered_keys_NoDup (ks : list JsString) : ordered_keys ks = true -> NoDup ks.
Proof.
  induction ks as [|k ks IH]; cbn; [constructor|]. intros H.
  apply andb_true_iff in H as [Hk Hks]. constructor; [|now apply IH].
  intros Hin. rewrite forallb_forall in Hk. specialize (Hk k Hin).
  unfold key_before in Hk. now rewrite string_eqb_refl in Hk.
Qed.

(** The equation of [sortObjectKeys] on an object. *)
Lemma sortObjectKeys_object (props : list (JsString * Value)) :
  sortObjectKeys (JObject props)
  = JObject
      (fold_left
         (fun sorted k => obj_set k (sortObjectKeys (lookup k props)) sorted)
         (sort_strings (map fst props)) []).
Proof.
  cbn [sortObjectKeys]. f_equal.
  generalize (@nil (JsString * Value)).
  induction (sort_strings (map fst props)) as [|k keys IH]; intros acc;
    [reflexivity|].
  cbn [fold_left]. rewrite (lookup_map sortObjectKeys k props eq_refl). apply IH.
Qed.

(** ** Sorting the keys *)

Lemma lookup_Forall (P : Value -> Prop) (k : JsString)
    (props : list (JsString * Value)) :
  P JNull -> Forall (fun kv : JsString * Value => P (snd kv)) props ->
  P (lookup k props).
Proof.
  intros Hnull. induction 1 as [|[k' v'] rest Hv _ IH]; cbn; [exact Hnull|].
  now destruct (string_eqb k k').
Qed.

Lemma forallb_snd_Forall (Q : Value -> bool) (props : list (JsString * Value)) :
  forallb (fun kv : JsString * Value => Q (snd kv)) props = true
  <-> Forall (fun kv : JsString * Value => Q (snd kv) = true) props.
Proof. rewrite forallb_forall, Forall_forall. reflexivity. Qed.


Lemma fold_obj_set_ordered (f : JsString -> Value) (keys : list JsString) :
  forall acc : list (JsString * Value),
    ordered_keys (map fst acc) = true ->
    ordered_keys
      (map fst (fold_left (fun sorted k => obj_set k (f k) sorted) keys acc)) = true.
Proof.
  induction keys as [|k keys IH]; intros acc Hacc; [exact Hacc|].
  cbn [fold_left]. apply IH. now apply obj_set_ordered.
Qed.



Lemma fold_left_ext_in (f g : JsString -> Value) (keys : list JsString) :
  (forall k, In k keys -> f k = g k) ->
  forall acc : list (JsString * Value),
    fold_left (fun sorted k => obj_set k (f k) sorted) keys acc
    = fold_left (fun sorted k => obj_set k (g k) sorted) keys acc.
Proof.
  induction keys as [|k keys IH]; intros Hfg acc; [reflexivity|].
  cbn [fold_left]. rewrite (Hfg k) by now left.
  apply IH. intros k' Hk'. apply Hfg. now right.
Qed.

(** Sorting forgets the order of the properties: values with the same
    content sort to the same value. *)
Lemma sort_same (v w : Value) :
  same_content v w -> canonical v = true -> canonical w = true ->
  sortObjectKeys v = sortObjectKeys w.
Proof.
  induction 1 as [v|xs ys Hlen Hnth IH|ps qs Hkeys Hvals IH]; intros Hv Hw.
  - reflexivity.
  - cbn [sortObjectKeys canonical] in *. f_equal.
    rewrite forallb_forall in Hv, Hw.
    apply (nth_ext _ _ (sortObjectKeys JNull) (sortObjectKeys JNull)).
    { now rewrite !length_map. }
    intros i Hi. rewrite length_map in Hi. rewrite !map_nth.
    apply IH; [exact Hi | apply Hv, nth_In; exact Hi | apply Hw, nth_In; lia].
  - rewrite !sortObjectKeys_object. f_equal.
    cbn [canonical] in Hv, Hw.
    apply andb_true_iff in Hv as [Hv1 Hv2], Hw as [Hw1 Hw2].
    assert (Hsame : sort_strings (map fst ps) = sort_strings (map fst qs)).
    { apply sort_strings_unique; try now apply ordered_keys_NoDup.
      intros k. now rewrite <- !has_key_In, Hkeys. }
    rewrite <- Hsame. apply fold_left_ext_in. intros k Hk.
    assert (Hin : has_key k ps = true).
    { apply has_key_In. eapply Permutation_in; [apply sort_strings_perm | exact Hk]. }
    apply IH; [exact Hin | |].
    + apply (lookup_Forall (fun v => canonical v = true)); [reflexivity|].
      now apply forallb_snd_Forall.
    + apply (lookup_Forall (fun v => canonical v = true)); [reflexivity|].
      now apply forallb_snd_Forall.
Qed.

Lemma existsb_sort_strings (k : JsString) (ks : list JsString) :
  existsb (string_eqb k) (sort_strings ks) = existsb (string_eqb k) ks.
Proof.
  apply eq_true_iff_eq. rewrite !existsb_exists.
  split; intros (x & Hx & E); exists x; split; auto;
    eapply Permutation_in; try exact Hx;
    [apply sort_strings_perm | symmetry; apply sort_strings_perm].
Qed.



Lemma insert_index_plain_keys (i : Z) (k : JsString) (v : Value)
    (props : list (JsString * Value)) :
  plain_key k = false ->
  filter plain_key (map fst (insert_index i k v props))
  = filter plain_key (map fst props).
Proof.
  intros Hk. induction props as [|[k' v'] rest IH]; cbn; [now rewrite Hk|].
  unfold plain_key at 2. 
  destruct (array_index k') as [j|] eqn:E; [destruct (j <=? i)%Z|]; cbn;
    rewrite ?Hk; unfold plain_key at 1; rewrite ?E; try reflexivity.
  exact IH.
Qed.

Lemma obj_set_plain_keys (k : JsString) (v : Value) (props : list (JsString * Value)) :
  has_key k props = false ->
  filter plain_key (map fst (obj_set k v props))
  = filter plain_key (map fst props) ++ (if plain_key k then [k] else []).
Proof.
  intros Hk. unfold obj_set. rewrite Hk.
  destruct (array_index k) as [i|] eqn:E.
  - assert (Hp : plain_key k = false) by (unfold plain_key; now rewrite E).
    now rewrite insert_index_plain_keys, Hp, app_nil_r.
  - assert (Hp : plain_key k = true) by (unfold plain_key; now rewrite E).
    rewrite map_app, filter_app. cbn. now rewrite Hp.
Qed.

Lemma fold_obj_set_plain_keys (f : JsString -> Value) (keys : list JsString) :
  NoDup keys ->
  forall acc : list (JsString * Value),
    (forall k, In k keys -> has_key k acc = false) ->
    filter plain_key
      (map fst (fold_left (fun sorted k => obj_set k (f k) sorted) keys acc))
    = filter plain_key (map fst acc) ++ filter plain_key keys.
Proof.
  induction 1 as [|k keys Hk Hnd IH]; intros acc Hacc; cbn [fold_left filter].
  - now rewrite app_nil_r.
  - rewrite IH.
    + rewrite obj_set_plain_keys by (apply Hacc; now left).
      rewrite <- app_assoc. now destruct (plain_key k).
    + intros k' Hk'. rewrite has_key_obj_set, (Hacc k') by now right.
      rewrite orb_false_r. destruct (string_eqb k' k) eqn:E; [|reflexivity].
      apply string_eqb_eq in E. now subst.
Qed.

Lemma StronglySorted_filter (R : JsString -> JsString -> Prop) (p : JsString -> bool)
    (l : list JsString) :
  StronglySorted R l -> StronglySorted R (filter p l).
Proof.
  induction 1 as [|a l Hs IH Ha]; cbn; [constructor|].
  destruct (p a); [|exact IH]. constructor; [exact IH|].
  rewrite Forall_forall in Ha |- *. intros x Hx.
  apply filter_In in Hx as [Hx _]. now apply Ha.
Qed.

(** X12.  What [sortObjectKeys] makes of an object none of whose keys is
    [__proto__]: an object with the same keys, under each key the sorted
    value of the property, the array indices first (by their number, as
    any object lists them) and behind them the other keys in ascending
    order of their code units. *)
Theorem sorted_object (props : list (JsString * Value)) :
  canonical (JObject props) = true -> no_proto (JObject props) = true ->
  exists sorted,
    sortObjectKeys (JObject props) = JObject sorted
    /\ (forall k, has_key k sorted = has_key k props)
    /\ (forall k, lookup k sorted = sortObjectKeys (lookup k props))
    /\ ordered_keys (map fst sorted) = true
    /\ StronglySorted (fun a b => string_ltb a b = true)
         (filter plain_key (map fst sorted)).
Proof.
  intros Hcan _. cbn [canonical] in Hcan. apply andb_true_iff in Hcan as [Hord _].
  apply ordered_keys_NoDup in Hord.
  rewrite sortObjectKeys_object.
  set (f := fun k => sortObjectKeys (lookup k props)).
  set (keys := sort_strings (map fst props)).
  exists (fold_left (fun sorted k => obj_set k (f k) sorted) keys []).
  split; [reflexivity|].
  assert (Hkey : forall k, existsb (string_eqb k) keys = has_key k props).
  { intros k. unfold keys. now rewrite existsb_sort_strings, <- has_key_existsb. }
  split; [|split; [|split]].
  - intros k. destruct (fold_obj_set f keys [] k) as [H _]. cbn zeta in H.
    rewrite H, Hkey. cbn. apply orb_false_r.
  - intros k. destruct (fold_obj_set f keys [] k) as [_ H]. cbn zeta in H.
    rewrite H, Hkey. destruct (has_key k props) eqn:E; [reflexivity|].
    unfold f. clear - E. induction props as [|[k' v'] rest IH]; [reflexivity|].
    cbn in *. apply orb_false_iff in E as [E1 E2]. rewrite E1. now apply IH.
  - now apply fold_obj_set_ordered.
  - rewrite fold_obj_set_plain_keys; [| |reflexivity].
    + cbn [map filter app]. apply StronglySorted_filter.
      now apply sort_strings_sorted.
    + eapply Permutation_NoDup; [symmetry; apply sort_strings_perm | exact Hord].
Qed.

(** X13.  With [sortKeys] the formatted text does not depend on the
    order in which the input lists the properties of its objects: two
    texts with the same content (and no key [__proto__]) that are both
    formatted with success are formatted to the same result. *)
Theorem sorted_output `{Engine} (a b : JsString) (v w : Value)
    (options : FormatOptions) :
  JSON_parse a = inr v -> JSON_parse b = inr w -> same_content v w ->
  no_proto v = true -> no_proto w = true ->
  sortKeys options = true ->
  success (formatJSON a options) = true -> success (formatJSON b options) = true ->
  formatJSON a options = formatJSON b options.
Proof.
  intros Ha Hb Hsame _ _ Hsort Hsa Hsb.
  destruct (formatJSON_success _ _ Hsa) as (v' & pa & ia & Hv' & Hpa & Hia & _ & ->).
  destruct (formatJSON_success _ _ Hsb) as (w' & pb & ib & Hw' & Hpb & Hib & _ & ->).
  assert (v' = v) by congruence. subst v'.
  assert (w' = w) by congruence. subst w'.
  assert (ia = ib) by congruence. subst ib.
  unfold sorted_value in Hpa, Hpb. rewrite Hsort in Hpa, Hpb.
  destruct (exhausted (call_sortObjectKeys v)); [discriminate|].
  destruct (exhausted (call_sortObjectKeys w)); [discriminate|].
  injection Hpa as <-. injection Hpb as <-.
  rewrite (sort_same v w Hsame); [reflexivity| |];
    eapply JSON_parse_canonical; eassumption.
Qed.


(** ** The statistics *)

Lemma traverse_fold {A : Type} (p : A -> Value)
    (visit : Value -> nat -> nat * nat * nat -> nat * nat * nat)
    (count_k count_v deep : Value -> nat) (d : nat) (items : list A) :
  Forall (fun a => forall d k n m,
              visit (p a) d (k, n, m)
              = ((k + count_k (p a))%nat, (n + count_v (p a))%nat,
                 Nat.max m (d + deep (p a)))) items ->
  forall k n m,
    (d <= m)%nat ->
    fold_left (fun locals a => visit (p a) (S d) locals) items (k, n, m)
    = ((k + list_sum (map (fun a => count_k (p a)) items))%nat,
       (n + list_sum (map (fun a => count_v (p a)) items))%nat,
       Nat.max m (d + list_max (map (fun a => S (deep (p a))) items))).
Proof.
  induction 1 as [|x items Hx _ IH]; intros k n m Hm; cbn [fold_left map].
  - cbn. f_equal; [f_equal|]; lia.
  - rewrite Hx, IH by lia. unfold list_sum, list_max. cbn [fold_right].
    f_equal; [f_equal|]; lia.
Qed.

Lemma list_sum_add {A : Type} (f g : A -> nat) (l : list A) :
  list_sum (map (fun x => f x + g x)%nat l)
  = (list_sum (map f l) + list_sum (map g l))%nat.
Proof.
  unfold list_sum. induction l as [|x l IH]; cbn [map fold_right]; [reflexivity|].
  rewrite IH. lia.
Qed.

(** [traverse] adds to the locals what the value alone counts. *)
Lemma traverse_counts (v : Value) :
  forall d k n m,
    traverse v d (k, n, m)
    = ((k + properties v)%nat, (n + (elements v + scalars v))%nat,
       Nat.max m (d + nesting v)).
Proof.
  induction v as [|b|x|s|items IH|props IH] using Value_induction; intros d k n m;
    try (cbn; f_equal; [f_equal|]; lia).
  - cbn [traverse properties elements scalars nesting].
    rewrite (traverse_fold (fun x => x) traverse properties
               (fun x => elements x + scalars x)%nat nesting d items IH) by lia.
    rewrite (list_sum_add elements scalars). f_equal; [f_equal|]; lia.
  - cbn [traverse properties elements scalars nesting].
    rewrite (traverse_fold snd traverse properties
               (fun x => elements x + scalars x)%nat nesting d props IH) by lia.
    rewrite (list_sum_add (fun kv : JsString * Value => elements (snd kv))
               (fun kv : JsString * Value => scalars (snd kv))).
    f_equal; [f_equal|]; lia.
Qed.

Lemma getJSONStats_valid `{Engine} (input : JsString) (v : Value) :
  JSON_parse input = inr v ->
  getJSONStats input
  = match exhausted (call_stringify v []), exhausted (call_traverse v) with
    | None, None =>
        Some {| keys := properties v;
                values := elements v + scalars v;
                depth := nesting v;
                size := {| original := Blob_size input;
                           minified := Blob_size (JSON_stringify v []) |} |}
    | _, _ => None
    end.
Proof.
  intros Hv. unfold getJSONStats.
  rewrite (proj2 (validateJSON_valid input)) by (now exists v).
  cbn [negb]. rewrite Hv, traverse_counts.
  now destruct (exhausted (call_stringify v [])), (exhausted (call_traverse v)).
Qed.

(** X15.  What [getJSONStats] counts.  It answers [null] for the texts
    [JSON.parse] rejects, and where [JSON.stringify] or [traverse] throws
    a [RangeError]; otherwise [keys] is the number of properties of all
    objects, [values] the number of elements of all arrays plus the
    number of values that are no array and no object (so the value under
    a key counts only when it is such a value, and such an element of an
    array counts twice), [depth] the deepest nesting, and the minified
    size the size of what [minifyJSON] returns. *)
Theorem stats_count `{Engine} (input : JsString) :
  getJSONStats input
  = match JSON_parse input with
    | inr v =>
        match exhausted (call_stringify v []), exhausted (call_traverse v) with
        | None, None =>
            Some {| keys := properties v;
                    values := elements v + scalars v;
                    depth := nesting v;
                    size := {| original := Blob_size input;
                               minified := Blob_size (output (minifyJSON input)) |} |}
        | _, _ => None
        end
    | inl _ => None
    end.
Proof.
  destruct (JSON_parse input) as [e|v] eqn:Hv.
  - unfold getJSONStats.
    destruct (isValid (validateJSON input)) eqn:E; [|reflexivity].
    apply validateJSON_valid in E as [v E]. congruence.
  - rewrite (getJSONStats_valid _ _ Hv), (minifyJSON_valid _ _ Hv).
    now destruct (exhausted (call_stringify v [])).
Qed.

(** X16.  Formatting and minifying keep the statistics: where
    [getJSONStats] answers for the input, it answers for the output of
    [minifyJSON] and for a successful output of [formatJSON] (without
    [sortKeys]), with the counts and the minified size of the input, and
    a minified text has its own size as minified size. *)
Theorem stats_of_output `{Engine} (input : JsString) (v : Value)
    (options : FormatOptions) (s : JSONStats) :
  JSON_parse input = inr v -> numbers_read_back v = true ->
  sortKeys options = false ->
  getJSONStats input = Some s ->
  (success (formatJSON input options) = true ->
   getJSONStats (output (formatJSON input options))
   = Some {| keys := keys s; values := values s; depth := depth s;
             size := {| original := Blob_size (output (formatJSON input options));
                        minified := minified (size s) |} |})
  /\ success (minifyJSON input) = true
  /\ getJSONStats (output (minifyJSON input))
     = Some {| keys := keys s; values := values s; depth := depth s;
               size := {| original := minified (size s);
                          minified := minified (size s) |} |}.
Proof.
  intros Hv Hnum Hsort Hstats.
  pose proof (JSON_parse_canonical _ _ Hv) as Hcan.
  rewrite (getJSONStats_valid _ _ Hv) in Hstats.
  destruct (exhausted (call_stringify v [])) eqn:He; [discriminate|].
  destruct (exhausted (call_traverse v)) eqn:Ht; [discriminate|].
  injection Hstats as <-. cbn [keys values depth size minified].
  assert (Hm : JSON_parse (JSON_stringify v []) = inr v)
    by (now apply stringify_parses).
  rewrite (minifyJSON_valid _ _ Hv), He. cbn [success output].
  split; [|split; [reflexivity|]].
  - intros Hs.
    destruct (formatJSON_unsorted _ _ _ Hv Hsort Hs) as (indent & Hi & _ & ->).
    cbn [output].
    assert (Hf : JSON_parse (JSON_stringify v indent) = inr v)
      by (apply stringify_parses; eauto using indentation_blank).
    now rewrite (getJSONStats_valid _ _ Hf), He, Ht.
  - now rewrite (getJSONStats_valid _ _ Hm), He, Ht.
Qed.

(** ** Conversions *)

(** X17.  [convertToFormat] refuses what [formatJSON] refuses, with the
    same result, and whenever it fails its output is the input; where
    the TypeScript form and [formatJSON] with the default options both
    succeed, the first is the output of the second between
    [const data = ] and [ as const;]; the other form, where it succeeds,
    is what [toYamlLike] makes of the parsed value. *)
Theorem conversion `{Engine} (input : JsString) (format : Format) :
  (~ valid_json input ->
   forall options, convertToFormat input format = formatJSON input options)
  /\ (success (convertToFormat input format) = false ->
      output (convertToFormat input format) = input)
  /\ (success (convertToFormat input typescript) = true ->
      success (formatJSON input DEFAULT_FORMAT_OPTIONS) = true ->
      output (convertToFormat input typescript)
      = js "const data = " ++ output (formatJSON input DEFAULT_FORMAT_OPTIONS)
        ++ js " as const;")
  /\ (forall v,
         JSON_parse input = inr v ->
         success (convertToFormat input yaml_like) = true ->
         output (convertToFormat input yaml_like) = toYamlLike v 0).
Proof.
  assert (Hrun : forall f v,
             JSON_parse input = inr v ->
             convertToFormat input f
             = match f with
               | typescript =>
                   match exhausted (call_stringify v (js "  ")) with
                   | Some range_error => failure input (Some range_error)
                   | None =>
                       match exhausted (call_template (JSON_stringify v (js "  "))) with
                       | Some range_error => failure input (Some range_error)
                       | None =>
                           {| success := true;
                              output := js "const data = " ++ JSON_stringify v (js "  ")
                                        ++ js " as const;";
                              error := None |}
                       end
                   end
               | yaml_like =>
                   match exhausted (call_toYamlLike v) with
                   | Some range_error => failure input (Some range_error)
                   | None =>
                       {| success := true; output := toYamlLike v 0; error := None |}
                   end
               end).
  { intros f v Hv. unfold convertToFormat.
    rewrite (proj2 (validateJSON_valid input)) by (now exists v).
    cbn [negb]. now rewrite Hv. }
  assert (Hfail : forall f, ~ valid_json input ->
                            exists msg, convertToFormat input f = failure input msg
                                        /\ forall options,
                                             formatJSON input options = failure input msg).
  { intros f Hinvalid. unfold convertToFormat, formatJSON.
    destruct (isValid (validateJSON input)) eqn:E.
    - apply validateJSON_valid in E. contradiction.
    - cbn [negb]. eauto. }
  split; [|split; [|split]].
  - intros Hinvalid options. destruct (Hfail format Hinvalid) as (msg & -> & Hf).
    now rewrite Hf.
  - destruct (JSON_parse input) as [e|v] eqn:Hv.
    + intros _. destruct (Hfail format) as (msg & -> & _); [|reflexivity].
      intros [v Hv']. congruence.
    + rewrite (Hrun format v eq_refl). destruct format.
      * destruct (exhausted (call_stringify v (js "  "))); [reflexivity|].
        destruct (exhausted (call_template _)); [reflexivity | discriminate].
      * destruct (exhausted (call_toYamlLike v)); [reflexivity | discriminate].
  - intros Hs Hf.
    destruct (formatJSON_success _ _ Hf)
      as (v & parsed & indent & Hv & Hp & Hi & _ & ->).
    rewrite (unsorted_value DEFAULT_FORMAT_OPTIONS v eq_refl) in Hp.
    injection Hp as <-.
    assert (indent = js "  ").
    { unfold indentation, String_repeat in Hi. cbn in Hi.
      destruct (exhausted (call_repeat _ _)); [discriminate|]. now injection Hi as <-. }
    subst indent. rewrite (Hrun typescript v Hv) in Hs |- *.
    destruct (exhausted (call_stringify v (js "  "))); [discriminate|].
    destruct (exhausted (call_template _)); [discriminate | reflexivity].
  - intros v Hv Hs. rewrite (Hrun yaml_like v Hv) in Hs |- *.
    destruct (exhausted (call_toYamlLike v)); [discriminate | reflexivity].
Qed.

End JsonMoreTheory.

(** ** The further properties at concrete texts *)

Module JsonMoreRuns.

Import Json JsonTheory JsonMore JsonMoreTheory.

Open Scope N_scope.

#[local] Existing Instance v8_strings.

Lemma default_proto_free (input : JsString) : proto_free DEFAULT_FORMAT_OPTIONS input.
Proof. intros Hsort. discriminate. Qed.

(** A message of a current V8, for the text [[1,] / [2 3]] on two lines. *)
Lemma error_position_witness :
  exists lines_before current,
    firstn (Z.to_nat 6) (json_text "[1,
2 3]")
    = List.concat (map (fun l => l ++ [10]) lines_before) ++ current
    /\ Forall (fun l => ~ In 10 l) (lines_before ++ [current])
    /\ syntax_error_report (json_text "[1,
2 3]")
         (js "Expected ',' or ']' after array element in JSON at position 6 (line 2 column 3)")
       = {| isValid := false;
            verror :=
              Some {| message :=
                        js "Expected ',' or ']' after array element in JSON at position 6 (line 2 column 3)";
                      line := Some (S (List.length lines_before));
                      column := Some (S (List.length current));
                      position := Some 6%Z |} |}.
Proof.
  apply (error_position (json_text "[1,
2 3]")
           (js "Expected ',' or ']' after array element in JSON at position 6 (line 2 column 3)")
           6%Z).
  vm_compute. reflexivity.
Defined.

(** The same text with the message of the model: line 2, column 3. *)
Example error_position_example :
  validateJSON (json_text "[1,
2 3]")
  = {| isValid := false;
       verror := Some {| message := js "Unexpected number in JSON at position 6";
                         line := Some 2%nat;
                         column := Some 3%nat;
                         position := Some 6%Z |} |}.
Proof. vm_compute. reflexivity. Qed.

(** A message without a position: no line and no column. *)
Example no_position_example :
  syntax_error_report (json_text "[1,a]")
    (js "Unexpected token 'a', ...[1,a]... is not valid JSON")
  = {| isValid := false;
       verror := Some {| message := js "Unexpected token 'a', ...[1,a]... is not valid JSON";
                         line := None; column := None; position := None |} |}.
Proof. vm_compute. reflexivity. Qed.

Lemma formatter_agrees_with_validator_witness :
  (isValid (validateJSON (json_text "{'a': [1, 2]}")) = true
   <-> valid_json (json_text "{'a': [1, 2]}"))
  /\ (success (formatJSON (json_text "{'a': [1, 2]}") DEFAULT_FORMAT_OPTIONS) = true ->
      isValid (validateJSON (json_text "{'a': [1, 2]}")) = true)
  /\ (success (minifyJSON (json_text "{'a': [1, 2]}")) = true ->
      isValid (validateJSON (json_text "{'a': [1, 2]}")) = true)
  /\ (forall v,
         JSON_parse (json_text "{'a': [1, 2]}") = inr v ->
         (success (formatJSON (json_text "{'a': [1, 2]}") DEFAULT_FORMAT_OPTIONS) = true
          <-> exists parsed indent,
                sorted_value DEFAULT_FORMAT_OPTIONS v = inr parsed
                /\ indentation DEFAULT_FORMAT_OPTIONS = inr indent
                /\ exhausted (call_stringify parsed indent) = None)
         /\ (success (minifyJSON (json_text "{'a': [1, 2]}")) = true
             <-> exhausted (call_stringify v []) = None)).
Proof.
  exact (formatter_agrees_with_validator (json_text "{'a': [1, 2]}")
           DEFAULT_FORMAT_OPTIONS (default_proto_free (json_text "{'a': [1, 2]}"))).
Defined.

Lemma reformat_witness :
  (success (formatJSON (json_text "{'b': [1, 2.50], 'a': null}") DEFAULT_FORMAT_OPTIONS)
   = true ->
   formatJSON
     (output (formatJSON (json_text "{'b': [1, 2.50], 'a': null}") DEFAULT_FORMAT_OPTIONS))
     DEFAULT_FORMAT_OPTIONS
   = formatJSON (json_text "{'b': [1, 2.50], 'a': null}") DEFAULT_FORMAT_OPTIONS
   /\ (success (minifyJSON (json_text "{'b': [1, 2.50], 'a': null}")) = true ->
       minifyJSON
         (output (formatJSON (json_text "{'b': [1, 2.50], 'a': null}")
                    DEFAULT_FORMAT_OPTIONS))
       = minifyJSON (json_text "{'b': [1, 2.50], 'a': null}")))
  /\ (success (minifyJSON (json_text "{'b': [1, 2.50], 'a': null}")) = true ->
      minifyJSON (output (minifyJSON (json_text "{'b': [1, 2.50], 'a': null}")))
      = minifyJSON (json_text "{'b': [1, 2.50], 'a': null}")
      /\ (success (formatJSON (json_text "{'b': [1, 2.50], 'a': null}")
                     DEFAULT_FORMAT_OPTIONS) = true ->
          formatJSON (output (minifyJSON (json_text "{'b': [1, 2.50], 'a': null}")))
            DEFAULT_FORMAT_OPTIONS
          = formatJSON (json_text "{'b': [1, 2.50], 'a': null}") DEFAULT_FORMAT_OPTIONS)).
Proof.
  assert (Hpre : exists v,
             JSON_parse (json_text "{'b': [1, 2.50], 'a': null}") = inr v
             /\ numbers_read_back v = true).
  { eexists. split; [vm_compute; reflexivity|]. vm_compute. reflexivity. }
  destruct Hpre as (v & Hv & Hnum).
  exact (reformat (json_text "{'b': [1, 2.50], 'a': null}") v DEFAULT_FORMAT_OPTIONS
           Hv Hnum eq_refl).
Defined.

(** The formatted text is formatted to itself. *)
Example reformat_example :
  success (formatJSON (json_text "{'b': [1, 2.50], 'a': null}") DEFAULT_FORMAT_OPTIONS)
  = true
  /\ formatJSON
       (output (formatJSON (json_text "{'b': [1, 2.50], 'a': null}")
                  DEFAULT_FORMAT_OPTIONS))
       DEFAULT_FORMAT_OPTIONS
     = formatJSON (json_text "{'b': [1, 2.50], 'a': null}") DEFAULT_FORMAT_OPTIONS.
Proof. split; vm_compute; reflexivity. Qed.

Lemma output_characters_witness :
  (success (minifyJSON (json_text "{'a': ['x\ty', 2]}")) = true ->
   Forall (fun c => 32 <= c)
     (output (minifyJSON (json_text "{'a': ['x\ty', 2]}"))))
  /\ (success (formatJSON (json_text "{'a': ['x\ty', 2]}") DEFAULT_FORMAT_OPTIONS)
      = true ->
      Forall (fun c => 32 <= c
                       \/ c = 10
                       \/ (indentChar DEFAULT_FORMAT_OPTIONS = tab /\ c = 9))
        (output (formatJSON (json_text "{'a': ['x\ty', 2]}") DEFAULT_FORMAT_OPTIONS))).
Proof.
  exact (output_characters (json_text "{'a': ['x\ty', 2]}") DEFAULT_FORMAT_OPTIONS
           (default_proto_free (json_text "{'a': ['x\ty', 2]}"))).
Defined.

(** A tab is written as an escape, U+007F and U+0085 as they are. *)
Example output_characters_example :
  minifyJSON (js "[" ++ json_text "'\t'" ++ js " , " ++ [34; 127; 133; 34] ++ js "]")
  = {| success := true;
       output := js "[" ++ json_text "'\t'" ++ js "," ++ [34; 127; 133; 34] ++ js "]";
       error := None |}.
Proof. vm_compute. reflexivity. Qed.

Lemma sorted_object_witness :
  exists sorted,
    sortObjectKeys
      (JObject [(js "7", JNull); (js "b", JBool true); (js "a", JArray [])])
    = JObject sorted
    /\ (forall k,
           has_key k sorted
           = has_key k [(js "7", JNull); (js "b", JBool true); (js "a", JArray [])])
    /\ (forall k,
           lookup k sorted
           = sortObjectKeys
               (lookup k [(js "7", JNull); (js "b", JBool true); (js "a", JArray [])]))
    /\ ordered_keys (map fst sorted) = true
    /\ StronglySorted (fun a b => string_ltb a b = true)
         (filter plain_key (map fst sorted)).
Proof.
  exact (sorted_object [(js "7", JNull); (js "b", JBool true); (js "a", JArray [])]
           eq_refl eq_refl).
Defined.

Lemma sorted_output_witness :
  formatJSON (json_text "{'b': 'x', 'a': ['y']}")
    {| indentSize := 2; indentChar := space; sortKeys := true |}
  = formatJSON (json_text "{'a': ['y'], 'b': 'x'}")
      {| indentSize := 2; indentChar := space; sortKeys := true |}.
Proof.
  assert (Hpre : exists v w,
             JSON_parse (json_text "{'b': 'x', 'a': ['y']}") = inr v
             /\ JSON_parse (json_text "{'a': ['y'], 'b': 'x'}") = inr w
             /\ no_proto v = true /\ no_proto w = true
             /\ same_content v w).
  { eexists. eexists. split; [vm_compute; reflexivity|].
    split; [vm_compute; reflexivity|].
    split; [vm_compute; reflexivity|]. split; [vm_compute; reflexivity|].
    apply same_object.
    - intros k. cbn [has_key]. now destruct (string_eqb k [98]), (string_eqb k [97]).
    - intros k _. cbn [lookup].
      destruct (string_eqb k [98]) eqn:Eb, (string_eqb k [97]) eqn:Ea;
        try apply same_value.
      apply string_eqb_eq in Eb, Ea. congruence. }
  destruct Hpre as (v & w & Hv & Hw & Hpv & Hpw & Hsame).
  assert (Hsa : success (formatJSON (json_text "{'b': 'x', 'a': ['y']}")
                           {| indentSize := 2; indentChar := space; sortKeys := true |})
                = true) by (vm_compute; reflexivity).
  assert (Hsb : success (formatJSON (json_text "{'a': ['y'], 'b': 'x'}")
                           {| indentSize := 2; indentChar := space; sortKeys := true |})
                = true) by (vm_compute; reflexivity).
  exact (sorted_output (json_text "{'b': 'x', 'a': ['y']}")
           (json_text "{'a': ['y'], 'b': 'x'}") v w
           {| indentSize := 2; indentChar := space; sortKeys := true |}
           Hv Hw Hsame Hpv Hpw eq_refl Hsa Hsb).
Defined.


Lemma stats_of_output_witness :
  exists s,
    getJSONStats (json_text "{'a': [1, 2], 'b': {'c': null}}") = Some s
    /\ (success (formatJSON (json_text "{'a': [1, 2], 'b': {'c': null}}")
                   DEFAULT_FORMAT_OPTIONS) = true ->
        getJSONStats
          (output (formatJSON (json_text "{'a': [1, 2], 'b': {'c': null}}")
                     DEFAULT_FORMAT_OPTIONS))
        = Some {| keys := keys s; values := values s; depth := depth s;
                  size := {| original :=
                               Blob_size
                                 (output
                                    (formatJSON
                                       (json_text "{'a': [1, 2], 'b': {'c': null}}")
                                       DEFAULT_FORMAT_OPTIONS));
                             minified := minified (size s) |} |})
    /\ success (minifyJSON (json_text "{'a': [1, 2], 'b': {'c': null}}")) = true
    /\ getJSONStats (output (minifyJSON (json_text "{'a': [1, 2], 'b': {'c': null}}")))
       = Some {| keys := keys s; values := values s; depth := depth s;
                 size := {| original := minified (size s);
                            minified := minified (size s) |} |}.
Proof.
  assert (Hpre : exists v s,
             JSON_parse (json_text "{'a': [1, 2], 'b': {'c': null}}") = inr v
             /\ numbers_read_back v = true
             /\ getJSONStats (json_text "{'a': [1, 2], 'b': {'c': null}}") = Some s).
  { eexists. eexists. split; [vm_compute; reflexivity|].
    split; [vm_compute; reflexivity|]. vm_compute. reflexivity. }
  destruct Hpre as (v & s & Hv & Hnum & Hstats).
  exists s. split; [exact Hstats|].
  exact (stats_of_output (json_text "{'a': [1, 2], 'b': {'c': null}}") v
           DEFAULT_FORMAT_OPTIONS s Hv Hnum eq_refl Hstats).
Defined.

(** Three keys, five values (the two elements of the array count twice),
    depth two. *)
Example stats_example :
  getJSONStats (json_text "{'a': [1, 2], 'b': {'c': null}}")
  = Some {| keys := 3; values := 5; depth := 2;
            size := {| original := 31; minified := 26 |} |}.
Proof. vm_compute. reflexivity. Qed.

(** The indices stay in front, in the order of their numbers. *)
Example sort_keys_example :
  formatJSON (json_text "{'b': 1, 'a': [true], '10': {}, '9': null}")
    {| indentSize := 0; indentChar := space; sortKeys := true |}
  = {| success := true;
       output := json_text "{'9':null,'10':{},'a':[true],'b':1}";
       error := None |}.
Proof. vm_compute. reflexivity. Qed.

Example typescript_example :
  convertToFormat (json_text "[1]") typescript
  = {| success := true;
       output := js "const data = [
  1
] as const;";
       error := None |}.
Proof. vm_compute. reflexivity. Qed.

Example yaml_example :
  convertToFormat (json_text "{'a': [1, 'x'], 'b': {'c': null}, 'd': 2}") yaml_like
  = {| success := true;
       output := json_text "a:
  - 1
  - 'x'
b:
  c: null
d: 2";
       error := None |}.
Proof. vm_compute. reflexivity. Qed.

(** An engine whose call stack is exhausted by every recursion of the
    file, and by nothing else. *)
Definition shallow_stack : Engine :=
  {| exhausted c :=
       match c with
       | call_stringify _ _ | call_sortObjectKeys _ | call_traverse _
       | call_toYamlLike _ => Some (js "Maximum call stack size exceeded")
       | _ => None
       end |}.

(** On such an engine a valid text is accepted by [validateJSON] and
    refused by all the others, which return it unchanged. *)
Example exhausted_stack_example :
  isValid (validateJSON (json_text "[[1]]")) = true
  /\ @formatJSON shallow_stack (json_text "[[1]]") DEFAULT_FORMAT_OPTIONS
     = {| success := false; output := json_text "[[1]]";
          error := Some (js "Maximum call stack size exceeded") |}
  /\ @minifyJSON shallow_stack (json_text "[[1]]")
     = {| success := false; output := json_text "[[1]]";
          error := Some (js "Maximum call stack size exceeded") |}
  /\ @convertToFormat shallow_stack (json_text "[[1]]") yaml_like
     = {| success := false; output := json_text "[[1]]";
          error := Some (js "Maximum call stack size exceeded") |}
  /\ @getJSONStats shallow_stack (json_text "[[1]]") = None.
Proof. repeat split; vm_compute; reflexivity. Qed.

End JsonMoreRuns.

(* ================================================================== *)
(** * Part VII.  The page of the PDF compressor                         *)
(* ================================================================== *)

Module PageTheory.

Import Pdf PdfTheory PdfMore PdfMoreTheory Page.

Unset Implicit Arguments.

Section Runs.

Context {File PdfPage Canvas Blob : Type} {H : Host File PdfPage Canvas Blob}.

(** ** The target size typed *)

Lemma digit_bounds (c : N) : Json.is_digit c = true -> (48 <= c <= 57)%N.
Proof.
  unfold Json.is_digit. intros Hc. apply andb_true_iff in Hc as [H1 H2].
  apply N.leb_le in H1, H2. lia.
Qed.

Lemma radix_digits_decimal (ds : Json.JsString) :
  forallb Json.is_digit ds = true ->
  radix_digits 10 ds = map (fun c => c - 48)%N ds.
Proof.
  induction ds as [|c t IH]; [reflexivity|]. cbn [forallb]. intros Hd.
  apply andb_true_iff in Hd as [Hc Ht]. cbn [radix_digits map].
  unfold Json.hex_value. rewrite Hc. apply digit_bounds in Hc.
  destruct (N.ltb_spec (c - 48) 10) as [_|Hge]; [|lia]. now rewrite (IH Ht).
Qed.

Lemma radix_value_decimal (ds : Json.JsString) :
  forallb Json.is_digit ds = true ->
  radix_value 10 (map (fun c => c - 48)%N ds) = Json.digits_value ds.
Proof.
  unfold radix_value, Json.digits_value. generalize 0%Z.
  induction ds as [|c t IH]; intros acc Hd; [reflexivity|].
  cbn [forallb] in Hd. apply andb_true_iff in Hd as [Hc Ht].
  cbn [map fold_left]. rewrite (IH _ Ht). f_equal.
  apply digit_bounds in Hc. lia.
Qed.

(** A text of decimal digits is read as its number. *)
Lemma parseInt_digits (ds : Json.JsString) :
  forallb Json.is_digit ds = true -> ds <> [] ->
  parseInt ds = Some (Json.digits_value ds).
Proof.
  intros Hd Hne. destruct ds as [|c t]; [easy|].
  pose proof (radix_digits_decimal _ Hd) as Hr.
  pose proof (radix_value_decimal _ Hd) as Hv.
  cbn [forallb] in Hd. apply andb_true_iff in Hd as [Hc Ht].
  apply digit_bounds in Hc.
  assert (Hsp : Json.is_js_space c = false).
  { unfold Json.is_js_space.
    repeat match goal with
           | |- context [(?a =? ?b)%N] => destruct (N.eqb_spec a b); [lia|]
           end.
    destruct (N.leb_spec 8192 c); [lia | reflexivity]. }
  unfold parseInt. cbn [Json.trimStart]. rewrite Hsp.
  assert (Hhead : (c = 48 \/ c = 49 \/ c = 50 \/ c = 51 \/ c = 52 \/ c = 53
                   \/ c = 54 \/ c = 55 \/ c = 56 \/ c = 57)%N) by lia.
  assert (Hx : forall x t', t = x :: t' -> (x =? 120)%N || (x =? 88)%N = false).
  { intros x t' ->. cbn [forallb] in Ht. apply andb_true_iff in Ht as [Hx _].
    apply digit_bounds in Hx.
    destruct (N.eqb_spec x 120); [lia|]. destruct (N.eqb_spec x 88); [lia | reflexivity]. }
  assert (Hend : match radix_digits 10 (c :: t) with
                 | [] => None
                 | d :: digits => Some (1 * radix_value 10 (d :: digits))%Z
                 end = Some (Json.digits_value (c :: t))).
  { rewrite Hr. cbn [map]. change ((c - 48)%N :: map (fun c => (c - 48)%N) t)
      with (map (fun c => (c - 48)%N) (c :: t)). rewrite Hv. f_equal. lia. }
  destruct Hhead as [->|[->|[->|[->|[->|[->|[->|[->|[->| ->]]]]]]]]];
    try exact Hend.
  destruct t as [|x t']; [exact Hend|]. now rewrite (Hx x t' eq_refl).
Qed.

(** X18.  The target size of the page lies between 1 and 500 whatever
    is typed, and a text of decimal digits sets it to its number, brought
    into that range. *)
Theorem target_size_input (text digits : Json.JsString) (st : PageState File Blob) :
  forallb Json.is_digit digits = true -> digits <> [] ->
  (1 <= targetSize (handleTargetSizeInput text st) <= 500)%Z
  /\ targetSize (handleTargetSizeInput digits st)
     = Z.max 1 (Z.min 500 (Json.digits_value digits)).
Proof.
  intros Hd Hne. split; [cbn; lia|].
  cbn [handleTargetSizeInput targetSize]. rewrite (parseInt_digits _ Hd Hne).
  destruct (Json.digits_value digits); reflexivity.
Qed.

(** ** Compressing *)

Lemma shown_progress_eq (before : option CompressionProgress) (l : list (Event Blob)) :
  shown_progress before l = fold_left (fun _ p => Some p) (progress_of l) before.
Proof.
  unfold shown_progress, progress_of. revert before.
  induction l as [|e l IH]; intros before; [reflexivity|].
  cbn [fold_left flat_map]. rewrite fold_left_app, IH. now destruct e.
Qed.

Lemma shown_progress_last (before : option CompressionProgress)
    (early : list CompressionProgress) (p : CompressionProgress) :
  fold_left (fun _ p => Some p) (early ++ [p])%list before = Some p.
Proof. now rewrite fold_left_app. Qed.

Lemma shown_progress_Forall (P : CompressionProgress -> Prop)
    (ps : list CompressionProgress) :
  Forall P ps ->
  forall before,
    fold_left (fun _ p => Some p) ps before = before
    \/ exists p, fold_left (fun _ p => Some p) ps before = Some p /\ P p.
Proof.
  induction 1 as [|p ps Hp _ IH]; intros before; [now left|].
  cbn [fold_left]. destruct (IH (Some p)) as [E | (q & E & Hq)]; right; eauto.
Qed.

Lemma positive_target_mode (q : Q) (d : Q) (t : Z) :
  (1 <= t)%Z ->
  target_mode {| quality := q; dpi := d; targetSizeMB := Some (inject_Z t) |}
  = Some (inject_Z t).
Proof.
  intros Ht. unfold target_mode. cbn [targetSizeMB].
  destruct (Qeq_bool (inject_Z t) 0) eqn:E; [|reflexivity].
  apply Qeq_bool_eq in E. unfold Qeq in E. cbn in E. lia.
Qed.

(** X19.  What [handleCompress] does with a file chosen, for a position
    of the resolution slider and a target size as the page keeps it.
    [compressPDF] searches for the target size exactly in the mode
    [target], with the size of the page, and takes the quality of the
    settings otherwise.  When it returns the page is [complete], with
    the result and showing the report of completion; when it throws the
    page is in [error] with the message of what was thrown, and shows
    what it showed before or a report that is not the one of
    completion. *)
Theorem page_compress (st : PageState File Blob) (f : File) :
  file st = Some f -> (dpiIndex st < 6)%nat -> (1 <= targetSize st <= 500)%Z ->
  exists compressionSettings' st',
    compressionSettings st = Some compressionSettings'
    /\ target_mode compressionSettings'
       = match mode st with
         | by_target => Some (inject_Z (targetSize st))
         | by_quality => None
         end
    /\ handleCompress st = Some st'
    /\ match fst (compressPDF f compressionSettings') with
       | inr compressionResult =>
           state st' = completed
           /\ result st' = Some compressionResult
           /\ error st' = None
           /\ progress st' = Some (complete_progress (pageCount compressionResult))
       | inl thrown =>
           state st' = failed
           /\ result st' = None
           /\ (exists err, thrown = Thrown err /\ error st' = Some (error_message err))
           /\ (progress st' = progress st
               \/ exists p, progress st' = Some p /\ stage p <> complete)
       end.
Proof.
  intros Hfile Hdpi Hsize.
  assert (Hd : exists d, currentDpi st = Some d).
  { unfold currentDpi. destruct (nth_error DPI_VALUES (dpiIndex st)) eqn:E; [eauto|].
    apply nth_error_None in E. cbn in E. lia. }
  destruct Hd as [d Hd].
  unfold handleCompress, compressionSettings. rewrite Hfile, Hd.
  set (cs := {| quality := quality (settings st); dpi := d;
                targetSizeMB := match mode st with
                                | by_target => Some (inject_Z (targetSize st))
                                | by_quality => None
                                end |}).
  assert (Hmode : target_mode cs = match mode st with
                                   | by_target => Some (inject_Z (targetSize st))
                                   | by_quality => None
                                   end).
  { unfold cs. destruct (mode st); [reflexivity|].
    apply positive_target_mode. lia. }
  pose proof (compressPDF_ends f cs) as Hends.
  destruct (compressPDF f cs) as [[h|res] l] eqn:Hrun.
  - destruct (Hends _ _ eq_refl) as [[err ->] Hno].
    exists cs. eexists. split; [reflexivity|]. split; [exact Hmode|].
    split; [reflexivity|]. rewrite Hrun. cbn [fst state result error progress].
    split; [reflexivity|]. split; [reflexivity|]. split; [eauto|].
    rewrite shown_progress_eq. now apply shown_progress_Forall.
  - destruct (Hends _ _ eq_refl) as (early & Hl & _).
    exists cs. eexists. split; [reflexivity|]. split; [exact Hmode|].
    split; [reflexivity|]. rewrite Hrun. cbn [fst state result error progress].
    repeat split. rewrite shown_progress_eq, Hl. apply shown_progress_last.
Qed.

End Runs.

End PageTheory.

(** ** The page at concrete inputs *)

Module PageRuns.

Import Pdf PdfTheory PdfMore Page PageTheory.

Section Linear.

#[local] Existing Instance linear_host.

(** The page with a file of three pages chosen and the mode [target],
    at a target size of 1 MB. *)
Definition target_page : PageState nat (Q * N) :=
  {| file := Some 3%nat; mode := by_target; settings := DEFAULT_SETTINGS;
     targetSize := 1; dpiIndex := 2; state := idle;
     progress := None; result := None; error := None |}.

Lemma target_size_input_witness :
  (1 <= targetSize (handleTargetSizeInput (Json.js "abc") target_page) <= 500)%Z
  /\ targetSize (handleTargetSizeInput (Json.js "0750") target_page)
     = Z.max 1 (Z.min 500 (Json.digits_value (Json.js "0750"))).
Proof.
  apply (target_size_input (Json.js "abc") (Json.js "0750") target_page).
  - vm_compute. reflexivity.
  - vm_compute. discriminate.
Defined.

Lemma page_compress_witness :
  exists compressionSettings' st',
    compressionSettings target_page = Some compressionSettings'
    /\ target_mode compressionSettings'
       = match mode target_page with
         | by_target => Some (inject_Z (targetSize target_page))
         | by_quality => None
         end
    /\ handleCompress target_page = Some st'
    /\ match fst (compressPDF 3%nat compressionSettings') with
       | inr compressionResult =>
           state st' = completed
           /\ result st' = Some compressionResult
           /\ error st' = None
           /\ progress st' = Some (complete_progress (pageCount compressionResult))
       | inl thrown =>
           state st' = failed
           /\ result st' = None
           /\ (exists err, thrown = Thrown err /\ error st' = Some (error_message err))
           /\ (progress st' = progress target_page
               \/ exists p, progress st' = Some p /\ stage p <> complete)
       end.
Proof.
  apply (page_compress target_page 3%nat).
  - reflexivity.
  - vm_compute. lia.
  - vm_compute. split; discriminate.
Defined.

(** Typing into the field: no number and zero give 1, a number above 500
    gives 500, a hexadecimal number is read as such. *)
Example target_size_examples :
  map (fun text => targetSize (handleTargetSizeInput (Json.js text) target_page))
    [" "; "abc"; "0"; "-3"; "42"; " 42.9"; "1e3"; "501"; "0x1F"; "99999999999999999999"]%string
  = [1; 1; 1; 1; 42; 42; 1; 500; 31; 500]%Z.
Proof. vm_compute. reflexivity. Qed.

(** The page after compressing to 1 MB: complete, showing the report of
    completion. *)
Example page_compress_example :
  option_map (fun st' => (state st', progress st', error st'))
    (handleCompress target_page)
  = Some (completed, Some (complete_progress 3), None).
Proof. vm_compute. reflexivity. Qed.

End Linear.

End PageRuns.
